(** * Minesweeper: the board generator, the reveal engine and the game
      state machine of [main.js], embedded in Rocq.

    JavaScript numbers that the program uses as integers (coordinates,
    counters, cell values) are modelled as [Z]; arrays as lists read through
    [aget]; the [Set] of visited indices of the flood fill as a [gset Z]; the
    insertion-ordered [Set] of mine indices as a duplicate-free list.  The
    DOM buttons the program keeps its reveal and flag state in are records. *)

From stdpp Require Import base numbers list gmap sets.
From Stdlib Require Import QArith Qround.

Local Open Scope Z_scope.

#[local] Set Warnings "-clear-no-such-hyp".

(** ** Arrays *)

(** [arr[i]]: [None] stands for [undefined]. *)
Definition aget {A} (l : list A) (i : Z) : option A :=
  if decide (0 ≤ i) then l !! Z.to_nat i else None.

(** [arr[i] = v] for an index inside the array.  Outside, JavaScript grows
    the array (or adds a property for a negative index); the program never
    writes there, and the model leaves the list as it is. *)
Definition aset {A} (l : list A) (i : Z) (v : A) : list A :=
  if decide (0 ≤ i) then <[Z.to_nat i := v]> l else l.

(** [for (let i = from; i <= to; i++) body], threading the state. *)
Definition forRange {S} (from to : Z) (body : Z → S → S) (s : S) : S :=
  foldl (λ s i, body i s) s (seqZ from (to - from + 1)).

(** ** The game state *)

Record GameState := mkState {
  minesCount : Z;
  minesLeft : Z;
  isGameOver : bool;
  fieldsLeft : Z;
  fields : list (list Z);
  (** whether [timerInterval] holds an interval handle (truthy) *)
  timerInterval : bool;
}.

Definition setFields (fs : list (list Z)) (s : GameState) : GameState :=
  mkState (minesCount s) (minesLeft s) (isGameOver s) (fieldsLeft s) fs (timerInterval s).
Definition setFieldsLeft (n : Z) (s : GameState) : GameState :=
  mkState (minesCount s) (minesLeft s) (isGameOver s) n (fields s) (timerInterval s).
Definition setMinesLeft (n : Z) (s : GameState) : GameState :=
  mkState (minesCount s) n (isGameOver s) (fieldsLeft s) (fields s) (timerInterval s).
Definition setIsGameOver (b : bool) (s : GameState) : GameState :=
  mkState (minesCount s) (minesLeft s) b (fieldsLeft s) (fields s) (timerInterval s).
Definition setTimerInterval (b : bool) (s : GameState) : GameState :=
  mkState (minesCount s) (minesLeft s) (isGameOver s) (fieldsLeft s) (fields s) b.

(** [fields.length] and [fields[0].length].  The latter raises when there is
    no row; [insertMines] is the first to read it and fails there. *)
Definition fieldsHeight (fs : list (list Z)) : Z := Z.of_nat (length fs).
Definition fieldsWidth (fs : list (list Z)) : Z :=
  match fs with [] => 0 | row :: _ => Z.of_nat (length row) end.

(** [fields[y][x]] *)
Definition getField (fs : list (list Z)) (x y : Z) : option Z :=
  row ← aget fs y; aget row x.

(** [fields[y][x] = v] *)
Definition setField (fs : list (list Z)) (x y v : Z) : list (list Z) :=
  match aget fs y with
  | Some row => aset fs y (aset row x v)
  | None => fs
  end.

(** ** Board generator *)

(** One cell of the double loop of [updateMineNeighbours]. *)
Definition bumpField (x y : Z) (fs : list (list Z)) : list (list Z) :=
  match getField fs x y with
  | Some v => if decide (v ≠ -1) then setField fs x y (v + 1) else fs
  | None => fs
  end.

Definition updateMineNeighbours (fs : list (list Z)) (mineX mineY : Z) : list (list Z) :=
  let height := fieldsHeight fs in
  let width := fieldsWidth fs in
  let startX := Z.max 0 (mineX - 1) in
  let startY := Z.max 0 (mineY - 1) in
  let endX := Z.min (width - 1) (mineX + 1) in
  let endY := Z.min (height - 1) (mineY + 1) in
  forRange startY endY (λ y, forRange startX endX (λ x, bumpField x y)) fs.

(** The body of the [for (const index of indices)] loop.  [None] is the
    [TypeError] of [state.fields[y][x] = -1] on a missing row (which a zero
    width, whose division yields [NaN], also runs into). *)
Definition placeMine (fs : list (list Z)) (index : Z) : option (list (list Z)) :=
  let width := fieldsWidth fs in
  if decide (width = 0) then None else
  let y := index `div` width in
  let x := index `mod` width in
  match getField fs x y with
  | Some _ => Some (updateMineNeighbours (setField fs x y (-1)) x y)
  | None => None
  end.

Fixpoint placeMines (indices : list Z) (fs : list (list Z)) : option (list (list Z)) :=
  match indices with
  | [] => Some fs
  | index :: rest => fs' ← placeMine fs index; placeMines rest fs'
  end.

(** [indices.add(index)] on a [Set] that iterates in insertion order. *)
Definition setAdd (index : Z) (indices : list Z) : list Z :=
  if decide (index ∈ indices) then indices else indices ++ [index].

(** [Math.floor(Math.random() * size)], for the value [r] that
    [Math.random()] returned (taken as an exact rational). *)
Definition randomIndex (r : Q) (size : Z) : Z := Qfloor (r * inject_Z size).

(** The rejection-sampling loop.  [random k] is what the [k]-th call of
    [Math.random()] returns; [None] when the loop is still running after
    [fuel] draws. *)
Fixpoint drawIndices (fuel : nat) (random : nat → Q) (k : nat) (size count : Z)
    (indices : list Z) {struct fuel} : option (list Z) :=
  if decide (Z.of_nat (length indices) < count) then
    match fuel with
    | O => None
    | S fuel' =>
        drawIndices fuel' random (S k) size count (setAdd (randomIndex (random k) size) indices)
    end
  else Some indices.

Definition insertMines (random : nat → Q) (fuel : nat) (state : GameState) (count : Z)
    : option GameState :=
  let size := fieldsLeft state in
  indices ← drawIndices fuel random 0 size count [];
  match fields state with
  | [] => None
  | _ =>
      fs ← placeMines indices (fields state);
      Some (setFieldsLeft (fieldsLeft state - count) (setFields fs state))
  end.

(** [Array(width)] raises a [RangeError] for a negative width; it is only
    evaluated when there is a row to fill. *)
Definition initGameState (random : nat → Q) (fuel : nat) (width height count : Z)
    : option GameState :=
  if decide (0 < height ∧ width < 0) then None else
  insertMines random fuel
    (mkState count count false (width * height)
       (replicate (Z.to_nat height) (replicate (Z.to_nat width) 0)) false)
    count.

(** A source of random numbers that runs through the indices cyclically. *)
Definition cyclic (size : Z) (k : nat) : Q := Qmake (Z.of_nat k `mod` size) (Z.to_pos size).

(** ** The view *)

(** A [<button>] of the grid: its [data-x] and [data-y] attributes, its
    [disabled] property, the presence of the classes [flagged] and
    [exploded], and its [data-value] attribute. *)
Record Button := mkButton {
  data_x : Z;
  data_y : Z;
  disabled : bool;
  flagged : bool;
  exploded : bool;
  data_value : option Z;
}.

(** [className] of the restart element: the recorded outcome. *)
Inductive RestartClass := NoClass | Lost | Won.

Record View := mkView {
  restart : RestartClass;
  (** [grid.children] *)
  grid : list Button;
}.

Global Instance Button_eq_dec : EqDecision Button.
Proof. solve_decision. Defined.
Global Instance RestartClass_eq_dec : EqDecision RestartClass.
Proof. solve_decision. Defined.

Definition setDisabled (b : bool) (bt : Button) : Button :=
  mkButton (data_x bt) (data_y bt) b (flagged bt) (exploded bt) (data_value bt).
Definition setFlagged (b : bool) (bt : Button) : Button :=
  mkButton (data_x bt) (data_y bt) (disabled bt) b (exploded bt) (data_value bt).
Definition setExploded (b : bool) (bt : Button) : Button :=
  mkButton (data_x bt) (data_y bt) (disabled bt) (flagged bt) b (data_value bt).
Definition setDataValue (v : option Z) (bt : Button) : Button :=
  mkButton (data_x bt) (data_y bt) (disabled bt) (flagged bt) (exploded bt) v.

Definition createFieldButtons (view : View) (state : GameState) : View :=
  let height := fieldsHeight (fields state) in
  let width := fieldsWidth (fields state) in
  let fragment :=
    forRange 0 (height - 1) (λ y,
      forRange 0 (width - 1) (λ x fragment,
        fragment ++ [mkButton x y false false false None])) [] in
  mkView (restart view) (grid view ++ fragment).

(** What [initView] does to one button. *)
Definition resetButton (bt : Button) : Button :=
  mkButton (data_x bt) (data_y bt) false false false None.

(** The body of the loops of [initView]: the button of the cell [(x, y)]
    is reset. *)
Definition resetAt (width x y : Z) (children : list Button) : list Button :=
  let index := y * width + x in
  match aget children index with
  | Some bt => aset children index (resetButton bt)
  | None => children
  end.

Definition initView (view : View) (state : GameState) : View :=
  let height := fieldsHeight (fields state) in
  let width := fieldsWidth (fields state) in
  mkView NoClass
    (forRange 0 (height - 1) (λ y, forRange 0 (width - 1) (λ x, resetAt width x y))
       (grid view)).

(** ** Reveal engine *)

(** [revealField(state, button)], the button given by its position [k] among
    [grid.children].  The grid always has a button at the positions the
    program asks for, and every button lies on the board; where the model
    finds none, it changes nothing. *)
Definition revealField (state : GameState) (children : list Button) (k : nat)
    : bool * GameState * list Button :=
  match children !! k with
  | None => (false, state, children)
  | Some bt =>
      if disabled bt then (false, state, children) else
      let bt := setFlagged false (setDisabled true bt) in
      match getField (fields state) (data_x bt) (data_y bt) with
      | None => (false, state, children)
      | Some v =>
          if decide (v = -1) then
            (true, state, <[k := setDataValue (Some (-1)) bt]> children)
          else if decide (v = 0) then
            (true, setFieldsLeft (fieldsLeft state - 1) state, <[k := bt]> children)
          else
            (true, setFieldsLeft (fieldsLeft state - 1) state,
             <[k := setDataValue (Some v) bt]> children)
      end
  end.

(** The body of the loop of [gameOver], for the [k]-th button. *)
Definition revealIfMine (sc : GameState * list Button) (k : nat) : GameState * list Button :=
  let '(state, children) := sc in
  match children !! k with
  | Some bt =>
      match getField (fields state) (data_x bt) (data_y bt) with
      | Some v =>
          if decide (v = -1) then
            let '(_, state, children) := revealField state children k in
            (state, children)
          else (state, children)
      | None => (state, children)
      end
  | None => (state, children)
  end.

Definition gameOver (view : View) (state : GameState) : GameState * View :=
  let state := setIsGameOver true state in
  let '(state, children) :=
    foldl revealIfMine (state, grid view) (seq 0 (length (grid view))) in
  (state, mkView (restart view) children).

(** The state the closure [visit] works on: the captured [visited] set, the
    game state and the buttons. *)
Definition VisitState : Type := gset Z * GameState * list Button.

(** [visit(i, j)] inside [revealEmptyArea].  [fuel] bounds the depth of the
    recursion; [None] when it is used up. *)
Fixpoint visit (fuel : nat) (i j : Z) (s : VisitState) : option VisitState :=
  match fuel with
  | O => None
  | S fuel =>
      let '(visited, state, children) := s in
      let height := fieldsHeight (fields state) in
      let width := fieldsWidth (fields state) in
      if decide (i < 0 ∨ width ≤ i ∨ j < 0 ∨ height ≤ j) then Some s else
      let index := j * width + i in
      if decide (index ∈ visited) then Some s else
      let visited := {[index]} ∪ visited in
      let '(_, state, children) := revealField state children (Z.to_nat index) in
      if decide (getField (fields state) i j ≠ Some 0) then Some (visited, state, children) else
      s ← visit fuel (i - 1) j (visited, state, children);
      s ← visit fuel (i + 1) j s;
      s ← visit fuel i (j - 1) s;
      visit fuel i (j + 1) s
  end.

(** The recursion of [visit] is never deeper than the number of cells plus
    one ([visit_enough_fuel] below), so this much fuel always suffices. *)
Definition visitFuel (state : GameState) : nat :=
  S (Z.to_nat (fieldsWidth (fields state) * fieldsHeight (fields state))).

Definition revealEmptyArea (children : list Button) (state : GameState) (x y : Z)
    : GameState * list Button :=
  match visit (visitFuel state) x y (∅, state, children) with
  | Some (_, state, children) => (state, children)
  | None => (state, children)
  end.

(** ** Game state machine *)

Definition ensureTimerStarted (state : GameState) : GameState :=
  if timerInterval state then state else setTimerInterval true state.

Definition handleFieldFlag (view : View) (state : GameState) (k : nat) : GameState * View :=
  match grid view !! k with
  | None => (state, view)
  | Some bt =>
      if disabled bt then (state, view) else
      let isFlagged := negb (flagged bt) in
      (setMinesLeft (minesLeft state + (if isFlagged then -1 else 1)) state,
       mkView (restart view) (<[k := setFlagged isFlagged bt]> (grid view)))
  end.

Definition handleFieldReveal (view : View) (state : GameState) (k : nat) : GameState * View :=
  match grid view !! k with
  | None => (state, view)
  | Some bt =>
      let x := data_x bt in
      let y := data_y bt in
      if flagged bt then (state, view) else
      let '(state, view) :=
        match getField (fields state) x y with
        | None => (state, view)
        | Some v =>
            if decide (v = -1) then
              let '(revealed, state, children) := revealField state (grid view) k in
              if revealed then
                let children :=
                  match children !! k with
                  | Some bt => <[k := setExploded true bt]> children
                  | None => children
                  end in
                gameOver (mkView Lost children) state
              else (state, mkView (restart view) children)
            else if decide (v = 0) then
              let '(state, children) := revealEmptyArea (grid view) state x y in
              (state, mkView (restart view) children)
            else
              let '(_, state, children) := revealField state (grid view) k in
              (state, mkView (restart view) children)
        end in
      if decide (fieldsLeft state = 0) then
        gameOver (mkView Won (grid view)) state
      else (state, view)
  end.

(** A [mousedown] event on the grid: the pressed mouse button and the
    target, [Some k] for the [k]-th button of the grid and [None] for an
    element that is not a button. *)
Record MouseEvent := mkEvent {
  button : Z;
  target : option nat;
}.

Definition World : Type := GameState * View.

(** The [mousedown] listener of [handleGameEvents]. *)
Definition mousedown (event : MouseEvent) (w : World) : World :=
  let '(state, view) := w in
  if isGameOver state then w else
  match target event with
  | None => w
  | Some k =>
      match grid view !! k with
      | None => w
      | Some _ =>
          let state := ensureTimerStarted state in
          if decide (button event = 2) then handleFieldFlag view state k
          else handleFieldReveal view state k
      end
  end.

(** A right click and a left click on the [k]-th button. *)
Definition flagAt (k : nat) : MouseEvent := mkEvent 2 (Some k).
Definition revealAt (k : nat) : MouseEvent := mkEvent 0 (Some k).

(** [restartGame]: a new state of the same dimensions, copied over the old
    one by [Object.assign], and the view reset. *)
Definition restartGame (random : nat → Q) (fuel : nat) (w : World) : option World :=
  let '(state, view) := w in
  newState ← initGameState random fuel
    (fieldsWidth (fields state)) (fieldsHeight (fields state)) (minesCount state);
  Some (newState, initView view newState).

(** What [main] sets up for a board of the given dimensions. *)
Definition startGame (random : nat → Q) (fuel : nat) (width height count : Z) : option World :=
  state ← initGameState random fuel width height count;
  Some (state, initView (createFieldButtons (mkView NoClass []) state) state).

(** [main]: [view] holds the elements of the page as they are found; the
    game is set up for a board of 10 by 12 cells with 12 mines.  The
    listeners that [handleGameEvents] installs are [mousedown] and
    [restartGame]. *)
Definition main (random : nat → Q) (fuel : nat) (view : View) : option World :=
  state ← initGameState random fuel 10 12 12;
  Some (state, initView (createFieldButtons view state) state).

Definition boardOf (random : nat → Q) (w h c : Z) : option (list (list Z)) :=
  fields <$> initGameState random (Z.to_nat (w * h)) w h c.

(** ** What the claims speak about *)

(** The number of [Mine] cells among the eight neighbours of a cell; a
    neighbour beyond the edge of the board has no value and is not counted. *)
Definition neighbours8 (x y : Z) : list (Z * Z) :=
  [(x - 1, y - 1); (x, y - 1); (x + 1, y - 1);
   (x - 1, y);                 (x + 1, y);
   (x - 1, y + 1); (x, y + 1); (x + 1, y + 1)].

Definition isMine (fs : list (list Z)) (c : Z * Z) : Prop := getField fs c.1 c.2 = Some (-1).

Global Instance isMine_dec fs c : Decision (isMine fs c).
Proof. unfold isMine. apply _. Defined.

Definition mineNeighbours (fs : list (list Z)) (x y : Z) : Z :=
  Z.of_nat (length (filter (isMine fs) (neighbours8 x y))).

(** All coordinates of a board, row by row. *)
Definition allCells (w h : Z) : list (Z * Z) :=
  y ← seqZ 0 h; x ← seqZ 0 w; [(x, y)].

Definition countMines (fs : list (list Z)) : Z :=
  Z.of_nat (length (filter (isMine fs) (allCells (fieldsWidth fs) (fieldsHeight fs)))).

(** Every cell that is not a mine holds the number of mines around it. *)
Definition countsOK (fs : list (list Z)) : Prop :=
  ∀ x y v, getField fs x y = Some v → v ≠ -1 → v = mineNeighbours fs x y.

(** A board of [h] rows of [w] cells. *)
Definition rect (w h : Z) (fs : list (list Z)) : Prop :=
  fieldsHeight fs = h ∧ Forall (λ row, Z.of_nat (length row) = w) fs.

(** ** Notions the proofs use *)

Definition bump (v : Z) : Z := if decide (v ≠ -1) then v + 1 else v.

(** The cells within one step, diagonals included, of [(mx, my)]. *)
Definition near (mx my x y : Z) : Prop :=
  mx - 1 ≤ x ≤ mx + 1 ∧ my - 1 ≤ y ≤ my + 1.

Global Instance near_dec mx my x y : Decision (near mx my x y).
Proof. unfold near. apply _. Defined.

(** The board after the mine [(mx, my)] has been placed, cell by cell. *)
Definition placedAt (fs : list (list Z)) (mx my x y : Z) : option Z :=
  if decide (x = mx ∧ y = my) then Some (-1)
  else if decide (near mx my x y) then bump <$> getField fs x y
  else getField fs x y.

(** [Math.random()] returns a number in the interval from 0 (inclusive) to 1
    (exclusive). *)
Definition unitInterval (r : Q) : Prop := (0 <= r)%Q ∧ (r < 1)%Q.

(** A source of random numbers is fair for a board when every index is
    eventually drawn from it. *)
Definition fair (random : nat → Q) (size : Z) : Prop :=
  ∀ i, 0 ≤ i < size → ∃ k, randomIndex (random k) size = i.

(** What revealing does to a button over a cell of value [v]. *)
Definition revealButton (v : Z) (bt : Button) : Button :=
  if disabled bt then bt else
  let bt := setFlagged false (setDisabled true bt) in
  if decide (v = 0) then bt else setDataValue (Some v) bt.

(** The same, the value read off the board at the button's coordinates. *)
Definition revealOn (fs : list (list Z)) (bt : Button) : Button :=
  match getField fs (data_x bt) (data_y bt) with
  | Some v => revealButton v bt
  | None => bt
  end.

(** The buttons listed in [V] revealed, the others untouched. *)
Definition revealSet (fs : list (list Z)) (V : gset Z) (children : list Button) : list Button :=
  imap (λ k bt, if decide (Z.of_nat k ∈ V) then revealOn fs bt else bt) children.

(** [1] for a revealed button over a cell that is not a mine. *)
Definition safeRevealed (fs : list (list Z)) (bt : Button) : Z :=
  if disabled bt then
    if decide (getField fs (data_x bt) (data_y bt) = Some (-1)) then 0 else 1
  else 0.

(** The number of revealed cells that are not mines. *)
Definition revealedSafe (fs : list (list Z)) (children : list Button) : Z :=
  foldr (λ bt n, safeRevealed fs bt + n) 0 children.

(** [visit(i, j)] returns, taking the state [s] to [s']. *)
Definition visits (i j : Z) (s s' : VisitState) : Prop :=
  ∃ fuel, visit fuel i j s = Some s'.

(** What a [visit] leaves behind: the visited set grows, the state changes
    in [fieldsLeft] only, and exactly the buttons of the newly visited
    indices are revealed. *)
Definition visitFrame (s s' : VisitState) : Prop :=
  s.1.1 ⊆ s'.1.1 ∧
  s'.1.2 = setFieldsLeft (fieldsLeft s'.1.2) s.1.2 ∧
  s'.2 = revealSet (fields s.1.2) (s'.1.1 ∖ s.1.1) s.2.

Definition visitPotential (s s' : VisitState) : Prop :=
  fields s'.1.2 = fields s.1.2 ∧
  fieldsLeft s'.1.2 + revealedSafe (fields s.1.2) s'.2 =
  fieldsLeft s.1.2 + revealedSafe (fields s.1.2) s.2.

(** A cell of the board, and its index among the buttons. *)
Definition inBounds (fs : list (list Z)) (c : Z * Z) : Prop :=
  0 ≤ c.1 < fieldsWidth fs ∧ 0 ≤ c.2 < fieldsHeight fs.

Definition cellIndex (fs : list (list Z)) (c : Z * Z) : Z := c.2 * fieldsWidth fs + c.1.

(** The four neighbours: west, east, north, south. *)
Definition adjacent4 (a b : Z * Z) : Prop :=
  b = (a.1 - 1, a.2) ∨ b = (a.1 + 1, a.2) ∨ b = (a.1, a.2 - 1) ∨ b = (a.1, a.2 + 1).

(** One step of the fill: from a cell of value 0 to a neighbour on the
    board. *)
Definition floodStep (fs : list (list Z)) (a b : Z * Z) : Prop :=
  getField fs a.1 a.2 = Some 0 ∧ adjacent4 a b ∧ inBounds fs b.

Definition flood (fs : list (list Z)) (a c : Z * Z) : Prop :=
  inBounds fs a ∧ rtc (floodStep fs) a c.

(** After [visit(i, j)] the cell [(i, j)] is visited, and every newly
    visited cell of value 0 has all its neighbours visited. *)
Definition visitClosed (i j : Z) (s s' : VisitState) : Prop :=
  let fs := fields s.1.2 in
  (inBounds fs (i, j) → cellIndex fs (i, j) ∈ s'.1.1) ∧
  (∀ a b, inBounds fs a → cellIndex fs a ∈ s'.1.1 → cellIndex fs a ∉ s.1.1 →
          floodStep fs a b → cellIndex fs b ∈ s'.1.1).

(** Every newly visited index is that of a cell the fill reaches from
    [(i, j)]. *)
Definition visitSound (i j : Z) (s s' : VisitState) : Prop :=
  let fs := fields s.1.2 in
  ∀ k, k ∈ s'.1.1 → k ∉ s.1.1 → ∃ c, k = cellIndex fs c ∧ flood fs (i, j) c.

(** All indices of the board. *)
Definition allIndices (fs : list (list Z)) : gset Z :=
  list_to_set (seqZ 0 (fieldsWidth fs * fieldsHeight fs)).

(** What the loop of [gameOver] does to a button: a button over a mine is
    revealed. *)
Definition mineReveal (fs : list (list Z)) (bt : Button) : Button :=
  if decide (getField fs (data_x bt) (data_y bt) = Some (-1)) then revealOn fs bt else bt.

(** The check for a won game that ends [handleFieldReveal]. *)
Definition winCheck (w : World) : World :=
  if decide (fieldsLeft w.1 = 0) then gameOver (mkView Won (grid w.2)) w.1 else w.

(** The [switch] of [handleFieldReveal] for the button [bt] at position [k]. *)
Definition revealSwitch (view : View) (st : GameState) (k : nat) (bt : Button) : World :=
  match getField (fields st) (data_x bt) (data_y bt) with
  | None => (st, view)
  | Some v =>
      if decide (v = -1) then
        if disabled bt then (st, view)
        else gameOver
               (mkView Lost (<[k := setExploded true (revealButton (-1) bt)]> (grid view))) st
      else if decide (v = 0) then
        ((revealEmptyArea (grid view) st (data_x bt) (data_y bt)).1,
         mkView (restart view) (revealEmptyArea (grid view) st (data_x bt) (data_y bt)).2)
      else
        ((revealField st (grid view) k).1.2,
         mkView (restart view) (revealField st (grid view) k).2)
  end.

(** What may happen to a button: its coordinates stay, a revealed button
    does not change, and a button that becomes revealed loses its flag. *)
Definition buttonStep (bt bt' : Button) : Prop :=
  data_x bt' = data_x bt ∧ data_y bt' = data_y bt ∧
  (disabled bt = true → bt' = bt) ∧
  (disabled bt = false → disabled bt' = true → flagged bt' = false).

Definition evolves (w w' : World) : Prop :=
  fields w'.1 = fields w.1 ∧ minesCount w'.1 = minesCount w.1 ∧
  Forall2 buttonStep (grid w.2) (grid w'.2) ∧
  fieldsLeft w'.1 + revealedSafe (fields w.1) (grid w'.2) =
    fieldsLeft w.1 + revealedSafe (fields w.1) (grid w.2) ∧
  (timerInterval w.1 = true → timerInterval w'.1 = true).

(** The [k]-th button carries the coordinates of the cell of index [k]. *)
Definition wfGrid (fs : list (list Z)) (children : list Button) : Prop :=
  length children = Z.to_nat (fieldsWidth fs * fieldsHeight fs) ∧
  ∀ k bt, children !! k = Some bt →
    data_x bt = Z.of_nat k `mod` fieldsWidth fs ∧
    data_y bt = Z.of_nat k `div` fieldsWidth fs.

(** A board with at least one cell, and a button for each cell. *)
Definition wfWorld (w : World) : Prop :=
  0 < fieldsWidth (fields w.1) ∧ 0 < fieldsHeight (fields w.1) ∧
  rect (fieldsWidth (fields w.1)) (fieldsHeight (fields w.1)) (fields w.1) ∧
  wfGrid (fields w.1) (grid w.2).

(** No button is revealed or flagged, and the timer has not been started. *)
Definition freshWorld (w : World) : Prop :=
  isGameOver w.1 = false ∧ timerInterval w.1 = false ∧
  ∀ k bt, grid w.2 !! k = Some bt → disabled bt = false ∧ flagged bt = false.

Definition disabledAt (fs : list (list Z)) (children : list Button) (c : Z * Z) : Prop :=
  ∃ bt, children !! Z.to_nat (cellIndex fs c) = Some bt ∧ disabled bt = true.

Definition closedRevealed (fs : list (list Z)) (children : list Button) : Prop :=
  ∀ a b, inBounds fs a → floodStep fs a b →
         disabledAt fs children a → disabledAt fs children b.

(** The worlds a player can get to: a new game, and from there any events
    and restarts. *)
Inductive reachable : World → Prop :=
  | reach_start random fuel width height count w :
      0 < width → 0 < height → 0 ≤ count ≤ width * height →
      (∀ k, unitInterval (random k)) →
      startGame random fuel width height count = Some w →
      reachable w
  | reach_mousedown event w :
      reachable w → reachable (mousedown event w)
  | reach_restart random fuel w w' :
      reachable w → (∀ k, unitInterval (random k)) →
      restartGame random fuel w = Some w' →
      reachable w'.

Definition invariant (w : World) : Prop :=
  wfWorld w ∧ 0 ≤ minesCount w.1 ∧
  (isGameOver w.1 = false →
   (∃ k bt, grid w.2 !! k = Some bt ∧ disabled bt = true) → fieldsLeft w.1 ≠ 0) ∧
  closedRevealed (fields w.1) (grid w.2) ∧
  (timerInterval w.1 = false → ∀ k bt, grid w.2 !! k = Some bt → disabled bt = false).

(** [1] for a button over a cell that is not a mine which was not revealed
    before and is revealed after. *)
Definition newlySafe (fs : list (list Z)) (p : Button * Button) : Z :=
  if decide (disabled p.1 = false ∧ disabled p.2 = true ∧
             getField fs (data_x p.1) (data_y p.1) ≠ Some (-1))
  then 1 else 0.

(** The number of cells that are not mines and that became revealed between
    two states of the buttons. *)
Definition newlyRevealedSafe (fs : list (list Z)) (before after : list Button) : Z :=
  foldr (λ p n, newlySafe fs p + n) 0 (zip before after).

(** The reveal state of a cell, as its button shows it. *)
Inductive RevealState := Hidden | Flagged | Revealed.

Definition stateOf (bt : Button) : RevealState :=
  if disabled bt then Revealed else if flagged bt then Flagged else Hidden.

(** The 4-connected region of cells of value 0 around a cell of value 0. *)
Definition regionStep (fs : list (list Z)) (a b : Z * Z) : Prop :=
  adjacent4 a b ∧ getField fs b.1 b.2 = Some 0.

Definition region (fs : list (list Z)) (a c : Z * Z) : Prop :=
  getField fs a.1 a.2 = Some 0 ∧ rtc (regionStep fs) a c.

(** The region together with the cells of another value next to it. *)
Definition cascadeSet (fs : list (list Z)) (a c : Z * Z) : Prop :=
  region fs a c ∨
  ∃ r v, region fs a r ∧ adjacent4 r c ∧ getField fs c.1 c.2 = Some v ∧ v ≠ 0.

Global Instance RevealState_eq_dec : EqDecision RevealState.
Proof. solve_decision. Defined.

(** The number of cells that carry a flag. *)
Definition flaggedCount (children : list Button) : Z :=
  Z.of_nat (length (filter (λ bt, stateOf bt = Flagged) children)).

(** ** The bookkeeping of a game *)

(** Every button over a mine is revealed; no button over a mine is. *)
Definition minesShown (fs : list (list Z)) (children : list Button) : Prop :=
  ∀ k b, children !! k = Some b → isMine fs (data_x b, data_y b) → disabled b = true.

Definition minesHidden (fs : list (list Z)) (children : list Button) : Prop :=
  ∀ k b, children !! k = Some b → isMine fs (data_x b, data_y b) → disabled b = false.

(** The number of buttons over cells that are not mines and not revealed. *)
Definition hiddenSafe (fs : list (list Z)) (children : list Button) : Z :=
  Z.of_nat (length (filter (λ b, disabled b = false ∧ ¬ isMine fs (data_x b, data_y b))
                      children)).

(** The [k]-th button is the one that exploded, and the only one. *)
Definition explodedAt (fs : list (list Z)) (children : list Button) (k : nat) : Prop :=
  (∃ b, children !! k = Some b ∧ exploded b = true ∧ isMine fs (data_x b, data_y b)) ∧
  ∀ k' b', children !! k' = Some b' → exploded b' = true → k' = k.

(** What the recorded outcome says about the rest of the world. *)
Definition outcomeOK (w : World) : Prop :=
  match restart w.2 with
  | NoClass =>
      isGameOver w.1 = false ∧ minesHidden (fields w.1) (grid w.2) ∧
      ∀ k b, grid w.2 !! k = Some b → exploded b = false
  | Lost =>
      isGameOver w.1 = true ∧ fieldsLeft w.1 ≠ 0 ∧ minesShown (fields w.1) (grid w.2) ∧
      ∃ k, explodedAt (fields w.1) (grid w.2) k
  | Won =>
      isGameOver w.1 = true ∧ fieldsLeft w.1 = 0 ∧ minesShown (fields w.1) (grid w.2)
  end.

Definition bookkeeping (w : World) : Prop :=
  countsOK (fields w.1) ∧ countMines (fields w.1) = minesCount w.1 ∧
  fieldsLeft w.1 + revealedSafe (fields w.1) (grid w.2) =
    fieldsWidth (fields w.1) * fieldsHeight (fields w.1) - minesCount w.1 ∧
  (∀ k b, grid w.2 !! k = Some b → disabled b = true → flagged b = false) ∧
  minesLeft w.1 + flaggedCount (grid w.2) ≤ minesCount w.1 ∧
  outcomeOK w.

(** What a left click may do to a button: nothing, or reveal it. *)
Definition revealStep (b b' : Button) : Prop :=
  b' = b ∨ (disabled b = false ∧ disabled b' = true).

(** The worlds of the program: what [main] sets up on a page whose grid is
    empty, and from there any events and restarts. *)
Inductive reachableMain : World → Prop :=
  | main_start random fuel view w :
      grid view = [] → (∀ k, unitInterval (random k)) →
      main random fuel view = Some w →
      reachableMain w
  | main_mousedown event w :
      reachableMain w → reachableMain (mousedown event w)
  | main_restart random fuel w w' :
      reachableMain w → (∀ k, unitInterval (random k)) →
      restartGame random fuel w = Some w' →
      reachableMain w'.

(** * Proofs *)

(** ** The model at work *)

Example initGameState_3x3 :
  fields <$> initGameState (λ _, Qmake 4 9) 5 3 3 1 = Some [[1;1;1];[1;-1;1];[1;1;1]].
Proof. vm_compute. reflexivity. Qed.

Example initGameState_4x2 :
  fields <$> initGameState (cyclic 8) 5 4 2 2 = Some [[-1;-1;1;0];[2;2;1;0]].
Proof. vm_compute. reflexivity. Qed.

Example ex_board : boardOf (λ _, Qmake 3 5) 5 1 1 = Some [[0;0;1;-1;1]].
Proof. vm_compute. reflexivity. Qed.

(** ** Arrays and boards *)

Lemma aget_Some {A} (l : list A) i v :
  aget l i = Some v ↔ 0 ≤ i ∧ l !! Z.to_nat i = Some v.
Proof. unfold aget. destruct (decide (0 ≤ i)); naive_solver. Qed.

Lemma aget_is_Some {A} (l : list A) i :
  is_Some (aget l i) ↔ 0 ≤ i < Z.of_nat (length l).
Proof.
  unfold aget. case_decide.
  - rewrite lookup_lt_is_Some. lia.
  - split; [intros [? ?]; done | lia].
Qed.

Lemma aget_aset {A} (l : list A) i j v :
  aget (aset l i v) j =
  if decide (i = j ∧ 0 ≤ i < Z.of_nat (length l)) then Some v else aget l j.
Proof.
  unfold aget, aset. repeat case_decide; try done; try lia.
  - destruct_and!. subst. rewrite list_lookup_insert_eq; [done | lia].
  - destruct (decide (i = j)) as [->|Hne].
    + rewrite list_insert_ge; [done | lia].
    + rewrite list_lookup_insert_ne; [done | lia].
Qed.

Lemma length_aset {A} (l : list A) i v : length (aset l i v) = length l.
Proof. unfold aset. case_decide; [apply length_insert | done]. Qed.

Lemma rect_width w h fs : 0 < h → rect w h fs → fieldsWidth fs = w.
Proof.
  intros Hh [Hlen Hall]. destruct fs as [|row fs]; [unfold fieldsHeight in Hlen; simpl in *; lia|].
  simpl. by inversion Hall.
Qed.

Lemma rect_height w h fs : rect w h fs → fieldsHeight fs = h.
Proof. by intros [? ?]. Qed.

Lemma getField_is_Some w h fs x y :
  rect w h fs → is_Some (getField fs x y) ↔ (0 ≤ x < w ∧ 0 ≤ y < h).
Proof.
  intros [Hlen Hall]. unfold getField, fieldsHeight in *.
  destruct (aget fs y) as [row|] eqn:Hrow; simpl.
  - rewrite aget_is_Some.
    assert (is_Some (aget fs y)) as Hy by eauto. apply aget_is_Some in Hy.
    apply aget_Some in Hrow as [_ Hrow].
    rewrite Forall_lookup in Hall. apply Hall in Hrow. lia.
  - split; [intros [? ?]; done|]. intros [_ Hy].
    assert (is_Some (aget fs y)) as [? ?] by (apply aget_is_Some; lia). congruence.
Qed.

Lemma getField_setField fs x y v x' y' :
  getField (setField fs x y v) x' y' =
  if decide (x = x' ∧ y = y' ∧ is_Some (getField fs x y)) then Some v
  else getField fs x' y'.
Proof.
  unfold setField, getField.
  destruct (aget fs y) as [row|] eqn:Hrow; simpl.
  - assert (0 ≤ y < Z.of_nat (length fs)) by (apply aget_is_Some; eauto).
    rewrite aget_aset. destruct (decide (y = y')) as [<-|Hy].
    + rewrite decide_True by lia. simpl. rewrite aget_aset, Hrow.
      destruct (decide (x = x' ∧ 0 ≤ x < Z.of_nat (length row))) as [[<- Hx]|Hx].
      * rewrite decide_True; [done|]. by rewrite aget_is_Some.
      * rewrite decide_False; [done|]. rewrite aget_is_Some. naive_solver.
    + rewrite !decide_False by naive_solver. done.
  - rewrite decide_False; [done|]. intros (_ & _ & [? ?]). done.
Qed.

Lemma rect_setField w h fs x y v : rect w h fs → rect w h (setField fs x y v).
Proof.
  intros [Hlen Hall]. unfold setField.
  destruct (aget fs y) as [row|] eqn:Hrow; [|done].
  apply aget_Some in Hrow as [? Hrow].
  unfold rect, fieldsHeight in *. rewrite length_aset. split; [done|].
  unfold aset at 1. rewrite decide_True by done.
  apply Forall_insert; [done|]. rewrite length_aset.
  rewrite Forall_lookup in Hall. by apply Hall in Hrow.
Qed.

(** Two boards of the same shape that agree on every cell are equal. *)
Lemma rect_ext w h fs1 fs2 :
  rect w h fs1 → rect w h fs2 →
  (∀ x y, getField fs1 x y = getField fs2 x y) → fs1 = fs2.
Proof.
  intros [Hl1 Ha1] [Hl2 Ha2] Hget. unfold fieldsHeight in *.
  apply list_eq. intros i.
  destruct (fs1 !! i) as [r1|] eqn:H1, (fs2 !! i) as [r2|] eqn:H2.
  - f_equal. apply list_eq. intros j.
    specialize (Hget (Z.of_nat j) (Z.of_nat i)). unfold getField, aget in Hget.
    rewrite !decide_True, !Nat2Z.id in Hget by lia.
    rewrite H1, H2 in Hget. simpl in Hget.
    by rewrite !decide_True in Hget by lia.
  - apply lookup_lt_Some in H1. apply lookup_ge_None in H2. lia.
  - apply lookup_ge_None in H1. apply lookup_lt_Some in H2. lia.
  - done.
Qed.

(** ** [updateMineNeighbours] *)

Lemma getField_bumpField fs x y x' y' :
  getField (bumpField x y fs) x' y' =
  if decide (x = x' ∧ y = y') then bump <$> getField fs x' y' else getField fs x' y'.
Proof.
  unfold bumpField. destruct (getField fs x y) as [v|] eqn:Hv.
  - unfold bump. destruct (decide (v ≠ -1)).
    + rewrite getField_setField, Hv.
      destruct (decide (x = x' ∧ y = y')) as [[<- <-]|Hne].
      * rewrite decide_True by eauto. rewrite Hv. simpl. by rewrite decide_True.
      * rewrite decide_False by naive_solver. done.
    + case_decide as H2; [|done]. destruct H2 as [<- <-]. rewrite Hv. simpl.
      by rewrite decide_False.
  - case_decide as H2; [|done]. destruct H2 as [<- <-]. by rewrite Hv.
Qed.

Lemma rect_bumpField w h fs x y : rect w h fs → rect w h (bumpField x y fs).
Proof.
  intros. unfold bumpField. destruct (getField fs x y); [|done].
  case_decide; [by apply rect_setField | done].
Qed.

Lemma getField_bump_row xs y fs x' y' :
  NoDup xs →
  getField (foldl (λ s x, bumpField x y s) fs xs) x' y' =
  if decide (x' ∈ xs ∧ y = y') then bump <$> getField fs x' y' else getField fs x' y'.
Proof.
  intros Hnd. revert fs. induction Hnd as [|x xs Hx Hnd IH]; intros fs; cbn [foldl].
  - rewrite decide_False; [done|]. set_solver.
  - rewrite IH, getField_bumpField.
    destruct (decide (x = x' ∧ y = y')) as [[<- <-]|Hne].
    + rewrite decide_False by naive_solver. rewrite decide_True; [done | set_solver].
    + destruct (decide (x' ∈ xs ∧ y = y')) as [[? ?]|Hn2].
      * rewrite decide_True; [done | set_solver].
      * rewrite decide_False; [done|]. rewrite elem_of_cons. naive_solver.
Qed.

Lemma rect_bump_row w h xs y fs :
  rect w h fs → rect w h (foldl (λ s x, bumpField x y s) fs xs).
Proof. revert fs. induction xs; simpl; eauto using rect_bumpField. Qed.

Lemma getField_bump_rows xs ys fs x' y' :
  NoDup xs → NoDup ys →
  getField (foldl (λ s y, foldl (λ s x, bumpField x y s) s xs) fs ys) x' y' =
  if decide (x' ∈ xs ∧ y' ∈ ys) then bump <$> getField fs x' y' else getField fs x' y'.
Proof.
  intros Hxs Hnd. revert fs. induction Hnd as [|y ys Hy Hnd IH]; intros fs; cbn [foldl].
  - rewrite decide_False; [done|]. set_solver.
  - rewrite IH, getField_bump_row by done.
    destruct (decide (x' ∈ xs ∧ y = y')) as [[? <-]|Hne].
    + rewrite decide_False by naive_solver. rewrite decide_True; [done | set_solver].
    + destruct (decide (x' ∈ xs ∧ y' ∈ ys)) as [[? ?]|Hn2].
      * rewrite decide_True; [done | set_solver].
      * rewrite decide_False; [done|]. rewrite elem_of_cons. naive_solver.
Qed.

Lemma rect_bump_rows w h xs ys fs :
  rect w h fs → rect w h (foldl (λ s y, foldl (λ s x, bumpField x y s) s xs) fs ys).
Proof. revert fs. induction ys; simpl; eauto using rect_bump_row. Qed.

Lemma getField_updateMineNeighbours w h fs mx my x y :
  0 < h → rect w h fs →
  getField (updateMineNeighbours fs mx my) x y =
  if decide (near mx my x y) then bump <$> getField fs x y else getField fs x y.
Proof.
  intros Hh Hr. unfold updateMineNeighbours, forRange.
  rewrite (rect_width w h), (rect_height w h) by done.
  rewrite getField_bump_rows by apply NoDup_seqZ.
  destruct (decide (0 ≤ x < w ∧ 0 ≤ y < h)) as [Hin|Hout].
  - apply decide_ext. rewrite !elem_of_seqZ. unfold near. lia.
  - assert (getField fs x y = None) as ->.
    { apply eq_None_not_Some. by rewrite (getField_is_Some w h). }
    by repeat case_decide.
Qed.

Lemma rect_updateMineNeighbours w h fs mx my :
  rect w h fs → rect w h (updateMineNeighbours fs mx my).
Proof. intros. unfold updateMineNeighbours, forRange. by apply rect_bump_rows. Qed.

(** ** Placing one mine *)

Section board.
Context (w h : Z) (Hw : 0 < w) (Hh : 0 < h).

Lemma index_coords index :
  0 ≤ index < w * h → 0 ≤ index `mod` w < w ∧ 0 ≤ index `div` w < h.
Proof using Hw Hh.
  intros ?. split; [apply Z.mod_pos_bound; lia|].
  split; [apply Z.div_pos; lia | apply Z.div_lt_upper_bound; lia].
Qed.

Lemma coords_index x y :
  0 ≤ x < w → (y * w + x) `mod` w = x ∧ (y * w + x) `div` w = y.
Proof using Hw Hh.
  intros ?. split.
  - rewrite Z.add_comm, Z.mod_add by lia. apply Z.mod_small. lia.
  - rewrite Z.add_comm, Z.div_add by lia. rewrite Z.div_small by lia. lia.
Qed.

Lemma index_of_coords index : (index `div` w) * w + index `mod` w = index.
Proof using Hw Hh. pose proof (Z.div_mod index w). lia. Qed.

Lemma cell_index_range x y : 0 ≤ x < w → 0 ≤ y < h → 0 ≤ y * w + x < w * h.
Proof using Hw Hh. nia. Qed.

Lemma placeMine_Some fs index :
  rect w h fs → 0 ≤ index < w * h →
  placeMine fs index =
  Some (updateMineNeighbours (setField fs (index `mod` w) (index `div` w) (-1))
          (index `mod` w) (index `div` w)).
Proof using Hw Hh.
  intros Hr Hi. unfold placeMine. rewrite (rect_width w h) by done.
  rewrite decide_False by lia.
  destruct (getField_is_Some w h fs (index `mod` w) (index `div` w) Hr) as [_ Hs].
  destruct Hs as [v ->]; [by apply index_coords | done].
Qed.

Lemma rect_placed fs mx my :
  rect w h fs → rect w h (updateMineNeighbours (setField fs mx my (-1)) mx my).
Proof using Hw Hh. intros. by apply rect_updateMineNeighbours, rect_setField. Qed.

Lemma getField_placed fs mx my x y :
  rect w h fs → 0 ≤ mx < w → 0 ≤ my < h →
  getField (updateMineNeighbours (setField fs mx my (-1)) mx my) x y =
  placedAt fs mx my x y.
Proof using Hw Hh.
  intros Hr Hx Hy. unfold placedAt.
  rewrite (getField_updateMineNeighbours w h) by auto using rect_setField.
  rewrite getField_setField.
  assert (is_Some (getField fs mx my)) by (by apply (getField_is_Some w h)).
  destruct (decide (x = mx ∧ y = my)) as [[-> ->]|Hne].
  - rewrite (decide_True (P := mx = mx ∧ my = my ∧ _)) by done.
    case_decide; reflexivity.
  - rewrite !(decide_False (P := mx = x ∧ my = y ∧ _)) by naive_solver. done.
Qed.
End board.

Lemma bump_mine : bump (-1) = -1.
Proof. done. Qed.

Lemma bump_nonneg v : 0 ≤ v → bump v = v + 1.
Proof. intros. unfold bump. rewrite decide_True; [done | lia]. Qed.

Lemma near_sym mx my x y : near mx my x y ↔ near x y mx my.
Proof. unfold near. lia. Qed.

(** ** Counting mines *)

Lemma length_filter_add {A} (P P' : A → Prop)
    `{∀ x, Decision (P x)} `{∀ x, Decision (P' x)} `{EqDecision A} (m : A) (l : list A) :
  NoDup l → ¬ P m → (∀ c, c ∈ l → P' c ↔ P c ∨ c = m) →
  length (filter P' l) = (length (filter P l) + if decide (m ∈ l) then 1 else 0)%nat.
Proof.
  intros Hnd Hm. induction Hnd as [|x l Hx Hnd IH]; intros HP; [done|].
  rewrite !filter_cons.
  assert (length (filter P' l) = (length (filter P l) + if decide (m ∈ l) then 1 else 0)%nat) as IH'.
  { apply IH. intros c Hc. apply HP. by right. }
  destruct (decide (x = m)) as [->|Hne].
  - rewrite (decide_True (P := P' m)) by (apply HP; [by left | by right]).
    rewrite (decide_False (P := P m)) by done.
    rewrite (decide_False (P := m ∈ l)) in IH' by done.
    rewrite (decide_True (P := m ∈ m :: l)) by by left.
    simpl. lia.
  - assert ((if decide (m ∈ x :: l) then 1 else 0)%nat = if decide (m ∈ l) then 1 else 0)%nat as ->.
    { apply decide_ext. rewrite elem_of_cons. naive_solver. }
    destruct (decide (P x)) as [HPx|HPx].
    + rewrite decide_True by (apply HP; [by left | by left]). simpl. lia.
    + rewrite decide_False; [done|]. intros HP'x. apply HP in HP'x; [|by left]. naive_solver.
Qed.

Lemma NoDup_neighbours8 x y : NoDup (neighbours8 x y).
Proof.
  unfold neighbours8.
  repeat (apply NoDup_cons; split;
    [rewrite ?elem_of_cons, elem_of_nil; intros Hin;
     repeat (destruct Hin as [Hin|Hin]; [inversion Hin; lia|]); done|]).
  apply NoDup_nil_2.
Qed.

Lemma elem_of_neighbours8 x y c :
  c ∈ neighbours8 x y ↔ near x y c.1 c.2 ∧ c ≠ (x, y).
Proof.
  destruct c as [cx cy]. unfold neighbours8, near. simpl.
  rewrite !elem_of_cons, elem_of_nil. split.
  - intros Hin.
    repeat (destruct Hin as [Hin|Hin]; [inversion Hin; split; [lia | intros [=]; lia]|]).
    done.
  - intros [[Hx Hy] Hne].
    assert (cx = x - 1 ∨ cx = x ∨ cx = x + 1) as Hcx by lia.
    assert (cy = y - 1 ∨ cy = y ∨ cy = y + 1) as Hcy by lia.
    destruct Hcx as [->|[->| ->]], Hcy as [->|[->| ->]]; naive_solver.
Qed.

Lemma mineNeighbours_range fs x y : 0 ≤ mineNeighbours fs x y ≤ 8.
Proof.
  unfold mineNeighbours.
  pose proof (length_filter (isMine fs) (neighbours8 x y)) as Hle.
  simpl in Hle. lia.
Qed.

Lemma elem_of_allCells w h c : c ∈ allCells w h ↔ 0 ≤ c.1 < w ∧ 0 ≤ c.2 < h.
Proof.
  unfold allCells. rewrite list_elem_of_bind. split.
  - intros (y & Hx & Hy). apply list_elem_of_bind in Hx as (x & Hc & Hx).
    apply list_elem_of_singleton in Hc as ->. simpl.
    apply elem_of_seqZ in Hx, Hy. lia.
  - intros [Hx Hy]. exists c.2. rewrite elem_of_seqZ. split; [|lia].
    apply list_elem_of_bind. exists c.1. rewrite elem_of_seqZ. split; [|lia].
    destruct c. simpl. by apply list_elem_of_singleton.
Qed.

Lemma NoDup_allCells w h : NoDup (allCells w h).
Proof.
  unfold allCells. apply NoDup_bind; [| |apply NoDup_seqZ].
  - intros y1 y2 c _ _ H1 H2.
    apply list_elem_of_bind in H1 as (x1 & H1 & _), H2 as (x2 & H2 & _).
    apply list_elem_of_singleton in H1, H2. congruence.
  - intros y _. apply NoDup_bind; [| |apply NoDup_seqZ].
    + intros x1 x2 c _ _ H1 H2. apply list_elem_of_singleton in H1, H2. congruence.
    + intros x _. apply NoDup_singleton.
Qed.

Lemma length_filter_none {A} (P : A → Prop) `{∀ x, Decision (P x)} (l : list A) :
  (∀ c, c ∈ l → ¬ P c) → length (filter P l) = 0%nat.
Proof.
  intros HP. destruct (filter P l) as [|c k] eqn:Hf; [done|].
  assert (c ∈ filter P l) as Hc by (rewrite Hf; by left).
  apply list_elem_of_filter in Hc as [? ?]. naive_solver.
Qed.

Lemma countsOK_nonneg fs x y v : countsOK fs → getField fs x y = Some v → -1 ≤ v ≤ 8.
Proof.
  intros Hok Hv. destruct (decide (v = -1)) as [->|Hne]; [lia|].
  rewrite (Hok x y v Hv Hne). pose proof (mineNeighbours_range fs x y). lia.
Qed.

Section placing.
Context (w h : Z) (Hw : 0 < w) (Hh : 0 < h).
Context (fs : list (list Z)) (mx my : Z).
Context (Hrect : rect w h fs) (Hok : countsOK fs).
Context (Hmx : 0 ≤ mx < w) (Hmy : 0 ≤ my < h).

Local Abbreviation fs' := (updateMineNeighbours (setField fs mx my (-1)) mx my).

Lemma isMine_placed c : isMine fs' c ↔ isMine fs c ∨ c = (mx, my).
Proof using Hw Hh Hrect Hok Hmx Hmy.
  destruct c as [x y]. unfold isMine. simpl.
  rewrite (getField_placed w h) by done. unfold placedAt.
  destruct (decide (x = mx ∧ y = my)) as [[-> ->]|Hne]; [naive_solver|].
  assert ((x, y) ≠ (mx, my)) by naive_solver.
  destruct (decide (near mx my x y)); [|naive_solver].
  destruct (getField fs x y) as [v|] eqn:Hv; simpl; [|naive_solver].
  pose proof (countsOK_nonneg _ _ _ _ Hok Hv).
  destruct (decide (v = -1)) as [->|Hv1]; [naive_solver|].
  rewrite bump_nonneg by lia. split; [intros [=]; lia | intros [[=]|?]; done].
Qed.

Lemma countsOK_placed : ¬ isMine fs (mx, my) → countsOK fs'.
Proof using Hw Hh Hrect Hok Hmx Hmy.
  intros Hfree x y v' Hv' Hne.
  rewrite (getField_placed w h) in Hv' by done.
  unfold placedAt in Hv'.
  destruct (decide (x = mx ∧ y = my)) as [|Hxy]; [naive_solver|].
  assert (mineNeighbours fs' x y =
          mineNeighbours fs x y + if decide ((mx, my) ∈ neighbours8 x y) then 1 else 0) as Hcount.
  { unfold mineNeighbours.
    rewrite (length_filter_add (isMine fs) (isMine fs') (mx, my));
      [|apply NoDup_neighbours8|done|intros c _; apply isMine_placed].
    rewrite Nat2Z.inj_add. f_equal.
    destruct (decide ((mx, my) ∈ neighbours8 x y)); reflexivity. }
  rewrite Hcount.
  assert (∀ (a b : Z), (if decide ((mx, my) ∈ neighbours8 x y) then a else b) =
                       if decide (near mx my x y) then a else b) as Hdec.
  { intros. apply decide_ext. rewrite elem_of_neighbours8. simpl.
    rewrite (near_sym mx my x y). naive_solver. }
  rewrite Hdec. clear Hdec Hcount.
  destruct (getField fs x y) as [v|] eqn:Hv;
    [|by destruct (decide (near mx my x y))].
  pose proof (countsOK_nonneg _ _ _ _ Hok Hv).
  destruct (decide (v = -1)) as [->|Hv1].
  { destruct (decide (near mx my x y)); simpl in Hv'; naive_solver. }
  rewrite <-(Hok x y v Hv Hv1).
  destruct (decide (near mx my x y)); simpl in Hv';
    [rewrite bump_nonneg in Hv' by lia|]; naive_solver lia.
Qed.

Lemma countMines_placed : ¬ isMine fs (mx, my) → countMines fs' = countMines fs + 1.
Proof using Hw Hh Hrect Hok Hmx Hmy.
  intros Hfree. unfold countMines.
  assert (rect w h fs') by (by apply rect_placed).
  rewrite !(rect_width w h), !(rect_height w h) by done.
  rewrite (length_filter_add (isMine fs) (isMine fs') (mx, my));
    [|apply NoDup_allCells|done|intros c _; apply isMine_placed].
  rewrite decide_True; [lia|]. by apply elem_of_allCells.
Qed.
End placing.

Section generator.
Context (w h : Z) (Hw : 0 < w) (Hh : 0 < h).

(** The loop over the chosen indices: every placement succeeds, keeps the
    counts right and adds one mine. *)
Lemma placeMines_spec indices : ∀ fs,
  rect w h fs → countsOK fs → NoDup indices →
  (∀ i, i ∈ indices → 0 ≤ i < w * h ∧ ¬ isMine fs (i `mod` w, i `div` w)) →
  ∃ fs', placeMines indices fs = Some fs' ∧ rect w h fs' ∧ countsOK fs' ∧
         countMines fs' = countMines fs + Z.of_nat (length indices).
Proof using Hw Hh.
  induction indices as [|i rest IH]; intros fs Hr Hok Hnd Hin.
  - exists fs. simpl. split_and!; [done..|lia].
  - apply NoDup_cons in Hnd as [Hi Hnd].
    destruct (Hin i) as [Hrange Hfree]; [by left|].
    pose proof (index_coords w h Hw Hh i Hrange) as [? ?].
    simpl. rewrite (placeMine_Some w h) by done. simpl.
    destruct (IH (updateMineNeighbours (setField fs (i `mod` w) (i `div` w) (-1))
                    (i `mod` w) (i `div` w))) as (fs' & Hplace & Hr' & Hok' & Hcount).
    + by apply rect_placed.
    + by apply (countsOK_placed w h).
    + done.
    + intros j Hj. destruct (Hin j) as [Hjr Hjfree]; [by right|].
      split; [done|]. rewrite (isMine_placed w h) by done.
      intros [?|[= Hm Hd]]; [done|].
      assert (j = i) as -> by (rewrite <-(index_of_coords w h Hw Hh j), <-(index_of_coords w h Hw Hh i); congruence).
      done.
    + exists fs'. split_and!; [done..|].
      rewrite Hcount, (countMines_placed w h) by done.
      simpl. lia.
Qed.

(** The board [initGameState] starts from. *)
Lemma rect_zero : rect w h (replicate (Z.to_nat h) (replicate (Z.to_nat w) 0)).
Proof using Hw Hh.
  split.
  - unfold fieldsHeight. rewrite length_replicate. lia.
  - apply Forall_replicate. rewrite length_replicate. lia.
Qed.

Lemma getField_zero x y v :
  getField (replicate (Z.to_nat h) (replicate (Z.to_nat w) 0)) x y = Some v → v = 0.
Proof.
  unfold getField. intros Hv.
  destruct (aget _ y) as [row|] eqn:Hrow; [|done]. simpl in Hv.
  apply aget_Some in Hrow as [_ Hrow]. apply lookup_replicate in Hrow as [-> _].
  apply aget_Some in Hv as [_ Hv]. by apply lookup_replicate in Hv as [-> _].
Qed.

Lemma isMine_zero c : ¬ isMine (replicate (Z.to_nat h) (replicate (Z.to_nat w) 0)) c.
Proof. unfold isMine. intros Hv. by apply getField_zero in Hv. Qed.

Lemma countsOK_zero : countsOK (replicate (Z.to_nat h) (replicate (Z.to_nat w) 0)).
Proof.
  intros x y v Hv _. apply getField_zero in Hv as ->.
  unfold mineNeighbours. rewrite length_filter_none; [done|].
  intros c _. apply isMine_zero.
Qed.

Lemma countMines_zero : countMines (replicate (Z.to_nat h) (replicate (Z.to_nat w) 0)) = 0.
Proof.
  unfold countMines. rewrite length_filter_none; [done|].
  intros c _. apply isMine_zero.
Qed.
End generator.

(** ** Drawing the mine indices *)

Lemma randomIndex_range r size :
  unitInterval r → 0 < size → 0 ≤ randomIndex r size < size.
Proof.
  intros [H0 H1] Hsize. unfold randomIndex.
  assert (inject_Z 0 < inject_Z size)%Q as Hs by (rewrite <-Zlt_Qlt; lia).
  change (inject_Z 0) with 0%Q in Hs.
  split.
  - change 0 with (Qfloor 0). apply Qfloor_resp_le.
    apply Qmult_le_0_compat; [done | by apply Qlt_le_weak].
  - rewrite Zlt_Qlt. eapply Qle_lt_trans; [apply Qfloor_le|].
    rewrite <-(Qmult_1_l (inject_Z size)) at 2.
    by apply Qmult_lt_compat_r.
Qed.

Lemma NoDup_setAdd i l : NoDup l → NoDup (setAdd i l).
Proof.
  intros Hnd. unfold setAdd. case_decide; [done|].
  apply NoDup_app. split_and!; [done| |apply NoDup_singleton].
  intros x Hx Hi. apply list_elem_of_singleton in Hi as ->. done.
Qed.

Lemma elem_of_setAdd i j l : j ∈ setAdd i l ↔ j = i ∨ j ∈ l.
Proof.
  unfold setAdd. case_decide.
  - naive_solver.
  - rewrite elem_of_app, list_elem_of_singleton. naive_solver.
Qed.

Lemma length_setAdd i l : (length (setAdd i l) ≤ S (length l))%nat.
Proof. unfold setAdd. case_decide; [lia|]. rewrite length_app. simpl. lia. Qed.

Lemma drawIndices_spec random size count fuel : ∀ k indices result,
  0 < size → (∀ k, unitInterval (random k)) →
  NoDup indices → (∀ i, i ∈ indices → 0 ≤ i < size) →
  Z.of_nat (length indices) ≤ count →
  drawIndices fuel random k size count indices = Some result →
  NoDup result ∧ (∀ i, i ∈ result → 0 ≤ i < size) ∧ Z.of_nat (length result) = count.
Proof.
  induction fuel as [|fuel IH]; intros k indices result Hsize Hrnd Hnd Hin Hlen Hdraw.
  - simpl in Hdraw. case_decide; [done|]. simplify_eq. split_and!; [done..|lia].
  - simpl in Hdraw. case_decide; [|simplify_eq; split_and!; [done..|lia]].
    apply IH in Hdraw; try done.
    + by apply NoDup_setAdd.
    + intros i [->|?]%elem_of_setAdd; [|by apply Hin].
      by apply randomIndex_range.
    + pose proof (length_setAdd (randomIndex (random k) size) indices). lia.
Qed.

Lemma fair_bound random size :
  fair random size →
  ∀ n : nat, ∃ N : nat, ∀ i, 0 ≤ i < Z.of_nat n → i < size →
    ∃ k, (k < N)%nat ∧ randomIndex (random k) size = i.
Proof.
  intros Hfair. induction n as [|n [N IH]].
  - exists 0%nat. intros. lia.
  - destruct (decide (Z.of_nat n < size)) as [Hn|Hn].
    + destruct (Hfair (Z.of_nat n)) as [k Hk]; [lia|].
      exists (N `max` S k)%nat. intros i Hi Hs.
      destruct (decide (i = Z.of_nat n)) as [->|Hne].
      * exists k. split; [lia | done].
      * destruct (IH i) as (k' & ? & ?); [lia.. |]. exists k'. split; [lia | done].
    + exists N. intros i Hi Hs. destruct (IH i) as (k' & ? & ?); [lia.. |]. eauto.
Qed.

(** With a fair source, the loop ends: after [N] draws every index has come
    up, so the set cannot still be smaller than [count]. *)
Lemma drawIndices_terminates random size count N :
  0 < size → count ≤ size →
  (∀ i, 0 ≤ i < size → ∃ k, (k < N)%nat ∧ randomIndex (random k) size = i) →
  ∀ fuel k indices,
    NoDup indices →
    (∀ j, (j < k)%nat → randomIndex (random j) size ∈ indices) →
    (N ≤ k + fuel)%nat →
    is_Some (drawIndices fuel random k size count indices).
Proof.
  intros Hsize Hcount HN. induction fuel as [|fuel IH]; intros k indices Hnd Hseen Hfuel.
  - simpl. case_decide as Hlt; [|eauto]. exfalso.
    assert (seqZ 0 size ⊆+ indices) as Hsub.
    { apply NoDup_submseteq; [apply NoDup_seqZ|].
      intros i Hi%elem_of_seqZ. destruct (HN i) as (j & Hj & <-); [lia|].
      apply Hseen. lia. }
    apply submseteq_length in Hsub. rewrite length_seqZ in Hsub. lia.
  - simpl. case_decide as Hlt; [|eauto]. apply IH.
    + by apply NoDup_setAdd.
    + intros j Hj. apply elem_of_setAdd.
      destruct (decide (j = k)) as [->|Hne]; [by left|]. right. apply Hseen. lia.
    + lia.
Qed.

(** ** [initGameState] *)

Section init.
Context (w h : Z) (Hw : 0 < w) (Hh : 0 < h).

Local Abbreviation zero := (replicate (Z.to_nat h) (replicate (Z.to_nat w) 0)).

Lemma initGameState_Some random fuel count st :
  initGameState random fuel w h count = Some st →
  ∃ indices,
    drawIndices fuel random 0 (w * h) count [] = Some indices ∧
    placeMines indices zero = Some (fields st) ∧
    st = mkState count count false (w * h - count) (fields st) false.
Proof using Hw Hh.
  unfold initGameState, insertMines. rewrite decide_False by lia. simpl.
  destruct (drawIndices _ _ _ _ _ _) as [indices|] eqn:Hdraw; [|done]. simpl.
  destruct (placeMines indices zero) as [fs|] eqn:Hplace;
    [|by destruct zero].
  assert (zero ≠ []) as Hz.
  { intros Hz%(f_equal length).
    rewrite length_replicate in Hz. simpl in Hz. lia. }
  destruct zero; [done|]. simpl. intros [= <-]. by exists indices.
Qed.

Lemma initGameState_board random fuel count st :
  0 ≤ count → (∀ k, unitInterval (random k)) →
  initGameState random fuel w h count = Some st →
  rect w h (fields st) ∧ countsOK (fields st) ∧ countMines (fields st) = count ∧
  st = mkState count count false (w * h - count) (fields st) false.
Proof using Hw Hh.
  intros Hcount Hrnd (indices & Hdraw & Hplace & Hst)%initGameState_Some.
  apply drawIndices_spec in Hdraw as (Hnd & Hin & Hlen);
    [|nia|done|apply NoDup_nil_2|set_solver|simpl; lia].
  destruct (placeMines_spec w h Hw Hh indices zero) as (fs' & Hplace' & Hr & Hok & Hc).
  - by apply rect_zero.
  - apply countsOK_zero.
  - done.
  - intros i Hi. split; [by apply Hin | apply isMine_zero].
  - rewrite Hplace in Hplace'. injection Hplace' as <-.
    split_and!; try done. rewrite countMines_zero in Hc. lia.
Qed.

Lemma initGameState_terminates random count :
  0 ≤ count ≤ w * h → (∀ k, unitInterval (random k)) → fair random (w * h) →
  ∃ fuel, is_Some (initGameState random fuel w h count).
Proof using Hw Hh.
  intros Hcount Hrnd Hfair.
  destruct (fair_bound _ _ Hfair (Z.to_nat (w * h))) as [N HN].
  exists N. unfold initGameState, insertMines. rewrite decide_False by lia. simpl.
  destruct (drawIndices_terminates random (w * h) count N) with (fuel := N) (k := 0%nat)
    (indices := @nil Z) as [indices Hdraw];
    [nia|lia| |apply NoDup_nil_2| |lia|].
  { intros i Hi. apply HN; lia. }
  { intros j Hj. lia. }
  rewrite Hdraw. simpl.
  apply drawIndices_spec in Hdraw as (Hnd & Hin & Hlen);
    [|nia|done|apply NoDup_nil_2|set_solver|simpl; lia].
  destruct (placeMines_spec w h Hw Hh indices zero) as (fs' & Hplace' & _).
  - by apply rect_zero.
  - apply countsOK_zero.
  - done.
  - intros i Hi. split; [by apply Hin | apply isMine_zero].
  - rewrite Hplace'. simpl.
    pose proof (rect_zero w h Hw Hh) as [Hz _].
    unfold fieldsHeight in Hz. destruct zero; [simpl in Hz; lia | eauto].
Qed.
End init.

(** ** The order of placement *)

Lemma placedAt_twice (g : Z → Z → option Z) ax ay bx by' x y :
  (if decide (x = bx ∧ y = by') then Some (-1)
   else if decide (near bx by' x y)
        then bump <$> (if decide (x = ax ∧ y = ay) then Some (-1)
                       else if decide (near ax ay x y) then bump <$> g x y else g x y)
        else (if decide (x = ax ∧ y = ay) then Some (-1)
              else if decide (near ax ay x y) then bump <$> g x y else g x y)) =
  (if decide (x = ax ∧ y = ay) then Some (-1)
   else if decide (near ax ay x y)
        then bump <$> (if decide (x = bx ∧ y = by') then Some (-1)
                       else if decide (near bx by' x y) then bump <$> g x y else g x y)
        else (if decide (x = bx ∧ y = by') then Some (-1)
              else if decide (near bx by' x y) then bump <$> g x y else g x y)).
Proof.
  destruct (decide (x = bx ∧ y = by')), (decide (x = ax ∧ y = ay)),
    (decide (near bx by' x y)), (decide (near ax ay x y)); reflexivity.
Qed.

Section order.
Context (w h : Z) (Hw : 0 < w) (Hh : 0 < h).

Lemma placeMine_rect fs index :
  rect w h fs → 0 ≤ index < w * h →
  ∃ fs', placeMine fs index = Some fs' ∧ rect w h fs'.
Proof using Hw Hh.
  intros Hr Hi. rewrite (placeMine_Some w h) by done.
  eexists. split; [done|]. by apply rect_placed.
Qed.

Lemma placeMines_rect indices : ∀ fs,
  rect w h fs → Forall (λ i, 0 ≤ i < w * h) indices →
  ∃ fs', placeMines indices fs = Some fs' ∧ rect w h fs'.
Proof using Hw Hh.
  induction indices as [|i rest IH]; intros fs Hr Hin; [by exists fs|].
  apply Forall_cons in Hin as [Hi Hin].
  destruct (placeMine_rect fs i Hr Hi) as (fs1 & Hp & Hr1).
  simpl. rewrite Hp. simpl. by apply IH.
Qed.

Lemma placeMine_comm fs i j :
  rect w h fs → 0 ≤ i < w * h → 0 ≤ j < w * h →
  (fs' ← placeMine fs i; placeMine fs' j) = (fs' ← placeMine fs j; placeMine fs' i).
Proof using Hw Hh.
  intros Hr Hi Hj.
  pose proof (index_coords w h Hw Hh i Hi) as [? ?].
  pose proof (index_coords w h Hw Hh j Hj) as [? ?].
  rewrite (placeMine_Some w h Hw Hh fs i), (placeMine_Some w h Hw Hh fs j) by done. simpl.
  rewrite !(placeMine_Some w h) by auto using rect_placed.
  f_equal. apply (rect_ext w h); [auto using rect_placed..|].
  intros x y. rewrite !(getField_placed w h) by auto using rect_placed.
  unfold placedAt. rewrite !(getField_placed w h) by done.
  unfold placedAt. apply (placedAt_twice (getField fs)).
Qed.

Lemma placeMines_Permutation indices1 indices2 :
  indices1 ≡ₚ indices2 →
  ∀ fs, rect w h fs → Forall (λ i, 0 ≤ i < w * h) indices1 →
        placeMines indices1 fs = placeMines indices2 fs.
Proof using Hw Hh.
  induction 1 as [|i l1 l2 Hp IH|i j l|l1 l2 l3 Hp1 IH1 Hp2 IH2]; intros fs Hr Hin.
  - done.
  - apply Forall_cons in Hin as [Hi Hin].
    destruct (placeMine_rect fs i Hr Hi) as (fs1 & Hp1 & Hr1).
    simpl. rewrite Hp1. simpl. by apply IH.
  - apply Forall_cons in Hin as [Hj Hin]. apply Forall_cons in Hin as [Hi Hin].
    pose proof (placeMine_comm fs i j Hr Hi Hj) as Hcomm.
    simpl. destruct (placeMine fs j) as [fsj|], (placeMine fs i) as [fsi|];
      simpl in *; try done.
    + destruct (placeMine fsj i), (placeMine fsi j); simpl; congruence.
    + by destruct (placeMine fsj i).
    + by destruct (placeMine fsi j).
  - rewrite IH1 by done. apply IH2; [done|]. by rewrite <-Hp1.
Qed.
End order.

(** ** [revealField] *)

Lemma setFieldsLeft_id st : setFieldsLeft (fieldsLeft st) st = st.
Proof. by destruct st. Qed.

Lemma revealField_eq st children k :
  revealField st children k =
  match children !! k with
  | Some bt =>
      match getField (fields st) (data_x bt) (data_y bt) with
      | Some v =>
          (negb (disabled bt),
           setFieldsLeft
             (fieldsLeft st - if disabled bt then 0 else if decide (v = -1) then 0 else 1) st,
           <[k := revealButton v bt]> children)
      | None => (false, st, children)
      end
  | None => (false, st, children)
  end.
Proof.
  unfold revealField, revealButton.
  destruct (children !! k) as [bt|] eqn:Hk; [|done].
  destruct (disabled bt) eqn:Hd.
  - destruct (getField _ _ _); [|done].
    rewrite Z.sub_0_r, setFieldsLeft_id, list_insert_id by done. done.
  - simpl. destruct (getField _ _ _) as [v|]; [|done].
    destruct (decide (v = -1)) as [->|?].
    + rewrite decide_False by done. by rewrite Z.sub_0_r, setFieldsLeft_id.
    + by destruct (decide (v = 0)).
Qed.

Lemma revealField_fields st children k :
  fields (revealField st children k).1.2 = fields st.
Proof.
  rewrite revealField_eq. destruct (children !! k); [|done].
  by destruct (getField _ _ _).
Qed.

Lemma revealField_lookup st children k k' :
  (revealField st children k).2 !! k' =
  if decide (k = k') then revealOn (fields st) <$> children !! k' else children !! k'.
Proof.
  rewrite revealField_eq. unfold revealOn.
  destruct (decide (k = k')) as [<-|Hne].
  - destruct (children !! k) as [bt|] eqn:Hk; simpl; [|by rewrite Hk].
    destruct (getField _ _ _); simpl; [|by rewrite Hk].
    rewrite list_lookup_insert_eq; [done|]. by eapply lookup_lt_Some.
  - destruct (children !! k) as [bt|] eqn:Hk; simpl; [|done].
    destruct (getField _ _ _); simpl; [|done].
    by rewrite list_lookup_insert_ne.
Qed.

Lemma revealField_length st children k :
  length (revealField st children k).2 = length children.
Proof.
  rewrite revealField_eq. destruct (children !! k); [|done].
  destruct (getField _ _ _); [|done]. simpl. apply length_insert.
Qed.

(** Revealing changes neither the coordinates of a button nor, once it is
    revealed, anything else. *)
Lemma revealOn_data fs bt :
  data_x (revealOn fs bt) = data_x bt ∧ data_y (revealOn fs bt) = data_y bt.
Proof.
  unfold revealOn, revealButton. destruct (getField _ _ _); [|done].
  destruct (disabled bt); [done|]. by case_decide.
Qed.

Lemma revealOn_disabled fs bt : disabled bt = true → revealOn fs bt = bt.
Proof.
  intros Hd. unfold revealOn, revealButton. destruct (getField _ _ _); [|done].
  by rewrite Hd.
Qed.

Lemma revealOn_revealed fs bt :
  is_Some (getField fs (data_x bt) (data_y bt)) →
  disabled (revealOn fs bt) = true.
Proof.
  intros [v Hv]. unfold revealOn, revealButton. rewrite Hv.
  destruct (disabled bt) eqn:Hd; [done|]. by case_decide.
Qed.

Lemma revealOn_flagged fs bt :
  disabled bt = false → disabled (revealOn fs bt) = true →
  flagged (revealOn fs bt) = false.
Proof.
  intros Hd. unfold revealOn, revealButton. destruct (getField _ _ _); [|congruence].
  rewrite Hd. by case_decide.
Qed.

Lemma revealOn_idemp fs bt : revealOn fs (revealOn fs bt) = revealOn fs bt.
Proof.
  unfold revealOn at 1. destruct (revealOn_data fs bt) as [-> ->].
  destruct (getField fs (data_x bt) (data_y bt)) as [v|] eqn:Hv; [|done].
  unfold revealButton at 1. rewrite revealOn_revealed; [done | eauto].
Qed.

(** ** The flood fill *)

(** An induction principle that follows the four ways through [visit]. *)
Section visit_ind.
Context (P : Z → Z → VisitState → VisitState → Prop).
Local Abbreviation W st := (fieldsWidth (fields st)).
Local Abbreviation H st := (fieldsHeight (fields st)).
Context (Hout : ∀ i j V st ch,
  i < 0 ∨ W st ≤ i ∨ j < 0 ∨ H st ≤ j → P i j (V, st, ch) (V, st, ch)).
Context (Hseen : ∀ i j V st ch,
  0 ≤ i < W st → 0 ≤ j < H st → j * W st + i ∈ V → P i j (V, st, ch) (V, st, ch)).
Context (Hleaf : ∀ i j V st ch,
  0 ≤ i < W st → 0 ≤ j < H st → j * W st + i ∉ V →
  getField (fields st) i j ≠ Some 0 →
  P i j (V, st, ch)
    ({[j * W st + i]} ∪ V,
     (revealField st ch (Z.to_nat (j * W st + i))).1.2,
     (revealField st ch (Z.to_nat (j * W st + i))).2)).
Context (Hnode : ∀ i j V st ch s1 s2 s3 s4 s5,
  0 ≤ i < W st → 0 ≤ j < H st → j * W st + i ∉ V →
  getField (fields st) i j = Some 0 →
  s1 = ({[j * W st + i]} ∪ V,
        (revealField st ch (Z.to_nat (j * W st + i))).1.2,
        (revealField st ch (Z.to_nat (j * W st + i))).2) →
  visits (i - 1) j s1 s2 → P (i - 1) j s1 s2 →
  visits (i + 1) j s2 s3 → P (i + 1) j s2 s3 →
  visits i (j - 1) s3 s4 → P i (j - 1) s3 s4 →
  visits i (j + 1) s4 s5 → P i (j + 1) s4 s5 →
  P i j (V, st, ch) s5).

Lemma visit_ind fuel : ∀ i j s s', visit fuel i j s = Some s' → P i j s s'.
Proof using All.
  induction fuel as [|fuel IH]; intros i j [[V st] ch] s' Hv; [done|].
  simpl in Hv.
  destruct (decide (i < 0 ∨ W st ≤ i ∨ j < 0 ∨ H st ≤ j)) as [Ho|Hin].
  { injection Hv as <-. by apply Hout. }
  destruct (decide (j * W st + i ∈ V)) as [Hs|Hns].
  { injection Hv as <-. apply Hseen; [lia..|done]. }
  pose proof (revealField_fields st ch (Z.to_nat (j * W st + i))) as Hfs.
  destruct (revealField st ch (Z.to_nat (j * W st + i))) as [[r st1] ch1] eqn:Hr.
  simpl in Hfs. rewrite Hfs in Hv.
  destruct (decide (getField (fields st) i j ≠ Some 0)) as [Hnz|Hz].
  { injection Hv as <-. pose proof (Hleaf i j V st ch) as Hl.
    rewrite Hr in Hl. apply Hl; [lia..|done|done]. }
  destruct (visit fuel (i - 1) j _) as [s2|] eqn:H2; [|done]. simpl in Hv.
  destruct (visit fuel (i + 1) j s2) as [s3|] eqn:H3; [|done]. simpl in Hv.
  destruct (visit fuel i (j - 1) s3) as [s4|] eqn:H4; [|done]. simpl in Hv.
  apply dec_stable in Hz.
  apply (Hnode i j V st ch ({[j * W st + i]} ∪ V, st1, ch1) s2 s3 s4 s');
    try done; try lia; try (by rewrite Hr); unfold visits; eauto.
Qed.
End visit_ind.

Lemma lookup_revealSet fs V children k :
  revealSet fs V children !! k =
  (λ bt, if decide (Z.of_nat k ∈ V) then revealOn fs bt else bt) <$> children !! k.
Proof. unfold revealSet. by rewrite list_lookup_imap. Qed.

Lemma length_revealSet fs V children : length (revealSet fs V children) = length children.
Proof. unfold revealSet. by rewrite length_imap. Qed.

Lemma revealSet_empty fs children : revealSet fs ∅ children = children.
Proof.
  apply list_eq. intros k. rewrite lookup_revealSet.
  destruct (children !! k); [|done]. simpl. by rewrite decide_False by set_solver.
Qed.

Lemma revealSet_revealSet fs A B children :
  revealSet fs B (revealSet fs A children) = revealSet fs (A ∪ B) children.
Proof.
  apply list_eq. intros k. rewrite !lookup_revealSet.
  destruct (children !! k) as [bt|]; [|done]. simpl. f_equal.
  destruct (decide (Z.of_nat k ∈ A)), (decide (Z.of_nat k ∈ B)).
  - rewrite decide_True by set_solver. apply revealOn_idemp.
  - by rewrite decide_True by set_solver.
  - by rewrite decide_True by set_solver.
  - by rewrite decide_False by set_solver.
Qed.

Lemma revealField_revealSet st children idx :
  0 ≤ idx →
  (revealField st children (Z.to_nat idx)).2 = revealSet (fields st) {[idx]} children.
Proof.
  intros Hidx. apply list_eq. intros k.
  rewrite revealField_lookup, lookup_revealSet.
  destruct (children !! k) as [bt|]; [|by case_decide]. simpl.
  destruct (decide (Z.to_nat idx = k)) as [<-|Hne].
  - rewrite decide_True; [done|]. apply elem_of_singleton. lia.
  - rewrite decide_False; [done|]. rewrite elem_of_singleton. lia.
Qed.

Lemma revealField_state st children k :
  (revealField st children k).1.2 =
  setFieldsLeft (fieldsLeft (revealField st children k).1.2) st.
Proof.
  rewrite revealField_eq. destruct (children !! k); [|by rewrite setFieldsLeft_id].
  destruct (getField _ _ _); [done | by rewrite setFieldsLeft_id].
Qed.

Lemma visitFrame_refl s : visitFrame s s.
Proof.
  destruct s as [[V st] ch]. split_and!; simpl.
  - done.
  - by rewrite setFieldsLeft_id.
  - by rewrite difference_diag_L, revealSet_empty.
Qed.

Lemma visitFrame_trans s1 s2 s3 : visitFrame s1 s2 → visitFrame s2 s3 → visitFrame s1 s3.
Proof.
  destruct s1 as [[V1 st1] ch1], s2 as [[V2 st2] ch2], s3 as [[V3 st3] ch3].
  unfold visitFrame. simpl. intros (HV12 & Hst12 & Hch12) (HV23 & Hst23 & Hch23).
  split_and!.
  - set_solver.
  - rewrite Hst23 at 1. rewrite Hst12. done.
  - rewrite Hch23, Hch12, Hst12. simpl. rewrite revealSet_revealSet.
    f_equal. apply set_eq. intros k. rewrite elem_of_union, !elem_of_difference.
    destruct (decide (k ∈ V2)); set_solver.
Qed.

Lemma visitFrame_step V st ch idx :
  0 ≤ idx → idx ∉ V →
  visitFrame (V, st, ch)
    ({[idx]} ∪ V, (revealField st ch (Z.to_nat idx)).1.2, (revealField st ch (Z.to_nat idx)).2).
Proof.
  intros Hidx Hnew. unfold visitFrame. simpl. split_and!.
  - set_solver.
  - apply revealField_state.
  - rewrite revealField_revealSet by done. f_equal. set_solver.
Qed.

Lemma visit_frame fuel i j s s' : visit fuel i j s = Some s' → visitFrame s s'.
Proof.
  apply (visit_ind (λ _ _, visitFrame)).
  - intros. apply visitFrame_refl.
  - intros. apply visitFrame_refl.
  - intros ? ? V st ch ? ? ? _. apply visitFrame_step; [nia | done].
  - intros i' j' V st ch s1 s2 s3 s4 s5 ? ? Hnew _ -> _ H12 _ H23 _ H34 _ H45.
    assert (0 ≤ j' * fieldsWidth (fields st) + i') as Hidx by nia.
    pose proof (visitFrame_step V st ch _ Hidx Hnew).
    eauto using visitFrame_trans.
Qed.

Lemma visits_frame i j s s' : visits i j s s' → visitFrame s s'.
Proof. intros [fuel Hv]. by eapply visit_frame. Qed.

Lemma visitFrame_fields s s' : visitFrame s s' → fields s'.1.2 = fields s.1.2.
Proof. intros (_ & -> & _). done. Qed.

(** *** The counter [fieldsLeft] *)

Lemma revealedSafe_insert fs children : ∀ k bt bt',
  children !! k = Some bt →
  revealedSafe fs (<[k := bt']> children) =
  revealedSafe fs children - safeRevealed fs bt + safeRevealed fs bt'.
Proof.
  induction children as [|b children IH]; intros k bt bt' Hk; [done|].
  destruct k as [|k]; simpl in *.
  - injection Hk as ->. lia.
  - rewrite (IH k bt bt' Hk). lia.
Qed.

Lemma safeRevealed_revealButton fs bt v :
  getField fs (data_x bt) (data_y bt) = Some v →
  safeRevealed fs (revealButton v bt) =
  safeRevealed fs bt + if disabled bt then 0 else if decide (v = -1) then 0 else 1.
Proof.
  intros Hv. unfold revealButton, safeRevealed.
  destruct (disabled bt) eqn:Hd; [rewrite Hd; lia|].
  assert (∀ b, getField fs (data_x b) (data_y b) = Some v →
               disabled b = true →
               (if disabled b
                then if decide (getField fs (data_x b) (data_y b) = Some (-1)) then 0 else 1
                else 0) = 0 + if decide (v = -1) then 0 else 1) as Haux.
  { intros b -> ->. destruct (decide (v = -1)) as [->|?].
    - by rewrite decide_True.
    - rewrite decide_False; [done | congruence]. }
  destruct (decide (v = 0)); by apply Haux.
Qed.

(** Each call of [revealField] takes from [fieldsLeft] what it adds to the
    number of revealed cells that are not mines. *)
Lemma revealField_potential st children k :
  fieldsLeft (revealField st children k).1.2 +
    revealedSafe (fields st) (revealField st children k).2 =
  fieldsLeft st + revealedSafe (fields st) children.
Proof.
  rewrite revealField_eq. destruct (children !! k) as [bt|] eqn:Hk; [|done].
  destruct (getField _ _ _) as [v|] eqn:Hv; [|done]. simpl.
  rewrite (revealedSafe_insert _ _ _ bt) by done.
  rewrite (safeRevealed_revealButton _ _ v) by done. lia.
Qed.

Lemma visitPotential_trans s1 s2 s3 :
  visitPotential s1 s2 → visitPotential s2 s3 → visitPotential s1 s3.
Proof.
  unfold visitPotential. intros [Hf1 Hp1] [Hf2 Hp2]. rewrite Hf1 in Hf2, Hp2.
  split; [done | lia].
Qed.

Lemma visit_potential fuel i j s s' : visit fuel i j s = Some s' → visitPotential s s'.
Proof.
  assert (∀ V st ch k,
    visitPotential (V, st, ch)
      ({[Z.of_nat k]} ∪ V, (revealField st ch k).1.2, (revealField st ch k).2)) as Hstep.
  { intros. split; simpl; [apply revealField_fields | apply revealField_potential]. }
  apply (visit_ind (λ _ _, visitPotential)).
  - by intros.
  - by intros.
  - intros i' j' V st ch ? ? ? _.
    pose proof (Hstep V st ch (Z.to_nat (j' * fieldsWidth (fields st) + i'))) as Hs.
    by destruct Hs.
  - intros i' j' V st ch s1 s2 s3 s4 s5 ? ? ? _ -> _ H12 _ H23 _ H34 _ H45.
    pose proof (Hstep V st ch (Z.to_nat (j' * fieldsWidth (fields st) + i'))) as [Hf Hp].
    eapply visitPotential_trans; [by split|]. eauto using visitPotential_trans.
Qed.

(** *** Which cells the flood fill reaches *)

Lemma cellIndex_inj fs a b :
  inBounds fs a → inBounds fs b → cellIndex fs a = cellIndex fs b → a = b.
Proof.
  destruct a as [ax ay], b as [bx by']. unfold inBounds, cellIndex. simpl.
  intros [Hax Hay] [Hbx Hby] Heq.
  assert (0 < fieldsWidth fs) as Hw by lia.
  assert (0 < fieldsHeight fs) as Hh by lia.
  pose proof (coords_index _ _ Hw Hh ax ay Hax) as [Hm1 Hd1].
  pose proof (coords_index _ _ Hw Hh bx by' Hbx) as [Hm2 Hd2].
  rewrite Heq in Hm1, Hd1. congruence.
Qed.

Lemma cellIndex_range fs c :
  inBounds fs c → 0 ≤ cellIndex fs c < fieldsWidth fs * fieldsHeight fs.
Proof. unfold inBounds, cellIndex. nia. Qed.

Lemma flood_inBounds fs a c : flood fs a c → inBounds fs c.
Proof.
  intros [Ha Hrtc]. induction Hrtc as [|a b c Hab _ IH]; [done|].
  apply IH. by destruct Hab as (_ & _ & ?).
Qed.

Lemma visit_closed fuel i j s s' : visit fuel i j s = Some s' → visitClosed i j s s'.
Proof.
  apply (visit_ind visitClosed).
  - intros i' j' V st ch Hout. split; simpl; [|done].
    unfold inBounds. simpl. lia.
  - intros i' j' V st ch ? ? Hseen. split; simpl; done.
  - intros i' j' V st ch ? ? Hnew Hnz. split; simpl.
    + intros _. unfold cellIndex. simpl. set_solver.
    + intros a b Ha Hin Hnin (Hzero & _).
      assert (cellIndex (fields st) a = cellIndex (fields st) (i', j')) as Heq.
      { unfold cellIndex at 2. simpl. set_solver. }
      apply cellIndex_inj in Heq as ->; [done..|]. by split.
  - intros i' j' V st ch s1 s2 s3 s4 s5 ? ? Hnew Hzero ->
      [fuel1 Hv1] [Hm1 Hc1] [fuel2 Hv2] [Hm2 Hc2] [fuel3 Hv3] [Hm3 Hc3] [fuel4 Hv4] [Hm4 Hc4].
    apply visit_frame in Hv1 as Hf1. apply visit_frame in Hv2 as Hf2.
    apply visit_frame in Hv3 as Hf3. apply visit_frame in Hv4 as Hf4.
    pose proof (visitFrame_fields _ _ Hf1) as Hfs1.
    pose proof (visitFrame_fields _ _ Hf2) as Hfs2.
    pose proof (visitFrame_fields _ _ Hf3) as Hfs3.
    destruct Hf1 as (HV1 & _), Hf2 as (HV2 & _), Hf3 as (HV3 & _), Hf4 as (HV4 & _).
    simpl in Hfs1, HV1, Hm1, Hc1. rewrite revealField_fields in Hfs1, Hm1, Hc1.
    rewrite Hfs1 in Hfs2. rewrite Hfs2 in Hfs3.
    rewrite Hfs1 in Hm2, Hc2. rewrite Hfs2 in Hm3, Hc3. rewrite Hfs3 in Hm4, Hc4.
    set (fs := fields st) in *. simpl.
    assert (cellIndex fs (i', j') ∈ s2.1.1) as Hself.
    { apply HV1. unfold cellIndex. simpl. set_solver. }
    split.
    + intros _. set_solver.
    + intros a b Ha Hin Hnin Hstep.
      destruct (decide (cellIndex fs a = cellIndex fs (i', j'))) as [Heq|Hne].
      { apply cellIndex_inj in Heq as ->; [|done|by split].
        destruct Hstep as (_ & Hadj & Hb). simpl in Hadj.
        destruct Hadj as [->|[->|[->| ->]]]; [set_solver..|]. by apply Hm4. }
      assert (cellIndex fs a ∉ ({[j' * fieldsWidth fs + i']} ∪ V : gset Z)) as Hn1.
      { unfold cellIndex in Hne. simpl in Hne. set_solver. }
      destruct (decide (cellIndex fs a ∈ s2.1.1)) as [H2|H2].
      { pose proof (Hc1 a b Ha H2 Hn1 Hstep). set_solver. }
      destruct (decide (cellIndex fs a ∈ s3.1.1)) as [H3|H3].
      { pose proof (Hc2 a b Ha H3 H2 Hstep). set_solver. }
      destruct (decide (cellIndex fs a ∈ s4.1.1)) as [H4|H4].
      { pose proof (Hc3 a b Ha H4 H3 Hstep). set_solver. }
      by apply (Hc4 a b).
Qed.

Lemma flood_step_l fs a b c :
  inBounds fs a → getField fs a.1 a.2 = Some 0 → adjacent4 a b →
  flood fs b c → flood fs a c.
Proof.
  intros Ha Hzero Hadj [Hb Hrtc]. split; [done|].
  eapply rtc_l; [|done]. done.
Qed.

Lemma visit_sound fuel i j s s' : visit fuel i j s = Some s' → visitSound i j s s'.
Proof.
  apply (visit_ind visitSound).
  - intros i' j' V st ch _ k. simpl. done.
  - intros i' j' V st ch _ _ _ k. simpl. done.
  - intros i' j' V st ch ? ? Hnew Hnz k. simpl. intros Hk Hnk.
    exists (i', j'). split; [unfold cellIndex; simpl; set_solver|].
    split; [by split | done].
  - intros i' j' V st ch s1 s2 s3 s4 s5 ? ? Hnew Hzero ->
      [fuel1 Hv1] Hs1 [fuel2 Hv2] Hs2 [fuel3 Hv3] Hs3 [fuel4 Hv4] Hs4.
    apply visit_frame in Hv1 as Hf1. apply visit_frame in Hv2 as Hf2.
    apply visit_frame in Hv3 as Hf3. apply visit_frame in Hv4 as Hf4.
    pose proof (visitFrame_fields _ _ Hf1) as Hfs1.
    pose proof (visitFrame_fields _ _ Hf2) as Hfs2.
    pose proof (visitFrame_fields _ _ Hf3) as Hfs3.
    unfold visitSound in *.
    simpl in Hfs1, Hs1. rewrite revealField_fields in Hfs1, Hs1.
    rewrite Hfs1 in Hfs2. rewrite Hfs2 in Hfs3.
    rewrite Hfs1 in Hs2. rewrite Hfs2 in Hs3. rewrite Hfs3 in Hs4.
    set (fs := fields st) in *. simpl.
    assert (inBounds fs (i', j')) as Hij by (by split).
    intros k Hk Hnk.
    assert (∀ b, adjacent4 (i', j') b →
                 (∃ c, k = cellIndex fs c ∧ flood fs b c) →
                 ∃ c, k = cellIndex fs c ∧ flood fs (i', j') c) as Hlift.
    { intros b Hadj (c & -> & Hfl). exists c. split; [done|].
      by apply (flood_step_l fs (i', j') b). }
    destruct (decide (k = cellIndex fs (i', j'))) as [->|Hne].
    { exists (i', j'). split; [done|]. split; [done | done]. }
    assert (k ∉ ({[j' * fieldsWidth fs + i']} ∪ V : gset Z)) as Hn1.
    { unfold cellIndex in Hne. simpl in Hne. set_solver. }
    destruct (decide (k ∈ s2.1.1)) as [H2|H2].
    { apply (Hlift (i' - 1, j')); [unfold adjacent4; simpl; auto | by apply Hs1]. }
    destruct (decide (k ∈ s3.1.1)) as [H3|H3].
    { apply (Hlift (i' + 1, j')); [unfold adjacent4; simpl; auto | by apply Hs2]. }
    destruct (decide (k ∈ s4.1.1)) as [H4|H4].
    { apply (Hlift (i', j' - 1)); [unfold adjacent4; simpl; auto | by apply Hs3]. }
    apply (Hlift (i', j' + 1)); [unfold adjacent4; simpl; auto | by apply Hs4].
Qed.

(** *** The recursion of [visit] ends *)

Lemma elem_of_allIndices fs k :
  k ∈ allIndices fs ↔ 0 ≤ k < fieldsWidth fs * fieldsHeight fs.
Proof. unfold allIndices. rewrite elem_of_list_to_set, elem_of_seqZ. lia. Qed.

Lemma size_allIndices fs :
  size (allIndices fs) = Z.to_nat (fieldsWidth fs * fieldsHeight fs).
Proof.
  unfold allIndices. rewrite size_list_to_set by apply NoDup_seqZ.
  apply length_seqZ.
Qed.

(** Fuel beyond the number of cells not yet visited is enough. *)
Lemma visit_enough_fuel fuel : ∀ i j V st ch,
  V ⊆ allIndices (fields st) →
  (size (allIndices (fields st)) - size V < fuel)%nat →
  ∃ s', visit fuel i j (V, st, ch) = Some s' ∧ s'.1.1 ⊆ allIndices (fields st).
Proof.
  induction fuel as [|fuel IH]; intros i j V st ch Hsub Hfuel; [lia|].
  simpl.
  destruct (decide (i < 0 ∨ _ ≤ i ∨ j < 0 ∨ _ ≤ j)) as [Hout|Hin]; [by eexists|].
  destruct (decide (_ ∈ V)) as [Hseen|Hnew]; [by eexists|].
  set (idx := j * fieldsWidth (fields st) + i) in *.
  assert (idx ∈ allIndices (fields st)) as Hidx.
  { apply elem_of_allIndices. unfold idx. nia. }
  pose proof (revealField_fields st ch (Z.to_nat idx)) as Hfs.
  destruct (revealField st ch (Z.to_nat idx)) as [[r st1] ch1]. simpl in Hfs.
  rewrite Hfs.
  assert ({[idx]} ∪ V ⊆ allIndices (fields st)) as Hsub1 by set_solver.
  destruct (decide (getField (fields st) i j ≠ Some 0)); [by eexists|].
  assert (size ({[idx]} ∪ V) = S (size V)) as Hsize.
  { rewrite size_union by set_solver. by rewrite size_singleton. }
  pose proof (subseteq_size _ _ Hsub1) as Hle.
  assert (∀ i' j' V' st' ch',
    {[idx]} ∪ V ⊆ V' → V' ⊆ allIndices (fields st) → fields st' = fields st →
    ∃ s', visit fuel i' j' (V', st', ch') = Some s' ∧
          s'.1.1 ⊆ allIndices (fields st) ∧ {[idx]} ∪ V ⊆ s'.1.1 ∧
          fields s'.1.2 = fields st) as Hcall.
  { intros i' j' V' st' ch' Hmono Hsub' Hfs'.
    destruct (IH i' j' V' st' ch') as (s' & Hv & Hs').
    - by rewrite Hfs'.
    - rewrite Hfs'. pose proof (subseteq_size _ _ Hmono). lia.
    - exists s'. rewrite Hfs' in Hs'. split_and!; [done..| |].
      + apply visit_frame in Hv as (HV & _). simpl in HV. set_solver.
      + apply visit_frame, visitFrame_fields in Hv. simpl in Hv. congruence. }
  destruct (Hcall (i - 1) j ({[idx]} ∪ V) st1 ch1)
    as ([[V2 st2] ch2] & -> & ? & ? & ?); [done..|].
  simpl in *.
  destruct (Hcall (i + 1) j V2 st2 ch2) as ([[V3 st3] ch3] & -> & ? & ? & ?); [done..|].
  simpl in *.
  destruct (Hcall i (j - 1) V3 st3 ch3) as ([[V4 st4] ch4] & -> & ? & ? & ?); [done..|].
  simpl in *.
  destruct (Hcall i (j + 1) V4 st4 ch4) as (s5 & -> & ? & ? & ?); [done..|].
  by exists s5.
Qed.

(** More fuel does not change the result. *)
Lemma visit_fuel_mono fuel : ∀ fuel' i j s s',
  (fuel ≤ fuel')%nat → visit fuel i j s = Some s' → visit fuel' i j s = Some s'.
Proof.
  induction fuel as [|fuel IH]; intros fuel' i j [[V st] ch] s' Hle Hv; [done|].
  destruct fuel' as [|fuel']; [lia|]. simpl in *.
  destruct (decide (i < 0 ∨ _ ≤ i ∨ j < 0 ∨ _ ≤ j)); [done|].
  destruct (decide (_ ∈ V)); [done|].
  destruct (revealField st ch _) as [[r st1] ch1].
  destruct (decide (getField (fields st1) i j ≠ Some 0)); [done|].
  destruct (visit fuel (i - 1) j _) as [s2|] eqn:H2; [|done]. simpl in Hv.
  rewrite (IH fuel' _ _ _ _ ltac:(lia) H2). simpl.
  destruct (visit fuel (i + 1) j _) as [s3|] eqn:H3; [|done]. simpl in Hv.
  rewrite (IH fuel' _ _ _ _ ltac:(lia) H3). simpl.
  destruct (visit fuel i (j - 1) _) as [s4|] eqn:H4; [|done]. simpl in Hv.
  rewrite (IH fuel' _ _ _ _ ltac:(lia) H4). simpl.
  apply IH; [lia | done].
Qed.

Lemma revealEmptyArea_visit children st x y :
  ∃ V' st' children',
    visit (visitFuel st) x y (∅, st, children) = Some (V', st', children') ∧
    revealEmptyArea children st x y = (st', children') ∧
    V' ⊆ allIndices (fields st).
Proof.
  destruct (visit_enough_fuel (visitFuel st) x y ∅ st children) as ([[V' st'] ch'] & Hv & Hsub).
  - set_solver.
  - rewrite size_allIndices, size_empty. unfold visitFuel. lia.
  - exists V', st', ch'. unfold revealEmptyArea. rewrite Hv. done.
Qed.

(** The cascade from [(x, y)]: it reveals the buttons of the cells the fill
    reaches and no other, and takes from [fieldsLeft] the number of cells it
    newly reveals that are not mines. *)
Lemma revealEmptyArea_spec children st x y :
  inBounds (fields st) (x, y) →
  ∃ V' st',
    revealEmptyArea children st x y = (st', revealSet (fields st) V' children) ∧
    st' = setFieldsLeft (fieldsLeft st') st ∧
    fieldsLeft st' + revealedSafe (fields st) (revealSet (fields st) V' children) =
      fieldsLeft st + revealedSafe (fields st) children ∧
    (∀ k, k ∈ V' → ∃ c, k = cellIndex (fields st) c ∧ flood (fields st) (x, y) c) ∧
    (∀ c, flood (fields st) (x, y) c → cellIndex (fields st) c ∈ V').
Proof.
  intros Hxy.
  destruct (revealEmptyArea_visit children st x y) as (V' & st' & ch' & Hv & Hr & Hsub).
  pose proof (visit_frame _ _ _ _ _ Hv) as (_ & Hst & Hch).
  pose proof (visit_potential _ _ _ _ _ Hv) as [_ Hpot].
  pose proof (visit_closed _ _ _ _ _ Hv) as [Hmem Hclosed].
  pose proof (visit_sound _ _ _ _ _ Hv) as Hsound.
  simpl in *. rewrite difference_empty_L in Hch. subst ch'.
  exists V', st'. split_and!; try done.
  - intros k Hk. apply Hsound; [done | set_solver].
  - intros c [_ Hrtc].
    assert (∀ a c, inBounds (fields st) a → cellIndex (fields st) a ∈ V' →
                   rtc (floodStep (fields st)) a c → cellIndex (fields st) c ∈ V') as Haux.
    { intros a c' Ha Hin Hac. induction Hac as [|a b c' Hab _ IH]; [done|].
      apply IH.
      - by destruct Hab as (_ & _ & ?).
      - apply (Hclosed a b); [done | done | set_solver | done]. }
    apply (Haux (x, y)); [done | by apply Hmem | done].
Qed.

(** ** [gameOver] *)

Lemma revealIfMine_eq st children k :
  revealIfMine (st, children) k =
  (st, imap (λ k' bt, if decide (k' = k) then mineReveal (fields st) bt else bt) children).
Proof.
  unfold revealIfMine.
  assert (∀ f : Button → Button,
    (∀ bt, children !! k = Some bt → f bt = bt) →
    children = imap (λ k' bt, if decide (k' = k) then f bt else bt) children) as Hid.
  { intros f Hf. apply list_eq. intros k'. rewrite list_lookup_imap.
    destruct (children !! k') as [bt|] eqn:Hk'; [|done]. simpl.
    case_decide; [|done]. subst. by rewrite Hf. }
  destruct (children !! k) as [bt|] eqn:Hk.
  - destruct (getField _ _ _) as [v|] eqn:Hv.
    + destruct (decide (v = -1)) as [->|Hne].
      * pose proof (revealField_lookup st children k) as Hlook.
        rewrite revealField_eq, Hk, Hv in *. simpl in *.
        assert (fieldsLeft st - (if disabled bt then 0 else 0) = fieldsLeft st) as ->
          by (destruct (disabled bt); lia).
        rewrite setFieldsLeft_id. f_equal. apply list_eq. intros k'.
        rewrite Hlook, list_lookup_imap.
        destruct (decide (k = k')) as [<-|?].
        -- rewrite Hk. simpl. rewrite decide_True by done.
           unfold mineReveal. by rewrite decide_True.
        -- destruct (children !! k'); [|done]. simpl. by rewrite decide_False.
      * f_equal. apply Hid. intros bt' [= <-]. unfold mineReveal.
        rewrite decide_False; [done | congruence].
    + f_equal. apply Hid. intros bt' [= <-]. unfold mineReveal.
      rewrite decide_False; [done | congruence].
  - f_equal. apply Hid. intros bt' [=].
Qed.

Lemma gameOver_loop st children n :
  foldl revealIfMine (st, children) (seq 0 n) =
  (st, imap (λ k bt, if decide (k < n)%nat then mineReveal (fields st) bt else bt) children).
Proof.
  induction n as [|n IH].
  - simpl. f_equal. apply list_eq. intros k. rewrite list_lookup_imap.
    by destruct (children !! k).
  - rewrite seq_S, foldl_app, IH. cbn [foldl]. rewrite revealIfMine_eq. f_equal.
    apply list_eq. intros k. rewrite !list_lookup_imap.
    destruct (children !! k) as [bt|] eqn:Hk; [|done]. simpl. f_equal.
    destruct (decide (k = n)) as [->|Hne].
    + rewrite decide_False by lia. by rewrite decide_True by lia.
    + destruct (decide (k < n)%nat).
      * by rewrite decide_True by lia.
      * by rewrite decide_False by lia.
Qed.

Lemma gameOver_eq view st :
  gameOver view st =
  (setIsGameOver true st, mkView (restart view) (mineReveal (fields st) <$> grid view)).
Proof.
  unfold gameOver. rewrite gameOver_loop. simpl. do 2 f_equal.
  apply list_eq. intros k. rewrite list_lookup_imap, list_lookup_fmap.
  destruct (grid view !! k) as [bt|] eqn:Hk; [|done]. simpl.
  apply lookup_lt_Some in Hk. by rewrite decide_True.
Qed.

(** ** [handleFieldReveal], case by case *)

Lemma handleFieldReveal_eq view st k bt :
  grid view !! k = Some bt →
  handleFieldReveal view st k =
  if flagged bt then (st, view) else winCheck (revealSwitch view st k bt).
Proof.
  intros Hk. unfold handleFieldReveal, revealSwitch, winCheck. rewrite Hk.
  destruct (flagged bt); [done|].
  destruct (getField _ _ _) as [v|] eqn:Hv; [|done].
  destruct (decide (v = -1)) as [->|Hv1].
  - rewrite revealField_eq, Hk, Hv.
    destruct (disabled bt) eqn:Hd; simpl.
    + unfold revealButton. rewrite Hd, list_insert_id, Z.sub_0_r, setFieldsLeft_id by done.
      by destruct view.
    + rewrite Z.sub_0_r, setFieldsLeft_id.
      rewrite list_lookup_insert_eq by (by eapply lookup_lt_Some).
      rewrite list_insert_insert_eq.
      by destruct (gameOver _ st).
  - destruct (decide (v = 0)) as [->|Hv0].
    + by destruct (revealEmptyArea _ _ _ _).
    + by destruct (revealField _ _ _) as [[? ?] ?].
Qed.

Lemma mousedown_eq event st view :
  mousedown event (st, view) =
  if isGameOver st then (st, view) else
  match target event with
  | None => (st, view)
  | Some k =>
      match grid view !! k with
      | None => (st, view)
      | Some bt =>
          if decide (button event = 2) then
            if disabled bt then (ensureTimerStarted st, view)
            else (setMinesLeft (minesLeft (ensureTimerStarted st) +
                                (if negb (flagged bt) then -1 else 1))
                    (ensureTimerStarted st),
                  mkView (restart view) (<[k := setFlagged (negb (flagged bt)) bt]> (grid view)))
          else if flagged bt then (ensureTimerStarted st, view)
          else winCheck (revealSwitch view (ensureTimerStarted st) k bt)
      end
  end.
Proof.
  unfold mousedown. destruct (isGameOver st); [done|].
  destruct (target event) as [k|]; [|done].
  destruct (grid view !! k) as [bt|] eqn:Hk; [|done].
  destruct (decide (button event = 2)).
  - unfold handleFieldFlag. by rewrite Hk.
  - by rewrite (handleFieldReveal_eq _ _ _ bt).
Qed.

(** ** How an event changes the buttons and the counters *)

Lemma buttonStep_refl bt : buttonStep bt bt.
Proof. unfold buttonStep. split_and!; [done..|congruence]. Qed.

Lemma buttonStep_trans bt1 bt2 bt3 :
  buttonStep bt1 bt2 → buttonStep bt2 bt3 → buttonStep bt1 bt3.
Proof.
  intros (Hx1 & Hy1 & Hd1 & Hf1) (Hx2 & Hy2 & Hd2 & Hf2). split_and!; try congruence.
  - intros Hd. rewrite Hd1 in * by done. by apply Hd2.
  - intros Hd Hd3. destruct (disabled bt2) eqn:Hd'.
    + rewrite (Hd2 eq_refl). by apply Hf1.
    + by apply Hf2.
Qed.

Lemma buttonStep_revealOn fs bt : buttonStep bt (revealOn fs bt).
Proof.
  destruct (revealOn_data fs bt). split_and!; try done.
  - apply revealOn_disabled.
  - apply revealOn_flagged.
Qed.

Lemma imap_lookup_eq (f : nat → Button → Button) children children' :
  (∀ k, children' !! k = f k <$> children !! k) → children' = imap f children.
Proof. intros Hl. apply list_eq. intros k. by rewrite list_lookup_imap. Qed.

Lemma Forall2_imap (f : nat → Button → Button) children :
  (∀ k bt, children !! k = Some bt → buttonStep bt (f k bt)) →
  Forall2 buttonStep children (imap f children).
Proof.
  intros Hf. apply Forall2_same_length_lookup_2; [by rewrite length_imap|].
  intros k bt bt' Hk. rewrite list_lookup_imap, Hk. intros [= <-]. by apply Hf.
Qed.

Lemma revealedSafe_imap fs (f : nat → Button → Button) children :
  (∀ k bt, children !! k = Some bt → safeRevealed fs (f k bt) = safeRevealed fs bt) →
  revealedSafe fs (imap f children) = revealedSafe fs children.
Proof.
  revert f. induction children as [|bt children IH]; intros f Hf; [done|].
  simpl. rewrite (Hf 0%nat bt) by done. rewrite IH; [done|].
  intros k bt' Hk. by apply (Hf (S k)).
Qed.

Lemma evolves_refl w : evolves w w.
Proof.
  unfold evolves. split_and!; try done. apply Forall_Forall2_diag, Forall_forall.
  intros. apply buttonStep_refl.
Qed.

Lemma evolves_trans w1 w2 w3 : evolves w1 w2 → evolves w2 w3 → evolves w1 w3.
Proof.
  intros (Hf1 & Hm1 & Hb1 & Hp1 & Ht1) (Hf2 & Hm2 & Hb2 & Hp2 & Ht2).
  rewrite Hf1 in Hf2, Hp2. unfold evolves. split_and!; [congruence..| |lia|auto].
  eapply Forall2_trans; [|done..]. apply buttonStep_trans.
Qed.

(** The buttons are replaced by [f k] applied to the [k]-th button, a step
    that leaves the count of revealed safe cells alone; the state stays. *)
Lemma evolves_buttons (f : nat → Button → Button) st view r :
  (∀ k bt, grid view !! k = Some bt →
           buttonStep bt (f k bt) ∧
           safeRevealed (fields st) (f k bt) = safeRevealed (fields st) bt) →
  evolves (st, view) (st, mkView r (imap f (grid view))).
Proof.
  intros Hf. unfold evolves. split_and!; simpl; try done.
  - apply Forall2_imap. intros. by apply Hf.
  - rewrite revealedSafe_imap; [done|]. intros. by apply Hf.
Qed.

Lemma evolves_revealSet st view r V fl :
  fl + revealedSafe (fields st) (revealSet (fields st) V (grid view)) =
    fieldsLeft st + revealedSafe (fields st) (grid view) →
  evolves (st, view) (setFieldsLeft fl st, mkView r (revealSet (fields st) V (grid view))).
Proof.
  intros Hp. unfold evolves. split_and!; simpl; try done.
  apply Forall2_imap. intros k bt _. case_decide; [apply buttonStep_revealOn|apply buttonStep_refl].
Qed.

Lemma evolves_revealField st view r k :
  evolves (st, view)
    ((revealField st (grid view) k).1.2, mkView r (revealField st (grid view) k).2).
Proof.
  pose proof (revealField_potential st (grid view) k) as Hp.
  rewrite revealField_state.
  assert ((revealField st (grid view) k).2 =
          revealSet (fields st) {[Z.of_nat k]} (grid view)) as Hch.
  { rewrite <-(Nat2Z.id k) at 1. apply revealField_revealSet. lia. }
  rewrite Hch in *. by apply evolves_revealSet.
Qed.

Lemma evolves_revealEmptyArea st view r x y :
  evolves (st, view)
    ((revealEmptyArea (grid view) st x y).1, mkView r (revealEmptyArea (grid view) st x y).2).
Proof.
  destruct (revealEmptyArea_visit (grid view) st x y) as (V' & st' & ch' & Hv & -> & _).
  pose proof (visit_frame _ _ _ _ _ Hv) as (_ & Hst & Hch).
  pose proof (visit_potential _ _ _ _ _ Hv) as [_ Hpot].
  simpl in *. rewrite Hst, Hch. apply evolves_revealSet. by rewrite <-Hch.
Qed.

Lemma safeRevealed_mine fs bt :
  getField fs (data_x bt) (data_y bt) = Some (-1) → safeRevealed fs bt = 0.
Proof. intros Hv. unfold safeRevealed. rewrite Hv. by destruct (disabled bt). Qed.

Lemma evolves_mineReveal st view r :
  evolves (st, view) (st, mkView r (mineReveal (fields st) <$> grid view)).
Proof.
  assert (mineReveal (fields st) <$> grid view =
          imap (λ _, mineReveal (fields st)) (grid view)) as ->.
  { apply imap_lookup_eq. intros k. by rewrite list_lookup_fmap. }
  apply evolves_buttons. intros k bt _. unfold mineReveal.
  case_decide as Hm; [|split; [apply buttonStep_refl | done]].
  split; [apply buttonStep_revealOn|].
  destruct (revealOn_data (fields st) bt) as [Hx Hy].
  rewrite !safeRevealed_mine; [done..|]. by rewrite Hx, Hy.
Qed.

Lemma evolves_gameOver st view view' :
  grid view' = grid view → evolves (st, view) (gameOver view' st).
Proof.
  intros Hg. rewrite gameOver_eq, Hg.
  pose proof (evolves_mineReveal st view (restart view')) as (? & ? & ? & ? & ?).
  unfold evolves. split_and!; done.
Qed.

Lemma insert_imap (children : list Button) k bt' :
  <[k := bt']> children = imap (λ k' bt, if decide (k' = k) then bt' else bt) children.
Proof.
  apply list_eq. intros k'. rewrite list_lookup_imap.
  destruct (decide (k' = k)) as [->|Hne].
  - destruct (children !! k) as [bt|] eqn:Hk; simpl.
    + rewrite list_lookup_insert_eq; [done|]. by eapply lookup_lt_Some.
    + rewrite list_insert_ge; [done|]. by apply lookup_ge_None.
  - rewrite list_lookup_insert_ne by done.
    by destruct (children !! k').
Qed.

Lemma evolves_insert st view r k bt bt' :
  grid view !! k = Some bt → buttonStep bt bt' →
  safeRevealed (fields st) bt' = safeRevealed (fields st) bt →
  evolves (st, view) (st, mkView r (<[k := bt']> (grid view))).
Proof.
  intros Hk Hstep Hsafe. rewrite insert_imap. apply evolves_buttons.
  intros k' b Hk'. case_decide as Heq; [|split; [apply buttonStep_refl | done]].
  subst. rewrite Hk in Hk'. by injection Hk' as <-.
Qed.

Lemma evolves_timer st view : evolves (st, view) (ensureTimerStarted st, view).
Proof.
  unfold ensureTimerStarted. destruct (timerInterval st); [apply evolves_refl|].
  pose proof (evolves_refl (st, view)) as (? & ? & ? & ? & ?).
  unfold evolves. by split_and!.
Qed.

Lemma evolves_winCheck w : evolves w (winCheck w).
Proof.
  unfold winCheck. case_decide; [|apply evolves_refl].
  destruct w as [st view]. by apply evolves_gameOver.
Qed.

Lemma evolves_revealSwitch view st k bt :
  grid view !! k = Some bt → evolves (st, view) (revealSwitch view st k bt).
Proof.
  intros Hk. unfold revealSwitch.
  destruct (getField _ _ _) as [v|] eqn:Hv; [|apply evolves_refl].
  destruct (decide (v = -1)) as [->|Hv1].
  - destruct (disabled bt) eqn:Hd; [apply evolves_refl|].
    eapply evolves_trans; [|by apply evolves_gameOver].
    apply (evolves_insert st view Lost k bt); [done| |].
    + unfold revealButton. rewrite Hd. simpl.
      split_and!; simpl; [done..|congruence|done].
    + rewrite !safeRevealed_mine; [done..|].
      unfold revealButton. by rewrite Hd.
  - destruct (decide (v = 0)) as [->|Hv0].
    + apply evolves_revealEmptyArea.
    + apply evolves_revealField.
Qed.

(** Every event leaves the board alone, changes the buttons by
    [buttonStep], and takes from [fieldsLeft] what it adds to the number of
    revealed cells that are not mines. *)
Lemma mousedown_evolves event w : evolves w (mousedown event w).
Proof.
  destruct w as [st view]. rewrite mousedown_eq.
  destruct (isGameOver st); [apply evolves_refl|].
  destruct (target event) as [k|]; [|apply evolves_refl].
  destruct (grid view !! k) as [bt|] eqn:Hk; [|apply evolves_refl].
  destruct (decide (button event = 2)).
  - destruct (disabled bt) eqn:Hd; [apply evolves_timer|].
    eapply evolves_trans; [apply evolves_timer|].
    eapply evolves_trans;
      [apply (evolves_insert _ view (restart view) k bt (setFlagged (negb (flagged bt)) bt))|].
    + done.
    + split_and!; simpl; [done..|congruence|congruence].
    + done.
    + pose proof (evolves_refl
        (ensureTimerStarted st,
         mkView (restart view) (<[k:=setFlagged (negb (flagged bt)) bt]> (grid view))))
        as (? & ? & ? & ? & ?).
      unfold evolves. by split_and!.
  - destruct (flagged bt); [apply evolves_timer|].
    eapply evolves_trans; [apply evolves_timer|].
    eapply evolves_trans; [by apply evolves_revealSwitch | apply evolves_winCheck].
Qed.

(** ** The buttons of a new game *)

Lemma foldl_snoc {A B} (g : B → A) (xs : list B) (s : list A) :
  foldl (λ s x, s ++ [g x]) s xs = s ++ (g <$> xs).
Proof.
  revert s. induction xs as [|x xs IH]; intros s; simpl.
  - by rewrite app_nil_r.
  - by rewrite IH, <-app_assoc.
Qed.

Lemma foldl_rows {A B} (g : B → B → A) (xs ys : list B) (s : list A) :
  foldl (λ s y, foldl (λ s x, s ++ [g x y]) s xs) s ys =
  s ++ (ys ≫= λ y, (λ x, g x y) <$> xs).
Proof.
  revert s. induction ys as [|y ys IH]; intros s; csimpl.
  - by rewrite app_nil_r.
  - by rewrite foldl_snoc, IH, <-app_assoc.
Qed.

Lemma length_rows {A} (g : Z → Z → A) (w : Z) (h : nat) :
  0 < w →
  length (seqZ 0 (Z.of_nat h) ≫= λ y, (λ x, g x y) <$> seqZ 0 w) = Z.to_nat (w * Z.of_nat h).
Proof.
  intros Hw. induction h as [|h IH]; [simpl; by rewrite Z.mul_0_r|].
  rewrite seqZ_S, bind_app, length_app, IH. csimpl.
  rewrite app_nil_r, length_fmap, length_seqZ. lia.
Qed.

(** The rows of a board laid out one after the other. *)
Lemma lookup_rows {A} (g : Z → Z → A) (w : Z) (h : nat) (k : nat) :
  0 < w → Z.of_nat k < w * Z.of_nat h →
  (seqZ 0 (Z.of_nat h) ≫= λ y, (λ x, g x y) <$> seqZ 0 w) !! k =
  Some (g (Z.of_nat k `mod` w) (Z.of_nat k `div` w)).
Proof.
  intros Hw. induction h as [|h IH]; intros Hk; [lia|].
  pose proof (length_rows g w h Hw) as Hlen.
  rewrite seqZ_S, bind_app.
  destruct (decide (Z.of_nat k < w * Z.of_nat h)) as [Hlt|Hge].
  - rewrite lookup_app_l by lia. by apply IH.
  - rewrite lookup_app_r by lia. rewrite Hlen. csimpl. rewrite app_nil_r.
    rewrite list_lookup_fmap, lookup_seqZ_lt by lia. simpl.
    assert (Z.of_nat k = Z.of_nat h * w + Z.of_nat (k - Z.to_nat (w * Z.of_nat h))) as Hk'
      by lia.
    assert (0 ≤ Z.of_nat (k - Z.to_nat (w * Z.of_nat h)) < w) as Hr by lia.
    destruct (coords_index w 1 Hw ltac:(lia) _ (Z.of_nat h) Hr) as [Hm Hd].
    rewrite <-Hk' in Hm, Hd. by rewrite Hm, Hd, !Z.add_0_l.
Qed.

Lemma createFieldButtons_grid st :
  grid (createFieldButtons (mkView NoClass []) st) =
  (seqZ 0 (fieldsHeight (fields st)) ≫= λ y,
     (λ x, mkButton x y false false false None) <$> seqZ 0 (fieldsWidth (fields st))).
Proof.
  unfold createFieldButtons, forRange. simpl.
  rewrite (foldl_rows (λ x y, mkButton x y false false false None)). simpl.
  by rewrite !Z.sub_0_r, !Z.sub_add.
Qed.

Lemma createFieldButtons_wf st :
  0 < fieldsWidth (fields st) →
  wfGrid (fields st) (grid (createFieldButtons (mkView NoClass []) st)) ∧
  ∀ k bt, grid (createFieldButtons (mkView NoClass []) st) !! k = Some bt →
          disabled bt = false ∧ flagged bt = false.
Proof.
  intros Hw. rewrite createFieldButtons_grid.
  unfold fieldsHeight. set (h := length (fields st)).
  pose proof (length_rows (λ x y, mkButton x y false false false None) _ h Hw) as Hlen.
  assert (∀ k bt,
    (seqZ 0 (Z.of_nat h) ≫= λ y,
       (λ x, mkButton x y false false false None) <$> seqZ 0 (fieldsWidth (fields st))) !! k
      = Some bt →
    bt = mkButton (Z.of_nat k `mod` fieldsWidth (fields st))
                  (Z.of_nat k `div` fieldsWidth (fields st)) false false false None) as Hl.
  { intros k bt Hk. pose proof (lookup_lt_Some _ _ _ Hk) as Hlt. rewrite Hlen in Hlt.
    rewrite lookup_rows in Hk by lia. by injection Hk as <-. }
  split; [split|].
  - done.
  - intros k bt Hk. by rewrite (Hl k bt Hk).
  - intros k bt Hk. by rewrite (Hl k bt Hk).
Qed.

(** The loops of [initView] reach every button. *)
Section reset.
Context (w : Z) (Hw : 0 < w).

Local Abbreviation upd := (resetAt w).

Lemma lookup_reset_one x y children k :
  0 ≤ x < w → 0 ≤ y →
  upd x y children !! k =
  if decide (Z.of_nat k `mod` w = x ∧ Z.of_nat k `div` w = y)
  then resetButton <$> children !! k else children !! k.
Proof using Hw.
  intros Hx Hy. unfold resetAt, aget, aset.
  assert (0 ≤ y * w + x) as Hidx by nia.
  rewrite !decide_True by done.
  pose proof (coords_index w 1 Hw ltac:(lia) x y Hx) as [Hm Hd].
  destruct (decide (Z.of_nat k = y * w + x)) as [Hk|Hk].
  - rewrite decide_True by (by rewrite Hk).
    assert (Z.to_nat (y * w + x) = k) as -> by lia.
    destruct (children !! k) as [bt|] eqn:Hbt; [|by rewrite Hbt].
    rewrite decide_True by done.
    rewrite list_lookup_insert_eq; [done|]. by eapply lookup_lt_Some.
  - rewrite decide_False.
    + destruct (children !! Z.to_nat (y * w + x)); [|done].
      rewrite decide_True by done.
      rewrite list_lookup_insert_ne; [done | lia].
    + intros [Hm' Hd']. apply Hk.
      rewrite <-(index_of_coords w 1 Hw ltac:(lia) (Z.of_nat k)). by rewrite Hm', Hd'.
Qed.

Lemma lookup_reset_row xs y children k :
  NoDup xs → (∀ x, x ∈ xs → 0 ≤ x < w) → 0 ≤ y →
  foldl (λ s x, upd x y s) children xs !! k =
  if decide (Z.of_nat k `mod` w ∈ xs ∧ Z.of_nat k `div` w = y)
  then resetButton <$> children !! k else children !! k.
Proof using Hw.
  intros Hnd Hxs Hy. revert children.
  induction Hnd as [|x xs Hx Hnd IH]; intros children; cbn [foldl].
  - rewrite decide_False; [done|]. set_solver.
  - rewrite IH by set_solver. rewrite lookup_reset_one by set_solver.
    destruct (decide (Z.of_nat k `mod` w = x ∧ Z.of_nat k `div` w = y)) as [[<- <-]|Hne].
    + rewrite decide_False by naive_solver. rewrite decide_True; [done | set_solver].
    + destruct (decide (Z.of_nat k `mod` w ∈ xs ∧ Z.of_nat k `div` w = y)) as [[? ?]|Hn2].
      * rewrite decide_True; [done | set_solver].
      * rewrite decide_False; [done|]. rewrite elem_of_cons. naive_solver.
Qed.

Lemma lookup_reset_rows xs ys children k :
  NoDup xs → NoDup ys → (∀ x, x ∈ xs → 0 ≤ x < w) → (∀ y, y ∈ ys → 0 ≤ y) →
  foldl (λ s y, foldl (λ s x, upd x y s) s xs) children ys !! k =
  if decide (Z.of_nat k `mod` w ∈ xs ∧ Z.of_nat k `div` w ∈ ys)
  then resetButton <$> children !! k else children !! k.
Proof using Hw.
  intros Hxs Hnd Hin Hys. revert children.
  induction Hnd as [|y ys Hy Hnd IH]; intros children; cbn [foldl].
  - rewrite decide_False; [done|]. set_solver.
  - rewrite IH by set_solver. rewrite lookup_reset_row by set_solver.
    destruct (decide (Z.of_nat k `mod` w ∈ xs ∧ Z.of_nat k `div` w = y)) as [[? <-]|Hne].
    + rewrite decide_False by naive_solver. rewrite decide_True; [done | set_solver].
    + destruct (decide (Z.of_nat k `mod` w ∈ xs ∧ Z.of_nat k `div` w ∈ ys)) as [[? ?]|Hn2].
      * rewrite decide_True; [done | set_solver].
      * rewrite decide_False; [done|]. rewrite elem_of_cons. naive_solver.
Qed.
End reset.

Lemma resetButton_idemp bt : resetButton (resetButton bt) = resetButton bt.
Proof. done. Qed.

Lemma initView_grid view st :
  0 < fieldsWidth (fields st) →
  length (grid view) = Z.to_nat (fieldsWidth (fields st) * fieldsHeight (fields st)) →
  grid (initView view st) = resetButton <$> grid view.
Proof.
  intros Hw Hlen. unfold initView, forRange. simpl.
  apply list_eq. intros k.
  rewrite (lookup_reset_rows _ Hw);
    [|apply NoDup_seqZ|apply NoDup_seqZ|intros x; rewrite elem_of_seqZ; lia
     |intros y; rewrite elem_of_seqZ; lia].
  rewrite list_lookup_fmap.
  destruct (grid view !! k) as [bt|] eqn:Hk; [|by case_decide].
  apply lookup_lt_Some in Hk. rewrite decide_True; [done|].
  rewrite !elem_of_seqZ.
  assert (0 ≤ Z.of_nat k < fieldsWidth (fields st) * fieldsHeight (fields st)) as Hr by lia.
  assert (0 < fieldsHeight (fields st)) as Hh by nia.
  pose proof (index_coords _ _ Hw Hh (Z.of_nat k) Hr). lia.
Qed.

Lemma wfGrid_reset fs children : wfGrid fs children → wfGrid fs (resetButton <$> children).
Proof.
  intros [Hlen Hdata]. split; [by rewrite length_fmap|].
  intros k bt. rewrite list_lookup_fmap.
  destruct (children !! k) as [bt0|] eqn:Hk; [|done]. intros [= <-]. simpl.
  by apply Hdata.
Qed.

(** ** Buttons and cells *)

Section cells.
Context (fs : list (list Z)) (Hw : 0 < fieldsWidth fs).

Lemma wfGrid_lookup children k bt :
  wfGrid fs children → children !! k = Some bt →
  inBounds fs (data_x bt, data_y bt) ∧
  cellIndex fs (data_x bt, data_y bt) = Z.of_nat k.
Proof using Hw.
  intros [Hlen Hdata] Hk. destruct (Hdata k bt Hk) as [-> ->].
  apply lookup_lt_Some in Hk.
  assert (0 ≤ Z.of_nat k < fieldsWidth fs * fieldsHeight fs) as Hr by lia.
  assert (0 < fieldsHeight fs) as Hh by nia.
  split.
  - by apply index_coords.
  - unfold cellIndex. simpl. by apply index_of_coords with (h := fieldsHeight fs).
Qed.

Lemma wfGrid_cell children c :
  wfGrid fs children → inBounds fs c →
  ∃ bt, children !! Z.to_nat (cellIndex fs c) = Some bt ∧
        data_x bt = c.1 ∧ data_y bt = c.2.
Proof using Hw.
  intros Hwf Hc. pose proof (cellIndex_range fs c Hc) as Hr.
  destruct (lookup_lt_is_Some_2 children (Z.to_nat (cellIndex fs c))) as [bt Hbt].
  { destruct Hwf as [-> _]. lia. }
  exists bt. split; [done|].
  destruct (wfGrid_lookup _ _ _ Hwf Hbt) as [Hin Hidx].
  assert ((data_x bt, data_y bt) = c) as <-; [|done].
  apply (cellIndex_inj fs); [done..|]. lia.
Qed.

Lemma wfGrid_step children children' :
  Forall2 buttonStep children children' → wfGrid fs children → wfGrid fs children'.
Proof.
  intros Hstep [Hlen Hdata]. split.
  - by rewrite <-(Forall2_length _ _ _ Hstep).
  - intros k bt' Hk'.
    destruct (Forall2_lookup_r _ _ _ _ _ Hstep Hk') as (bt & Hk & Hx & Hy & _).
    rewrite Hx, Hy. by apply Hdata.
Qed.
End cells.

Lemma wfWorld_evolves w w' : evolves w w' → wfWorld w → wfWorld w'.
Proof.
  intros (Hfs & _ & Hstep & _) (Hw & Hh & Hr & Hg). unfold wfWorld.
  rewrite Hfs. split_and!; try done. by eapply wfGrid_step.
Qed.

(** ** Revealed cells of value 0 have revealed neighbours *)

Lemma disabledAt_step fs children children' c :
  Forall2 buttonStep children children' →
  disabledAt fs children c → disabledAt fs children' c.
Proof.
  intros Hstep (bt & Hk & Hd).
  destruct (Forall2_lookup_l _ _ _ _ _ Hstep Hk) as (bt' & Hk' & _ & _ & Hsame & _).
  exists bt'. split; [done|]. by rewrite (Hsame Hd).
Qed.

Lemma Forall2_revealSet fs V children :
  Forall2 buttonStep children (revealSet fs V children).
Proof.
  apply Forall2_imap. intros k bt _.
  case_decide; [apply buttonStep_revealOn | apply buttonStep_refl].
Qed.

Section closed.
Context (fs : list (list Z)).
Context (Hw : 0 < fieldsWidth fs) (Hh : 0 < fieldsHeight fs).
Context (Hrect : rect (fieldsWidth fs) (fieldsHeight fs) fs).

(** A step that only changes buttons over cells of another value than 0
    keeps the revealed cells closed. *)
Lemma closedRevealed_imap (f : nat → Button → Button) children :
  wfGrid fs children → closedRevealed fs children →
  (∀ k bt, children !! k = Some bt →
     buttonStep bt (f k bt) ∧
     (f k bt = bt ∨ getField fs (data_x bt) (data_y bt) ≠ Some 0)) →
  closedRevealed fs (imap f children).
Proof using Hw Hh Hrect.
  intros Hwf Hclosed Hf a b Ha Hab (bt' & Hk' & Hd').
  assert (Forall2 buttonStep children (imap f children)) as Hstep.
  { apply Forall2_imap. intros. by apply Hf. }
  rewrite list_lookup_imap in Hk'.
  destruct (wfGrid_cell fs Hw children a Hwf Ha) as (bt & Hk & Hx & Hy).
  rewrite Hk in Hk'. injection Hk' as <-.
  destruct (Hf _ _ Hk) as [_ [Heq|Hnz]].
  - rewrite Heq in Hd'. eapply disabledAt_step; [done|].
    apply (Hclosed a b Ha Hab). by exists bt.
  - exfalso. destruct Hab as (Hzero & _). apply Hnz. by rewrite Hx, Hy.
Qed.

(** The buttons of the cells the fill reaches from a revealed cell are
    all revealed already. *)
Lemma closedRevealed_flood children a c :
  closedRevealed fs children → flood fs a c →
  disabledAt fs children a → disabledAt fs children c.
Proof using Hw Hh Hrect.
  intros Hclosed [Ha Hrtc] Hd. induction Hrtc as [|a b c Hab _ IH]; [done|].
  apply IH.
  - by destruct Hab as (_ & _ & ?).
  - by apply (Hclosed a b).
Qed.

Lemma flood_step_r a b c : flood fs a b → floodStep fs b c → flood fs a c.
Proof using Hw Hh Hrect. intros [Ha Hrtc] Hbc. split; [done|]. by eapply rtc_r. Qed.

(** The cascade from [(x, y)] reveals the buttons of a set of indices:
    those of the cells the fill reaches. *)
Lemma revealEmptyArea_buttons children st x y :
  fields st = fs → wfGrid fs children → inBounds fs (x, y) →
  ∃ V' st',
    revealEmptyArea children st x y =
      (setFieldsLeft (fieldsLeft st') st, revealSet fs V' children) ∧
    fieldsLeft st' + revealedSafe fs (revealSet fs V' children) =
      fieldsLeft st + revealedSafe fs children ∧
    ∀ k bt, children !! k = Some bt →
      (Z.of_nat k ∈ V' ↔ flood fs (x, y) (data_x bt, data_y bt)).
Proof using Hw Hh Hrect.
  intros Hfs Hwf Hxy. subst fs.
  destruct (revealEmptyArea_spec children st x y Hxy)
    as (V' & st' & Hr & Hst & Hpot & Hsound & Hcomplete).
  exists V', st'. rewrite Hr, <-Hst. split_and!; [done..|].
  intros k bt Hk.
  destruct (wfGrid_lookup _ Hw _ _ _ Hwf Hk) as [Hin Hidx]. split.
  - intros HV. destruct (Hsound _ HV) as (c & Hc & Hfl). rewrite <-Hidx in Hc.
    apply cellIndex_inj in Hc as <-; [done..|]. by eapply flood_inBounds.
  - intros Hfl. rewrite <-Hidx. by apply Hcomplete.
Qed.

Lemma closedRevealed_cascade children st x y :
  fields st = fs → wfGrid fs children → closedRevealed fs children →
  inBounds fs (x, y) →
  closedRevealed fs (revealEmptyArea children st x y).2.
Proof using Hw Hh Hrect.
  intros Hfs Hwf Hclosed Hxy a b Ha Hab.
  destruct (revealEmptyArea_buttons children st x y Hfs Hwf Hxy)
    as (V' & st' & -> & _ & HV).
  simpl. intros (bt' & Hk' & Hd').
  destruct (wfGrid_cell fs Hw children a Hwf Ha) as (bt & Hk & Hx & Hy).
  assert (inBounds fs b) as Hb by (by destruct Hab as (_ & _ & ?)).
  destruct (wfGrid_cell fs Hw children b Hwf Hb) as (btb & Hkb & Hxb & Hyb).
  rewrite lookup_revealSet, Hk in Hk'. simpl in Hk'. injection Hk' as <-.
  destruct (decide (Z.of_nat (Z.to_nat (cellIndex fs a)) ∈ V')) as [Hin|Hout].
  - exists (revealOn fs btb). split.
    + rewrite lookup_revealSet, Hkb. simpl. rewrite decide_True; [done|].
      apply (HV _ _ Hkb). apply (HV _ _ Hk) in Hin.
      rewrite Hxb, Hyb, <-surjective_pairing.
      rewrite Hx, Hy, <-surjective_pairing in Hin.
      by apply (flood_step_r _ a).
    + apply revealOn_revealed. rewrite Hxb, Hyb.
      by apply (getField_is_Some _ _ fs b.1 b.2 Hrect).
  - eapply disabledAt_step; [apply Forall2_revealSet|].
    apply (Hclosed a b Ha Hab). by exists bt.
Qed.
End closed.

(** ** Reachable worlds *)

Lemma invariant_fresh w :
  wfWorld w → 0 ≤ minesCount w.1 → freshWorld w → invariant w.
Proof.
  intros Hwf Hc (Hover & Htimer & Hfresh). unfold invariant. split_and!; try done.
  - intros _ (k & bt & Hk & Hd). destruct (Hfresh k bt Hk). congruence.
  - intros a b _ _ (bt & Hk & Hd). destruct (Hfresh _ bt Hk). congruence.
  - intros _ k bt Hk. by destruct (Hfresh k bt Hk).
Qed.

Lemma fresh_reset st view :
  isGameOver st = false → timerInterval st = false →
  freshWorld (st, mkView NoClass (resetButton <$> grid view)).
Proof.
  intros Hover Htimer. split_and!; try done. simpl. intros k bt.
  rewrite list_lookup_fmap. destruct (grid view !! k); [|done]. by intros [= <-].
Qed.

Lemma initView_eq view st :
  0 < fieldsWidth (fields st) →
  length (grid view) = Z.to_nat (fieldsWidth (fields st) * fieldsHeight (fields st)) →
  initView view st = mkView NoClass (resetButton <$> grid view).
Proof.
  intros Hw Hlen. rewrite <-(initView_grid view st Hw Hlen). done.
Qed.

Lemma initGameState_fields random fuel width height count st :
  0 < width → 0 < height →
  initGameState random fuel width height count = Some st →
  minesCount st = count ∧ minesLeft st = count ∧ isGameOver st = false ∧
  fieldsLeft st = width * height - count ∧ timerInterval st = false.
Proof.
  intros Hw Hh (indices & _ & _ & ->)%initGameState_Some; done.
Qed.

Lemma startGame_fresh random fuel width height count w :
  0 < width → 0 < height → 0 ≤ count → (∀ k, unitInterval (random k)) →
  startGame random fuel width height count = Some w →
  wfWorld w ∧ freshWorld w ∧ minesCount w.1 = count ∧ restart w.2 = NoClass ∧
  fieldsLeft w.1 = width * height - count ∧ minesLeft w.1 = count ∧
  rect width height (fields w.1) ∧ countsOK (fields w.1) ∧ countMines (fields w.1) = count.
Proof.
  intros Hw Hh Hc Hrnd. unfold startGame.
  destruct (initGameState random fuel width height count) as [st|] eqn:Hinit; [|done].
  cbn [mbind option_bind]. intros [= <-].
  destruct (initGameState_board width height Hw Hh random fuel count st Hc Hrnd Hinit)
    as (Hrect & Hok & Hcount & _).
  destruct (initGameState_fields _ _ _ _ _ _ Hw Hh Hinit) as (? & ? & ? & ? & ?).
  pose proof (rect_width _ _ _ Hh Hrect) as Hfw.
  pose proof (rect_height _ _ _ Hrect) as Hfh.
  assert (0 < fieldsWidth (fields st)) as Hw' by lia.
  destruct (createFieldButtons_wf st Hw') as [Hwf Hpristine].
  rewrite initView_eq by (done || by destruct Hwf).
  cbn [fst snd restart]. split_and!; try done.
  - unfold wfWorld. cbn [fst snd grid]. rewrite Hfw, Hfh. split_and!; try done.
    by apply wfGrid_reset.
  - by apply fresh_reset.
Qed.

Lemma restartGame_fresh random fuel w w' :
  wfWorld w → 0 ≤ minesCount w.1 → (∀ k, unitInterval (random k)) →
  restartGame random fuel w = Some w' →
  wfWorld w' ∧ freshWorld w' ∧ minesCount w'.1 = minesCount w.1.
Proof.
  destruct w as [st view]. intros (Hw & Hh & Hrect & Hwf) Hc Hrnd. cbn [fst snd] in *.
  unfold restartGame.
  destruct (initGameState random fuel _ _ _) as [st'|] eqn:Hinit; [|done].
  cbn [mbind option_bind]. intros [= <-].
  destruct (initGameState_board _ _ Hw Hh random fuel _ st' Hc Hrnd Hinit)
    as (Hrect' & Hok & Hcount & _).
  destruct (initGameState_fields _ _ _ _ _ _ Hw Hh Hinit) as (? & ? & ? & ? & ?).
  pose proof (rect_width _ _ _ Hh Hrect') as Hfw.
  pose proof (rect_height _ _ _ Hrect') as Hfh.
  assert (wfGrid (fields st') (grid view)) as Hwf'.
  { unfold wfGrid. by rewrite Hfw, Hfh. }
  rewrite initView_eq by (lia || by destruct Hwf').
  cbn [fst snd]. split_and!; [|by apply fresh_reset|done].
  unfold wfWorld. cbn [fst snd grid]. rewrite Hfw, Hfh. split_and!; try done.
  by apply wfGrid_reset.
Qed.

Lemma ensureTimerStarted_timer st : timerInterval (ensureTimerStarted st) = true.
Proof. unfold ensureTimerStarted. by destruct (timerInterval st) eqn:Ht. Qed.

Lemma ensureTimerStarted_id st : timerInterval st = true → ensureTimerStarted st = st.
Proof. intros Ht. unfold ensureTimerStarted. by rewrite Ht. Qed.

(** An event that leaves the timer unset did nothing. *)
Lemma mousedown_timer event w :
  timerInterval (mousedown event w).1 = false → mousedown event w = w.
Proof.
  destruct w as [st view]. rewrite mousedown_eq.
  destruct (isGameOver st); [done|].
  destruct (target event) as [k|]; [|done].
  destruct (grid view !! k) as [bt|] eqn:Hk; [|done].
  pose proof (ensureTimerStarted_timer st) as Ht.
  destruct (decide (button event = 2)).
  - destruct (disabled bt); simpl; congruence.
  - destruct (flagged bt); simpl; [congruence|].
    pose proof (evolves_trans _ _ _
      (evolves_revealSwitch view (ensureTimerStarted st) k bt Hk)
      (evolves_winCheck _)) as (_ & _ & _ & _ & Hmono).
    simpl in Hmono. rewrite (Hmono Ht). done.
Qed.

Lemma winCheck_fieldsLeft w :
  isGameOver (winCheck w).1 = false → fieldsLeft (winCheck w).1 ≠ 0.
Proof.
  unfold winCheck. case_decide; [|done]. by rewrite gameOver_eq.
Qed.

Lemma closedRevealed_same_disabled fs children children' :
  (∀ k, disabled <$> children' !! k = disabled <$> children !! k) →
  closedRevealed fs children → closedRevealed fs children'.
Proof.
  intros Hsame Hclosed.
  assert (∀ c, disabledAt fs children c ↔ disabledAt fs children' c) as Hiff.
  { intros c. unfold disabledAt. specialize (Hsame (Z.to_nat (cellIndex fs c))).
    destruct (children !! _) as [bt|], (children' !! _) as [bt'|]; simplify_eq/=;
      naive_solver. }
  intros a b Ha Hab Hd. apply Hiff. apply (Hclosed a b Ha Hab). by apply Hiff.
Qed.

Lemma buttonStep_exploded v bt :
  disabled bt = false → buttonStep bt (setExploded true (revealButton v bt)).
Proof.
  intros Hd. unfold revealButton. rewrite Hd.
  unfold buttonStep. case_decide; simpl; split_and!; congruence.
Qed.

Section closed_events.
Context (st : GameState) (view : View).
Context (Hwf : wfWorld (st, view)).
Context (Hclosed : closedRevealed (fields st) (grid view)).

Lemma closedRevealed_mineReveal children :
  wfGrid (fields st) children → closedRevealed (fields st) children →
  closedRevealed (fields st) (mineReveal (fields st) <$> children).
Proof using Hwf.
  destruct Hwf as (Hw & Hh & Hrect & _). intros Hg Hc. simpl in *.
  assert (mineReveal (fields st) <$> children =
          imap (λ _, mineReveal (fields st)) children) as ->.
  { apply imap_lookup_eq. intros k. by rewrite list_lookup_fmap. }
  apply closedRevealed_imap; try done.
  intros k bt _. unfold mineReveal. case_decide as Hm.
  - split; [apply buttonStep_revealOn|]. right. congruence.
  - split; [apply buttonStep_refl|]. by left.
Qed.

Lemma closedRevealed_gameOver view' st' :
  fields st' = fields st →
  wfGrid (fields st) (grid view') → closedRevealed (fields st) (grid view') →
  closedRevealed (fields st) (grid (gameOver view' st').2).
Proof using Hwf.
  intros Hfs Hg Hc. rewrite gameOver_eq. simpl. rewrite Hfs.
  by apply closedRevealed_mineReveal.
Qed.

Lemma closedRevealed_revealSwitch k bt :
  grid view !! k = Some bt →
  closedRevealed (fields st) (grid (revealSwitch view st k bt).2).
Proof using Hwf Hclosed.
  destruct Hwf as (Hw & Hh & Hrect & Hg). simpl in *.
  intros Hk. unfold revealSwitch.
  destruct (getField _ _ _) as [v|] eqn:Hv; [|done].
  destruct (decide (v = -1)) as [->|Hv1].
  - destruct (disabled bt) eqn:Hd; [done|].
    pose proof (buttonStep_exploded (-1) bt Hd) as Hstep.
    assert (∀ k' b, grid view !! k' = Some b →
      buttonStep b (if decide (k' = k) then setExploded true (revealButton (-1) bt) else b) ∧
      ((if decide (k' = k) then setExploded true (revealButton (-1) bt) else b) = b ∨
       getField (fields st) (data_x b) (data_y b) ≠ Some 0)) as Hf.
    { intros k' b Hk'. case_decide as Heq; [|split; [apply buttonStep_refl | by left]].
      subst. rewrite Hk in Hk'. injection Hk' as <-. split; [done|]. right. congruence. }
    apply closedRevealed_gameOver; [done|..]; simpl; rewrite insert_imap.
    + eapply wfGrid_step; [|done]. apply Forall2_imap. intros. by apply Hf.
    + by apply closedRevealed_imap.
  - destruct (decide (v = 0)) as [->|Hv0]; simpl.
    + apply closedRevealed_cascade; try done.
      by destruct (wfGrid_lookup _ Hw _ _ _ Hg Hk).
    + rewrite <-(Nat2Z.id k) at 1. rewrite revealField_revealSet by lia.
      apply closedRevealed_imap; try done.
      intros k' b Hk'. case_decide as Hin; [|split; [apply buttonStep_refl | by left]].
      split; [apply buttonStep_revealOn|]. right.
      assert (k' = k) as -> by (apply elem_of_singleton in Hin; lia).
      rewrite Hk in Hk'. injection Hk' as <-. congruence.
Qed.
End closed_events.

Lemma closedRevealed_winCheck w :
  wfWorld w → closedRevealed (fields w.1) (grid w.2) →
  closedRevealed (fields (winCheck w).1) (grid (winCheck w).2).
Proof.
  destruct w as [st view]. intros Hwf Hclosed. unfold winCheck.
  case_decide; [|done]. simpl.
  assert (fields (gameOver (mkView Won (grid view)) st).1 = fields st) as ->
    by (by rewrite gameOver_eq).
  apply (closedRevealed_gameOver st view); try done. by destruct Hwf as (_ & _ & _ & ?).
Qed.

Lemma revealSwitch_fields view st k bt :
  fields (revealSwitch view st k bt).1 = fields st.
Proof.
  unfold revealSwitch. destruct (getField _ _ _) as [v|]; [|done].
  destruct (decide (v = -1)); [destruct (disabled bt); [done | by rewrite gameOver_eq]|].
  destruct (decide (v = 0)); simpl.
  - destruct (revealEmptyArea_visit (grid view) st (data_x bt) (data_y bt))
      as (V' & st' & ch' & Hv & -> & _).
    by apply visit_frame, visitFrame_fields in Hv.
  - apply revealField_fields.
Qed.

(** The invariant holds in every reachable world. *)
Lemma invariant_mousedown event w : invariant w → invariant (mousedown event w).
Proof.
  intros (Hwf & Hcount & Hleft & Hclosed & Htimer).
  pose proof (mousedown_evolves event w) as Hev.
  pose proof (wfWorld_evolves _ _ Hev Hwf) as Hwf'.
  unfold invariant. split_and!.
  - done.
  - destruct Hev as (_ & -> & _). done.
  - destruct w as [st view]. revert Hwf' Hev. rewrite mousedown_eq. intros Hwf' Hev.
    cbn [fst snd] in Hleft. clear Hwf' Hev.
    destruct (isGameOver st) eqn:Hover; [simpl; congruence|].
    destruct (target event) as [k|]; [|simpl; by rewrite Hover].
    destruct (grid view !! k) as [bt|] eqn:Hk; [|simpl; by rewrite Hover].
    assert (isGameOver (ensureTimerStarted st) = isGameOver st ∧
            fieldsLeft (ensureTimerStarted st) = fieldsLeft st) as [Ho Hf].
    { unfold ensureTimerStarted. by destruct (timerInterval st). }
    simpl in Hleft.
    destruct (decide (button event = 2)).
    + destruct (disabled bt) eqn:Hd; simpl.
      * rewrite Hf. intros _. by apply Hleft.
      * rewrite Hf. intros _ (k' & bt' & Hk' & Hd'). apply Hleft; [done|].
        destruct (decide (k' = k)) as [->|Hne].
        -- rewrite list_lookup_insert_eq in Hk' by (by eapply lookup_lt_Some).
           injection Hk' as <-. simpl in Hd'. congruence.
        -- rewrite list_lookup_insert_ne in Hk' by done. eauto.
    + destruct (flagged bt); simpl.
      * rewrite Hf. intros _. by apply Hleft.
      * intros Hnover _. by apply winCheck_fieldsLeft.
  - destruct w as [st view]. revert Hwf' Hev. rewrite mousedown_eq. intros Hwf' Hev.
    cbn [fst snd] in Hclosed. clear Hwf' Hev.
    destruct (isGameOver st) eqn:Hover; [done|].
    destruct (target event) as [k|]; [|done].
    destruct (grid view !! k) as [bt|] eqn:Hk; [|done].
    assert (fields (ensureTimerStarted st) = fields st) as Hfs.
    { unfold ensureTimerStarted. by destruct (timerInterval st). }
    assert (wfWorld (ensureTimerStarted st, view)) as Hwf1.
    { eapply wfWorld_evolves; [apply evolves_timer | done]. }
    destruct (decide (button event = 2)).
    + destruct (disabled bt) eqn:Hd; simpl; rewrite Hfs; [done|].
      eapply closedRevealed_same_disabled; [|done]. intros k'.
      destruct (decide (k' = k)) as [->|Hne].
      * rewrite list_lookup_insert_eq by (by eapply lookup_lt_Some). by rewrite Hk.
      * by rewrite list_lookup_insert_ne.
    + destruct (flagged bt); simpl; [by rewrite Hfs|].
      apply closedRevealed_winCheck.
      * eapply wfWorld_evolves; [by apply evolves_revealSwitch | done].
      * rewrite revealSwitch_fields. apply closedRevealed_revealSwitch; [done| |done].
        by rewrite Hfs.
  - intros Ht. pose proof (mousedown_timer event w Ht) as Heq.
    rewrite Heq in Ht |- *. by apply Htimer.
Qed.

Lemma reachable_invariant w : reachable w → invariant w.
Proof.
  induction 1 as [random fuel width height count w Hw Hh Hc Hrnd Hstart
                 |event w _ IH|random fuel w w' _ IH Hrnd Hrestart].
  - destruct (startGame_fresh _ _ _ _ _ _ Hw Hh (proj1 Hc) Hrnd Hstart)
      as (Hwf & Hfresh & Hcount & _).
    apply invariant_fresh; [done|lia|done].
  - by apply invariant_mousedown.
  - destruct IH as (Hwf & Hcount & _).
    destruct (restartGame_fresh _ _ _ _ Hwf Hcount Hrnd Hrestart) as (Hwf' & Hfresh & Hc').
    apply invariant_fresh; [done|lia|done].
Qed.

(** ** Revealing a revealed cell *)

Lemma revealSet_disabled fs V children :
  (∀ k bt, children !! k = Some bt → Z.of_nat k ∈ V → disabled bt = true) →
  revealSet fs V children = children.
Proof.
  intros Hd. apply list_eq. intros k. rewrite lookup_revealSet.
  destruct (children !! k) as [bt|] eqn:Hk; [|done]. simpl.
  case_decide; [|done]. by rewrite revealOn_disabled by eauto.
Qed.

Lemma revealSwitch_revealed view st k bt :
  wfWorld (st, view) → closedRevealed (fields st) (grid view) →
  grid view !! k = Some bt → disabled bt = true →
  revealSwitch view st k bt = (st, view).
Proof.
  intros (Hw & Hh & Hrect & Hg) Hclosed Hk Hd. simpl in *. unfold revealSwitch.
  destruct (getField _ _ _) as [v|] eqn:Hv; [|done].
  destruct (decide (v = -1)); [by rewrite Hd|].
  destruct (wfGrid_lookup _ Hw _ _ _ Hg Hk) as [Hin Hidx].
  destruct (decide (v = 0)) as [->|Hv0].
  - destruct (revealEmptyArea_buttons (fields st) Hw Hh Hrect (grid view) st
                (data_x bt) (data_y bt) eq_refl Hg Hin) as (V' & st' & -> & Hpot & HV).
    simpl.
    assert (revealSet (fields st) V' (grid view) = grid view) as Hsame.
    { apply revealSet_disabled. intros k' bt' Hk' Hin'.
      apply (HV _ _ Hk') in Hin'.
      destruct (wfGrid_lookup _ Hw _ _ _ Hg Hk') as [_ Hidx'].
      destruct (closedRevealed_flood (fields st) Hw Hh Hrect (grid view) _ _ Hclosed Hin')
        as (b & Hb & Hbd).
      - exists bt. split; [|done]. by rewrite Hidx, Nat2Z.id.
      - rewrite Hidx', Nat2Z.id, Hk' in Hb. by injection Hb as <-. }
    rewrite Hsame in *.
    assert (fieldsLeft st' = fieldsLeft st) as -> by lia.
    rewrite setFieldsLeft_id. by destruct view.
  - rewrite revealField_eq, Hk, Hv. simpl. unfold revealButton.
    rewrite Hd, list_insert_id, Z.sub_0_r, setFieldsLeft_id by done. by destruct view.
Qed.

Lemma mousedown_revealed event w k bt :
  invariant w → target event = Some k → button event ≠ 2 →
  grid w.2 !! k = Some bt → disabled bt = true →
  mousedown event w = w.
Proof.
  destruct w as [st view]. intros (Hwf & _ & Hleft & Hclosed & Htimer) Ht Hb Hk Hd.
  cbn [fst snd] in *. rewrite mousedown_eq, Ht, Hk.
  destruct (isGameOver st) eqn:Hover; [done|].
  rewrite decide_False by done.
  assert (timerInterval st = true) as Htm.
  { destruct (timerInterval st); [done|]. rewrite (Htimer eq_refl k bt Hk) in Hd. done. }
  rewrite (ensureTimerStarted_id st Htm).
  destruct (flagged bt); [done|].
  rewrite (revealSwitch_revealed view st k bt) by done.
  unfold winCheck. rewrite decide_False; [done|]. simpl. apply Hleft; eauto.
Qed.

(** ** Counting the cells an event reveals *)

Lemma newlySafe_step fs bt bt' :
  buttonStep bt bt' → newlySafe fs (bt, bt') = safeRevealed fs bt' - safeRevealed fs bt.
Proof.
  intros (Hx & Hy & Hsame & _). unfold newlySafe, safeRevealed. simpl.
  destruct (disabled bt) eqn:Hd.
  - rewrite (Hsame eq_refl), Hd. rewrite decide_False by naive_solver. lia.
  - rewrite Hx, Hy. destruct (disabled bt') eqn:Hd'.
    + destruct (decide (getField fs (data_x bt) (data_y bt) = Some (-1))).
      * rewrite decide_False by naive_solver. lia.
      * rewrite decide_True by naive_solver. lia.
    + rewrite decide_False by naive_solver. lia.
Qed.

Lemma newlyRevealedSafe_step fs before after :
  Forall2 buttonStep before after →
  newlyRevealedSafe fs before after = revealedSafe fs after - revealedSafe fs before.
Proof.
  unfold newlyRevealedSafe. induction 1 as [|bt bt' before after Hstep _ IH]; [done|].
  simpl. rewrite IH, (newlySafe_step fs bt bt' Hstep). lia.
Qed.

(** ** The region a cascade reveals *)

Lemma stateOf_Revealed bt : stateOf bt = Revealed ↔ disabled bt = true.
Proof. unfold stateOf. destruct (disabled bt), (flagged bt); naive_solver. Qed.

Lemma region_zero fs a c : region fs a c → getField fs c.1 c.2 = Some 0.
Proof.
  intros [Ha Hrtc]. induction Hrtc as [|a b c Hab _ IH]; [done|].
  apply IH. by destruct Hab.
Qed.

Section region.
Context (fs : list (list Z)).
Context (Hrect : rect (fieldsWidth fs) (fieldsHeight fs) fs).

Lemma getField_inBounds c v : getField fs c.1 c.2 = Some v → inBounds fs c.
Proof using Hrect. intros Hv. apply (getField_is_Some _ _ fs c.1 c.2 Hrect). eauto. Qed.

Lemma inBounds_getField c : inBounds fs c → is_Some (getField fs c.1 c.2).
Proof using Hrect. intros Hc. by apply (getField_is_Some _ _ fs c.1 c.2 Hrect). Qed.

Lemma region_flood a c : region fs a c → flood fs a c.
Proof using Hrect.
  intros [Ha Hrtc]. revert c Hrtc. apply rtc_ind_r.
  - split; [by eapply getField_inBounds | done].
  - intros b c Hab [Hadj Hc] Hfl. destruct Hfl as [Hin Hfl]. split; [done|].
    eapply rtc_r; [done|]. split_and!; [|done|by eapply getField_inBounds].
    by apply (region_zero fs a b).
Qed.

(** From a cell of value 0, the fill reaches the region and its border. *)
Lemma flood_cascadeSet a c :
  getField fs a.1 a.2 = Some 0 → flood fs a c ↔ cascadeSet fs a c.
Proof using Hrect.
  intros Ha. split.
  - intros [_ Hrtc]. revert c Hrtc. apply rtc_ind_r.
    + left. by split.
    + intros b c _ (Hb & Hadj & Hc) IH.
      assert (region fs a b) as Hreg.
      { destruct IH as [?|(r & v & _ & _ & Hv & Hnz)]; [done | congruence]. }
      destruct (inBounds_getField c Hc) as [v Hv].
      destruct (decide (v = 0)) as [->|Hnz].
      * left. destruct Hreg as [? Hrtc]. split; [done|]. eapply rtc_r; [done|]. by split.
      * right. by exists b, v.
  - intros [Hreg|(r & v & Hreg & Hadj & Hv & Hnz)]; [by apply region_flood|].
    destruct (region_flood a r Hreg) as [Hin Hfl]. split; [done|].
    eapply rtc_r; [done|]. split_and!; [|done|by eapply getField_inBounds].
    by apply (region_zero fs a r).
Qed.
End region.

(** On a board whose counts are right, the fill from a cell of value 0
    reaches no mine. *)
Lemma flood_no_mine fs a c :
  countsOK fs → getField fs a.1 a.2 = Some 0 → flood fs a c → ¬ isMine fs c.
Proof.
  intros Hok Ha [_ Hrtc]. revert c Hrtc. apply rtc_ind_r.
  - unfold isMine. congruence.
  - intros b c _ (Hb & Hadj & _) _ Hmine.
    pose proof (Hok b.1 b.2 0 Hb ltac:(lia)) as Hcount. unfold mineNeighbours in Hcount.
    assert (c ∈ filter (isMine fs) (neighbours8 b.1 b.2)) as Hin.
    { apply list_elem_of_filter. split; [done|]. apply elem_of_neighbours8.
      destruct b as [bx by'], c as [cx cy]. unfold adjacent4, near in *. simpl in *.
      destruct Hadj as [[= -> ->]|[[= -> ->]|[[= -> ->]|[= -> ->]]]];
        (split; [lia | intros [=]; lia]). }
    destruct (filter (isMine fs) (neighbours8 b.1 b.2)); [|simpl in Hcount; lia].
    by apply elem_of_nil in Hin.
Qed.

(** ** A reveal at a cell of value 0 *)

Lemma ensureTimerStarted_fields st : fields (ensureTimerStarted st) = fields st.
Proof. unfold ensureTimerStarted. by destruct (timerInterval st). Qed.

Lemma mousedown_reveal_zero st view k bt :
  wfWorld (st, view) → isGameOver st = false →
  grid view !! k = Some bt → flagged bt = false →
  getField (fields st) (data_x bt) (data_y bt) = Some 0 →
  ∃ V' fl,
    (∀ k' b, grid view !! k' = Some b →
       (Z.of_nat k' ∈ V' ↔ flood (fields st) (data_x bt, data_y bt) (data_x b, data_y b))) ∧
    mousedown (revealAt k) (st, view) =
    winCheck (setFieldsLeft fl (ensureTimerStarted st),
              mkView (restart view) (revealSet (fields st) V' (grid view))).
Proof.
  intros (Hw & Hh & Hrect & Hg) Hover Hk Hfl Hv. cbn [fst snd] in *.
  rewrite mousedown_eq, Hover. cbn [target revealAt button]. rewrite Hk, Hfl.
  rewrite decide_False by done.
  unfold revealSwitch. rewrite ensureTimerStarted_fields, Hv.
  rewrite decide_False by done. rewrite decide_True by done.
  destruct (wfGrid_lookup _ Hw _ _ _ Hg Hk) as [Hin _].
  destruct (revealEmptyArea_buttons (fields st) Hw Hh Hrect (grid view)
              (ensureTimerStarted st) (data_x bt) (data_y bt)
              (ensureTimerStarted_fields st) Hg Hin) as (V' & st' & -> & _ & HV).
  exists V', (fieldsLeft st'). split; [done|]. done.
Qed.

Lemma winCheck_grid w k :
  grid (winCheck w).2 !! k =
  (if decide (fieldsLeft w.1 = 0) then mineReveal (fields w.1) else id) <$> grid w.2 !! k.
Proof.
  unfold winCheck. case_decide.
  - rewrite gameOver_eq. simpl. by rewrite list_lookup_fmap.
  - by destruct (grid w.2 !! k).
Qed.

Lemma winCheck_fieldsLeft_eq w : fieldsLeft (winCheck w).1 = fieldsLeft w.1.
Proof. unfold winCheck. case_decide; [by rewrite gameOver_eq | done]. Qed.

Lemma winCheck_restart w :
  restart (winCheck w).2 = if decide (fieldsLeft w.1 = 0) then Won else restart w.2.
Proof. unfold winCheck. case_decide; [by rewrite gameOver_eq | done]. Qed.

Lemma mineReveal_disabled fs bt : disabled bt = true → mineReveal fs bt = bt.
Proof. intros Hd. unfold mineReveal. case_decide; [by apply revealOn_disabled | done]. Qed.

(** ** The generator does not depend on the fuel *)

Lemma drawIndices_fuel_mono random size count fuel : ∀ fuel' k indices result,
  (fuel ≤ fuel')%nat →
  drawIndices fuel random k size count indices = Some result →
  drawIndices fuel' random k size count indices = Some result.
Proof.
  induction fuel as [|fuel IH]; intros fuel' k indices result Hle Hd.
  - simpl in Hd. case_decide; [done|]. destruct fuel'; simpl; by rewrite decide_False.
  - destruct fuel' as [|fuel']; [lia|]. simpl in *.
    case_decide; [|done]. apply IH; [lia | done].
Qed.

Lemma initGameState_fuel_mono random fuel fuel' width height count st :
  (fuel ≤ fuel')%nat →
  initGameState random fuel width height count = Some st →
  initGameState random fuel' width height count = Some st.
Proof.
  intros Hle. unfold initGameState, insertMines. case_decide; [done|].
  destruct (drawIndices fuel _ _ _ _ _) as [indices|] eqn:Hd; [|done].
  by rewrite (drawIndices_fuel_mono _ _ _ _ _ _ _ _ Hle Hd).
Qed.

(** ** A fair source of random numbers *)

Lemma randomIndex_cyclic size k :
  0 < size → randomIndex (cyclic size k) size = Z.of_nat k `mod` size.
Proof.
  intros Hs. unfold randomIndex, cyclic, Qfloor, Qmult, inject_Z. simpl.
  rewrite Pos.mul_1_r, Z2Pos.id by done. by apply Z.div_mul, Z.neq_sym, Z.lt_neq.
Qed.

Lemma cyclic_unitInterval size k : 0 < size → unitInterval (cyclic size k).
Proof.
  intros Hs. pose proof (Z.mod_pos_bound (Z.of_nat k) size Hs).
  unfold unitInterval, cyclic, Qle, Qlt. simpl. rewrite Z2Pos.id by done. lia.
Qed.

Lemma cyclic_fair size : 0 < size → fair (cyclic size) size.
Proof.
  intros Hs i Hi. exists (Z.to_nat i).
  rewrite randomIndex_cyclic, Z2Nat.id by lia. apply Z.mod_small. lia.
Qed.

(** ** A reveal at a mine, a right click *)

(** Outside the board where every cell is a mine ([fieldsLeft] is 0 from the
    start), a reveal at a hidden mine ends the game as lost, reveals every
    mine and leaves [fieldsLeft] alone. *)
Lemma mine_reveal_loses st view k bt :
  isGameOver st = false → grid view !! k = Some bt →
  flagged bt = false → disabled bt = false →
  getField (fields st) (data_x bt) (data_y bt) = Some (-1) →
  fieldsLeft st ≠ 0 →
  let w' := mousedown (revealAt k) (st, view) in
  restart w'.2 = Lost ∧ isGameOver w'.1 = true ∧ fieldsLeft w'.1 = fieldsLeft st ∧
  ∀ k' bt', grid w'.2 !! k' = Some bt' →
    getField (fields st) (data_x bt') (data_y bt') = Some (-1) → disabled bt' = true.
Proof.
  intros Hover Hk Hfl Hd Hv Hleft. cbn zeta.
  rewrite mousedown_eq, Hover. cbn [target revealAt button]. rewrite Hk, Hfl.
  rewrite decide_False by done.
  unfold revealSwitch. rewrite ensureTimerStarted_fields, Hv, Hd.
  rewrite decide_True by done. rewrite gameOver_eq. unfold winCheck.
  assert (fieldsLeft (ensureTimerStarted st) = fieldsLeft st) as Hf.
  { unfold ensureTimerStarted. by destruct (timerInterval st). }
  cbn [fst snd]. rewrite decide_False by (simpl; by rewrite Hf).
  cbn [fst snd restart grid]. split_and!; [done|done|simpl; by rewrite Hf|].
  rewrite ensureTimerStarted_fields. intros k' bt'. rewrite list_lookup_fmap.
  destruct (_ !! k') as [b0|]; [|done]. intros [= <-].
  unfold mineReveal. case_decide as Hm.
  - intros _. apply revealOn_revealed. eauto.
  - done.
Qed.

Lemma mine_reveal_loses_witness :
  ∃ st view, startGame (λ _, 3 # 5) 1 5 1 1 = Some (st, view) ∧
    let w' := mousedown (revealAt 3) (st, view) in
    restart w'.2 = Lost ∧ isGameOver w'.1 = true ∧ fieldsLeft w'.1 = fieldsLeft st ∧
    ∀ k' bt', grid w'.2 !! k' = Some bt' →
      getField (fields st) (data_x bt') (data_y bt') = Some (-1) → disabled bt' = true.
Proof.
  do 2 eexists. split; [vm_compute; reflexivity|].
  apply (mine_reveal_loses _ _ 3%nat (mkButton 3 0 false false false None));
    [reflexivity..|discriminate].
Defined.

(** On a board where every cell is a mine, [fieldsLeft] is 0 from the
    start: there the check for a won game that ends [handleFieldReveal]
    fires after the reveal at a mine and records a won game over the lost
    one.  [main] never sets up such a board. *)
Lemma mine_reveal_on_full_board_reports_won :
  ∃ w, startGame (λ _, 0 # 1) 1 1 1 1 = Some w ∧
    isGameOver w.1 = false ∧
    (∃ bt, grid w.2 !! 0%nat = Some bt ∧ stateOf bt = Hidden ∧
           isMine (fields w.1) (data_x bt, data_y bt)) ∧
    restart (mousedown (revealAt 0) w).2 = Won.
Proof.
  eexists. split; [vm_compute; reflexivity|].
  split_and!; [reflexivity| |vm_compute; reflexivity].
  eexists. split_and!; reflexivity.
Qed.

(** A right click on a hidden cell toggles its flag and moves [minesLeft] by
    one, down when the flag is set and up when it is taken away. *)
Lemma flag_adjusts_minesLeft st view k bt :
  isGameOver st = false → grid view !! k = Some bt → disabled bt = false →
  let w' := mousedown (flagAt k) (st, view) in
  grid w'.2 = <[k := setFlagged (negb (flagged bt)) bt]> (grid view) ∧
  minesLeft w'.1 = minesLeft st + (if flagged bt then 1 else -1).
Proof.
  intros Hover Hk Hd. cbn zeta.
  rewrite mousedown_eq, Hover. cbn [target flagAt button]. rewrite Hk, Hd.
  rewrite decide_True by done. cbn [fst snd grid]. split; [done|].
  unfold ensureTimerStarted. by destruct (timerInterval st), (flagged bt).
Qed.

Lemma flag_adjusts_minesLeft_witness :
  ∃ st view, startGame (λ _, 3 # 5) 1 5 1 1 = Some (st, view) ∧
    let w' := mousedown (flagAt 3) (st, view) in
    grid w'.2 =
      <[3%nat := setFlagged (negb (flagged (mkButton 3 0 false false false None)))
                   (mkButton 3 0 false false false None)]> (grid view) ∧
    minesLeft w'.1 =
      minesLeft st + (if flagged (mkButton 3 0 false false false None) then 1 else -1).
Proof.
  do 2 eexists. split; [vm_compute; reflexivity|].
  apply (flag_adjusts_minesLeft _ _ 3%nat (mkButton 3 0 false false false None));
    reflexivity.
Defined.

(** A source of random numbers that always returns the same number never
    fills a set of two indices: the loop of [insertMines] runs on, whatever
    the fuel. *)
Lemma constant_source_never_ends fuel :
  initGameState (λ _, 0 # 1) fuel 3 1 2 = None.
Proof.
  assert (∀ fuel k, drawIndices fuel (λ _, 0 # 1) k 3 2 [0] = None) as Hloop.
  { clear fuel. induction fuel as [|fuel IH]; intros k; [done|].
    change (drawIndices (S fuel) (λ _, 0 # 1) k 3 2 [0])
      with (drawIndices fuel (λ _, 0 # 1) (S k) 3 2 [0]).
    apply IH. }
  unfold initGameState, insertMines. rewrite decide_False by lia.
  destruct fuel as [|fuel]; [done|].
  assert (drawIndices (S fuel) (λ _, 0 # 1) 0 (3 * 1) 2 [] = None) as Hdraw.
  { change (drawIndices fuel (λ _, 0 # 1) 1 3 2 [0] = None). apply Hloop. }
  cbn [fieldsLeft]. by rewrite Hdraw.
Qed.

(** * The functions one by one, and every game *)

(** ** The rejection-sampling loop of [insertMines] *)

(** As long as the draws stay within fewer values than mines are asked for,
    the loop goes on. *)
Lemma drawIndices_stuck random size count (values : list Z) :
  (∀ k, randomIndex (random k) size ∈ values) →
  Z.of_nat (length values) < count →
  ∀ fuel k indices,
    NoDup indices → (∀ i, i ∈ indices → i ∈ values) →
    drawIndices fuel random k size count indices = None.
Proof.
  intros Hval Hlen. induction fuel as [|fuel IH]; intros k indices Hnd Hsub.
  - simpl. rewrite decide_True; [done|].
    pose proof (submseteq_length _ _ (NoDup_submseteq _ _ Hnd Hsub)). lia.
  - simpl. rewrite decide_True.
    + apply IH; [by apply NoDup_setAdd|].
      intros i [->|Hi]%elem_of_setAdd; [apply Hval | by apply Hsub].
    + pose proof (submseteq_length _ _ (NoDup_submseteq _ _ Hnd Hsub)). lia.
Qed.

Lemma initGameState_stuck random fuel width height count :
  drawIndices fuel random 0 (width * height) count [] = None →
  initGameState random fuel width height count = None.
Proof.
  intros Hdraw. unfold initGameState, insertMines. case_decide; [done|].
  cbn [fieldsLeft]. by rewrite Hdraw.
Qed.

(** A source of random numbers whose draws give fewer distinct indices than
    mines are asked for keeps the loop of [insertMines] running for ever:
    however many draws [fuel] allows, the set of indices is not complete and
    [initGameState] has not returned. *)
Theorem few_indices_never_end random fuel width height count (values : list Z) :
  0 ≤ width →
  (∀ k, randomIndex (random k) (width * height) ∈ values) →
  Z.of_nat (length values) < count →
  drawIndices fuel random 0 (width * height) count [] = None ∧
  initGameState random fuel width height count = None.
Proof.
  intros _ Hval Hlen.
  assert (drawIndices fuel random 0 (width * height) count [] = None) as Hdraw.
  { apply (drawIndices_stuck random _ count values Hval Hlen); [apply NoDup_nil_2|].
    intros i Hi. by apply elem_of_nil in Hi. }
  split; [done | by apply initGameState_stuck].
Qed.

Lemma few_indices_never_end_witness :
  drawIndices 1000 (λ _, 1 # 2) 0 (3 * 2) 2 [] = None ∧
  initGameState (λ _, 1 # 2) 1000 3 2 2 = None.
Proof.
  apply (few_indices_never_end (λ _, 1 # 2) 1000 3 2 2 [3]).
  - lia.
  - intros _. vm_compute. left.
  - simpl. lia.
Defined.

(** More mines than cells: whatever [Math.random] returns and however many
    draws [fuel] allows, the loop of [insertMines] does not collect that
    many distinct indices, and [initGameState] does not return. *)
Theorem too_many_mines_never_end random fuel width height count :
  0 < width → 0 < height → width * height < count →
  (∀ k, unitInterval (random k)) →
  drawIndices fuel random 0 (width * height) count [] = None ∧
  initGameState random fuel width height count = None.
Proof.
  intros Hw Hh Hcount Hrnd.
  assert (drawIndices fuel random 0 (width * height) count [] = None) as Hdraw.
  { apply (drawIndices_stuck random _ count (seqZ 0 (width * height)));
      [|rewrite length_seqZ; lia|apply NoDup_nil_2|].
    - intros k. apply elem_of_seqZ.
      pose proof (randomIndex_range (random k) (width * height) (Hrnd k)). lia.
    - intros i Hi. by apply elem_of_nil in Hi. }
  split; [done | by apply initGameState_stuck].
Qed.

Lemma too_many_mines_never_end_witness :
  drawIndices 1000 (cyclic 4) 0 (2 * 2) 5 [] = None ∧
  initGameState (cyclic 4) 1000 2 2 5 = None.
Proof.
  apply (too_many_mines_never_end (cyclic 4) 1000 2 2 5); [lia..|].
  intros k. apply cyclic_unitInterval. lia.
Defined.

(** No mines asked for (or a negative number of them): [initGameState]
    draws no random number and returns the board of zeros; [fieldsLeft] is
    the number of cells minus the mine count as given. *)
Theorem no_mines_board random fuel width height count :
  0 ≤ width → 0 < height → count ≤ 0 →
  initGameState random fuel width height count =
  Some (mkState count count false (width * height - count)
          (replicate (Z.to_nat height) (replicate (Z.to_nat width) 0)) false).
Proof.
  intros Hw Hh Hcount. unfold initGameState, insertMines.
  rewrite decide_False by lia. cbn [fieldsLeft fields].
  assert (drawIndices fuel random 0 (width * height) count [] = Some []) as ->.
  { destruct fuel; simpl; by rewrite decide_False by lia. }
  cbn [mbind option_bind placeMines].
  destruct (Z.to_nat height) as [|n] eqn:Hn; [lia|]. done.
Qed.

Lemma no_mines_board_witness :
  initGameState (λ _, 0 # 1) 0 3 2 0 =
  Some (mkState 0 0 false (3 * 2 - 0)
          (replicate (Z.to_nat 2) (replicate (Z.to_nat 3) 0)) false).
Proof. apply (no_mines_board (λ _, 0 # 1) 0 3 2 0); lia. Defined.

(** ** Where the mines are *)

Section mines.
Context (w h : Z) (Hw : 0 < w) (Hh : 0 < h).

Lemma placeMines_mines indices : ∀ fs fs',
  rect w h fs → countsOK fs → NoDup indices →
  (∀ i, i ∈ indices → 0 ≤ i < w * h ∧ ¬ isMine fs (i `mod` w, i `div` w)) →
  placeMines indices fs = Some fs' →
  ∀ c, isMine fs' c ↔ isMine fs c ∨ ∃ i, i ∈ indices ∧ c = (i `mod` w, i `div` w).
Proof using Hw Hh.
  induction indices as [|i rest IH]; intros fs fs' Hr Hok Hnd Hin Hplace c.
  - simpl in Hplace. injection Hplace as <-. split; [by left|].
    intros [?|(i & Hi & _)]; [done | by apply elem_of_nil in Hi].
  - apply NoDup_cons in Hnd as [Hi Hnd].
    destruct (Hin i) as [Hrange Hfree]; [by left|].
    pose proof (index_coords w h Hw Hh i Hrange) as [? ?].
    simpl in Hplace. rewrite (placeMine_Some w h) in Hplace by done. simpl in Hplace.
    assert (∀ c, isMine fs' c ↔
              isMine (updateMineNeighbours (setField fs (i `mod` w) (i `div` w) (-1))
                        (i `mod` w) (i `div` w)) c ∨
              ∃ j, j ∈ rest ∧ c = (j `mod` w, j `div` w)) as Hrest.
    { apply IH; [by apply rect_placed|by apply (countsOK_placed w h)|done| |done].
      intros j Hj. destruct (Hin j) as [Hjr Hjfree]; [by right|].
      split; [done|]. rewrite (isMine_placed w h) by done.
      intros [?|[= Hm Hd]]; [done|].
      assert (j = i) as ->
        by (rewrite <-(index_of_coords w h Hw Hh j), <-(index_of_coords w h Hw Hh i);
            congruence).
      done. }
    rewrite Hrest.
    rewrite (isMine_placed w h) by done. split.
    + intros [[?| ->]|(j & Hj & ->)]; [by left| |].
      * right. exists i. split; [by left | done].
      * right. exists j. split; [by right | done].
    + intros [?|(j & [-> | Hj]%elem_of_cons & ->)]; [by left; left| |].
      * left. by right.
      * right. by exists j.
Qed.
End mines.

Lemma initGameState_mines random fuel width height count st :
  0 < width → 0 < height → 0 ≤ count → (∀ k, unitInterval (random k)) →
  initGameState random fuel width height count = Some st →
  ∃ indices,
    drawIndices fuel random 0 (width * height) count [] = Some indices ∧
    NoDup indices ∧ (∀ i, i ∈ indices → 0 ≤ i < width * height) ∧
    Z.of_nat (length indices) = count ∧
    ∀ x y, 0 ≤ x < width → 0 ≤ y < height →
      (getField (fields st) x y = Some (-1) ↔ y * width + x ∈ indices).
Proof.
  intros Hw Hh Hcount Hrnd Hinit.
  destruct (initGameState_Some width height Hw Hh random fuel count st Hinit)
    as (indices & Hdraw & Hplace & _).
  exists indices. split; [done|].
  destruct (drawIndices_spec random (width * height) count fuel 0 [] indices)
    as (Hnd & Hin & Hlen); [nia|done|apply NoDup_nil_2|set_solver|simpl; lia|done|].
  split_and!; [done..|]. intros x y Hx Hy.
  pose proof (placeMines_mines width height Hw Hh indices _ (fields st)
                (rect_zero width height Hw Hh) (countsOK_zero width height) Hnd) as Hm.
  specialize (Hm (λ i Hi, conj (Hin i Hi) (isMine_zero width height _)) Hplace (x, y)).
  unfold isMine at 1 in Hm. cbn [fst snd] in Hm. rewrite Hm.
  destruct (coords_index width height Hw Hh x y Hx) as [Hmod Hdiv].
  split.
  - intros [Hz|(i & Hi & [= -> ->])]; [by apply isMine_zero in Hz|].
    by rewrite (index_of_coords width height Hw Hh).
  - intros Hi. right. exists (y * width + x). by rewrite Hmod, Hdiv.
Qed.

(** The mines lie exactly on the cells whose index the loop of
    [insertMines] drew: the cell [(x, y)] holds [-1] if and only if
    [y * width + x] is among the [count] distinct indices drawn. *)
Theorem mines_at_drawn_indices random fuel width height count st :
  0 < width → 0 < height → 0 ≤ count → (∀ k, unitInterval (random k)) →
  initGameState random fuel width height count = Some st →
  ∃ indices,
    drawIndices fuel random 0 (width * height) count [] = Some indices ∧
    NoDup indices ∧ Z.of_nat (length indices) = count ∧
    ∀ x y, 0 ≤ x < width → 0 ≤ y < height →
      (getField (fields st) x y = Some (-1) ↔ y * width + x ∈ indices).
Proof.
  intros Hw Hh Hcount Hrnd Hinit.
  destruct (initGameState_mines random fuel width height count st Hw Hh Hcount Hrnd Hinit)
    as (indices & ? & ? & _ & ? & ?).
  by exists indices.
Qed.

Lemma mines_at_drawn_indices_witness :
  ∃ st, initGameState (cyclic 8) 5 4 2 2 = Some st ∧
  ∃ indices,
    drawIndices 5 (cyclic 8) 0 (4 * 2) 2 [] = Some indices ∧
    NoDup indices ∧ Z.of_nat (length indices) = 2 ∧
    ∀ x y, 0 ≤ x < 4 → 0 ≤ y < 2 →
      (getField (fields st) x y = Some (-1) ↔ y * 4 + x ∈ indices).
Proof.
  eexists. split; [vm_compute; reflexivity|].
  apply (mines_at_drawn_indices (cyclic 8) 5 4 2 2); [lia|lia|lia| |vm_compute; reflexivity].
  intros k. apply cyclic_unitInterval. lia.
Defined.

(** As many mines as cells: every cell of the returned board is a mine and
    [fieldsLeft] is 0 before the first click. *)
Theorem all_mines_board random fuel width height st :
  0 < width → 0 < height → (∀ k, unitInterval (random k)) →
  initGameState random fuel width height (width * height) = Some st →
  fieldsLeft st = 0 ∧
  ∀ x y, 0 ≤ x < width → 0 ≤ y < height → getField (fields st) x y = Some (-1).
Proof.
  intros Hw Hh Hrnd Hinit.
  assert (0 ≤ width * height) as Hsize by nia.
  destruct (initGameState_mines random fuel width height _ st Hw Hh Hsize Hrnd Hinit)
    as (indices & _ & Hnd & Hin & Hlen & Hmines).
  destruct (initGameState_fields random fuel width height _ st Hw Hh Hinit)
    as (_ & _ & _ & Hleft & _).
  split; [lia|]. intros x y Hx Hy. apply Hmines; [done..|].
  assert (indices ≡ₚ seqZ 0 (width * height)) as Hperm.
  { apply submseteq_length_Permutation.
    - apply NoDup_submseteq; [done|]. intros i Hi. apply elem_of_seqZ. apply Hin in Hi. lia.
    - rewrite length_seqZ. lia. }
  rewrite Hperm. apply elem_of_seqZ. nia.
Qed.

Lemma all_mines_board_witness :
  ∃ st, initGameState (cyclic 4) 4 2 2 (2 * 2) = Some st ∧
    fieldsLeft st = 0 ∧
    ∀ x y, 0 ≤ x < 2 → 0 ≤ y < 2 → getField (fields st) x y = Some (-1).
Proof.
  eexists. split; [vm_compute; reflexivity|].
  apply (all_mines_board (cyclic 4) 4 2 2); [lia|lia| |vm_compute; reflexivity].
  intros k. apply cyclic_unitInterval. lia.
Defined.

(** The counters of a new state agree with its board: [minesCount] and
    [minesLeft] are the number of mines on it, [fieldsLeft] is the number of
    its cells that are not mines; the game is not over and no timer runs. *)
Theorem initGameState_counters random fuel width height count st :
  0 < width → 0 < height → 0 ≤ count → (∀ k, unitInterval (random k)) →
  initGameState random fuel width height count = Some st →
  rect width height (fields st) ∧
  minesCount st = countMines (fields st) ∧ minesLeft st = countMines (fields st) ∧
  fieldsLeft st = width * height - countMines (fields st) ∧
  isGameOver st = false ∧ timerInterval st = false.
Proof.
  intros Hw Hh Hcount Hrnd Hinit.
  destruct (initGameState_board width height Hw Hh random fuel count st Hcount Hrnd Hinit)
    as (Hrect & _ & Hmines & Hst).
  rewrite Hmines. rewrite Hst. by cbn.
Qed.

Lemma initGameState_counters_witness :
  ∃ st, initGameState (cyclic 8) 5 4 2 2 = Some st ∧
  rect 4 2 (fields st) ∧
  minesCount st = countMines (fields st) ∧ minesLeft st = countMines (fields st) ∧
  fieldsLeft st = 4 * 2 - countMines (fields st) ∧
  isGameOver st = false ∧ timerInterval st = false.
Proof.
  eexists. split; [vm_compute; reflexivity|].
  apply (initGameState_counters (cyclic 8) 5 4 2 2); [lia|lia|lia| |vm_compute; reflexivity].
  intros k. apply cyclic_unitInterval. lia.
Defined.

(** ** [updateMineNeighbours], cell by cell *)

(** [updateMineNeighbours] adds one to every cell within one step of
    [(mineX, mineY)], diagonals and the cell itself included, that is not a
    mine; mines and all other cells keep their value, and so do the
    dimensions of the board.  Near an edge (or for a position off the
    board) the cells beyond the edge are simply not there. *)
Theorem updateMineNeighbours_cells width height fs mineX mineY :
  0 < height → rect width height fs →
  rect width height (updateMineNeighbours fs mineX mineY) ∧
  ∀ x y,
    getField (updateMineNeighbours fs mineX mineY) x y =
    match getField fs x y with
    | Some v =>
        Some (if decide (mineX - 1 ≤ x ≤ mineX + 1 ∧ mineY - 1 ≤ y ≤ mineY + 1 ∧ v ≠ -1)
              then v + 1 else v)
    | None => None
    end.
Proof.
  intros Hh Hrect. split; [by apply rect_updateMineNeighbours|].
  intros x y. rewrite (getField_updateMineNeighbours width height) by done.
  unfold near, bump. destruct (getField fs x y) as [v|]; [|by case_decide].
  cbn [fmap option_fmap option_map].
  repeat case_decide; try done; exfalso; naive_solver.
Qed.

Lemma updateMineNeighbours_cells_witness :
  rect 3 2 (updateMineNeighbours [[0; -1; 0]; [0; 0; 0]] 0 0) ∧
  ∀ x y,
    getField (updateMineNeighbours [[0; -1; 0]; [0; 0; 0]] 0 0) x y =
    match getField [[0; -1; 0]; [0; 0; 0]] x y with
    | Some v =>
        Some (if decide (0 - 1 ≤ x ≤ 0 + 1 ∧ 0 - 1 ≤ y ≤ 0 + 1 ∧ v ≠ -1)
              then v + 1 else v)
    | None => None
    end.
Proof.
  apply (updateMineNeighbours_cells 3 2); [lia|].
  split; [reflexivity | by repeat constructor].
Defined.

(** ** The buttons: [createFieldButtons], [initView], [restartGame] *)

Lemma createFieldButtons_app view st :
  grid (createFieldButtons view st) =
  grid view ++ grid (createFieldButtons (mkView NoClass []) st).
Proof. reflexivity. Qed.

(** [createFieldButtons] appends one button for every cell, row by row: the
    button of the cell [(x, y)] is the [(y * width + x)]-th new one, it
    carries [x] and [y] as its data and is neither disabled nor flagged.  The
    buttons that were in the grid stay where they are. *)
Theorem createFieldButtons_buttons view st :
  0 < fieldsWidth (fields st) →
  restart (createFieldButtons view st) = restart view ∧
  length (grid (createFieldButtons view st)) =
    (length (grid view) +
     Z.to_nat (fieldsWidth (fields st) * fieldsHeight (fields st)))%nat ∧
  (∀ k bt, grid view !! k = Some bt → grid (createFieldButtons view st) !! k = Some bt) ∧
  ∀ x y, 0 ≤ x < fieldsWidth (fields st) → 0 ≤ y < fieldsHeight (fields st) →
    grid (createFieldButtons view st)
      !! (length (grid view) + Z.to_nat (y * fieldsWidth (fields st) + x))%nat =
    Some (mkButton x y false false false None).
Proof.
  intros Hw. rewrite createFieldButtons_app, createFieldButtons_grid.
  unfold fieldsHeight. set (h := length (fields st)). set (w := fieldsWidth (fields st)) in *.
  pose proof (length_rows (λ x y, mkButton x y false false false None) w h Hw) as Hlen.
  split_and!.
  - done.
  - rewrite length_app, Hlen. lia.
  - intros k bt Hk. by apply lookup_app_l_Some.
  - intros x y Hx Hy. rewrite lookup_app_r by lia.
    replace (length (grid view) + Z.to_nat (y * w + x) - length (grid view))%nat
      with (Z.to_nat (y * w + x)) by lia.
    assert (0 < Z.of_nat h) as Hh by lia.
    pose proof (cell_index_range w (Z.of_nat h) Hw Hh x y Hx Hy) as Hr.
    rewrite lookup_rows by lia. rewrite Z2Nat.id by lia.
    by destruct (coords_index w (Z.of_nat h) Hw Hh x y Hx) as [-> ->].
Qed.

Lemma createFieldButtons_buttons_witness :
  restart (createFieldButtons (mkView Won [mkButton 7 7 true false false None])
             (mkState 1 1 false 3 [[0; 1]; [1; -1]] false)) = Won ∧
  length (grid (createFieldButtons (mkView Won [mkButton 7 7 true false false None])
                  (mkState 1 1 false 3 [[0; 1]; [1; -1]] false))) =
    (1 + Z.to_nat (2 * 2))%nat ∧
  (∀ k bt, [mkButton 7 7 true false false None] !! k = Some bt →
     grid (createFieldButtons (mkView Won [mkButton 7 7 true false false None])
             (mkState 1 1 false 3 [[0; 1]; [1; -1]] false)) !! k = Some bt) ∧
  ∀ x y, 0 ≤ x < 2 → 0 ≤ y < 2 →
    grid (createFieldButtons (mkView Won [mkButton 7 7 true false false None])
            (mkState 1 1 false 3 [[0; 1]; [1; -1]] false))
      !! (1 + Z.to_nat (y * 2 + x))%nat =
    Some (mkButton x y false false false None).
Proof.
  apply (createFieldButtons_buttons (mkView Won [mkButton 7 7 true false false None])
           (mkState 1 1 false 3 [[0; 1]; [1; -1]] false)).
  reflexivity.
Defined.

Lemma initView_lookup view st k :
  0 < fieldsWidth (fields st) →
  grid (initView view st) !! k =
  (λ bt, if decide (Z.of_nat k < fieldsWidth (fields st) * fieldsHeight (fields st))
         then resetButton bt else bt) <$> grid view !! k.
Proof.
  intros Hw. unfold initView, forRange. cbn [grid].
  rewrite (lookup_reset_rows _ Hw);
    [|apply NoDup_seqZ|apply NoDup_seqZ|intros x; rewrite elem_of_seqZ; lia
     |intros y; rewrite elem_of_seqZ; lia].
  assert (0 < fieldsHeight (fields st)) as Hh.
  { unfold fieldsWidth in Hw. unfold fieldsHeight. destruct (fields st); simpl in *; lia. }
  set (w := fieldsWidth (fields st)) in *. set (h := fieldsHeight (fields st)) in *.
  pose proof (Z.mod_pos_bound (Z.of_nat k) w Hw) as Hmod.
  pose proof (Z.div_pos (Z.of_nat k) w ltac:(lia) Hw) as Hdiv.
  destruct (decide (Z.of_nat k < w * h)) as [Hlt|Hge].
  - rewrite decide_True; [by destruct (grid view !! k)|].
    rewrite !elem_of_seqZ. split; [lia|].
    assert (Z.of_nat k `div` w < h); [|lia].
    apply Z.div_lt_upper_bound; lia.
  - rewrite decide_False; [by destruct (grid view !! k)|].
    rewrite !elem_of_seqZ. intros [_ Hd].
    assert (h ≤ Z.of_nat k `div` w); [|lia].
    apply Z.div_le_lower_bound; lia.
Qed.

(** [initView] takes the outcome off the restart element and resets the
    button of every cell: it is enabled again and loses its classes and its
    value; its coordinates stay.  It goes by the position of the buttons in
    the grid, so buttons beyond the cells of the board are left alone. *)
Theorem initView_resets view st :
  0 < fieldsWidth (fields st) →
  (Z.to_nat (fieldsWidth (fields st) * fieldsHeight (fields st)) ≤ length (grid view))%nat →
  restart (initView view st) = NoClass ∧
  length (grid (initView view st)) = length (grid view) ∧
  ∀ k bt, grid view !! k = Some bt →
    grid (initView view st) !! k =
    Some (if decide (Z.of_nat k < fieldsWidth (fields st) * fieldsHeight (fields st))
          then mkButton (data_x bt) (data_y bt) false false false None else bt).
Proof.
  intros Hw Hlen. split_and!.
  - done.
  - rewrite (imap_lookup_eq
               (λ k bt, if decide (Z.of_nat k < fieldsWidth (fields st) *
                                                 fieldsHeight (fields st))
                        then resetButton bt else bt) (grid view) (grid (initView view st))).
    + apply length_imap.
    + intros k. by apply initView_lookup.
  - intros k bt Hk. rewrite initView_lookup, Hk by done. simpl. by case_decide.
Qed.

Lemma initView_resets_witness :
  restart (initView (mkView Lost [mkButton 0 0 true false true (Some (-1));
                                  mkButton 1 0 false true false None;
                                  mkButton 5 5 true false false (Some 3)])
             (mkState 1 0 true 1 [[-1; 1]] true)) = NoClass ∧
  length (grid (initView (mkView Lost [mkButton 0 0 true false true (Some (-1));
                                       mkButton 1 0 false true false None;
                                       mkButton 5 5 true false false (Some 3)])
                  (mkState 1 0 true 1 [[-1; 1]] true))) = 3%nat ∧
  ∀ k bt, [mkButton 0 0 true false true (Some (-1)); mkButton 1 0 false true false None;
           mkButton 5 5 true false false (Some 3)] !! k = Some bt →
    grid (initView (mkView Lost [mkButton 0 0 true false true (Some (-1));
                                 mkButton 1 0 false true false None;
                                 mkButton 5 5 true false false (Some 3)])
            (mkState 1 0 true 1 [[-1; 1]] true)) !! k =
    Some (if decide (Z.of_nat k < 2 * 1)
          then mkButton (data_x bt) (data_y bt) false false false None else bt).
Proof.
  apply (initView_resets (mkView Lost [mkButton 0 0 true false true (Some (-1));
                                       mkButton 1 0 false true false None;
                                       mkButton 5 5 true false false (Some 3)])
           (mkState 1 0 true 1 [[-1; 1]] true)).
  - reflexivity.
  - vm_compute. lia.
Defined.

Lemma placeMines_keeps_rect w h indices : ∀ fs fs',
  rect w h fs → placeMines indices fs = Some fs' → rect w h fs'.
Proof.
  induction indices as [|i rest IH]; intros fs fs' Hr Hplace; simpl in Hplace.
  - by injection Hplace as <-.
  - destruct (placeMine fs i) as [fs1|] eqn:Hone; [|done]. simpl in Hplace.
    apply (IH fs1); [|done]. unfold placeMine in Hone.
    case_decide; [done|]. destruct (getField fs _ _); [|done]. injection Hone as <-.
    by apply rect_updateMineNeighbours, rect_setField.
Qed.

Lemma initGameState_rect random fuel width height count st :
  0 < width → 0 < height →
  initGameState random fuel width height count = Some st →
  rect width height (fields st).
Proof.
  intros Hw Hh (indices & _ & Hplace & _)%initGameState_Some; [|done..].
  eapply placeMines_keeps_rect; [|done]. by apply rect_zero.
Qed.

Lemma restartGame_startGame random fuel w :
  wfWorld w →
  restartGame random fuel w =
  startGame random fuel (fieldsWidth (fields w.1)) (fieldsHeight (fields w.1))
    (minesCount w.1).
Proof.
  destruct w as [st view]. intros (Hw & Hh & Hrect & Hwf). cbn [fst snd] in *.
  unfold restartGame, startGame.
  destruct (initGameState random fuel _ _ _) as [st'|] eqn:Hinit; [|done].
  cbn [mbind option_bind]. f_equal. f_equal.
  pose proof (initGameState_rect _ _ _ _ _ _ Hw Hh Hinit) as Hrect'.
  pose proof (rect_width _ _ _ Hh Hrect') as Hfw.
  pose proof (rect_height _ _ _ Hrect') as Hfh.
  assert (0 < fieldsWidth (fields st')) as Hw' by lia.
  assert (wfGrid (fields st') (grid view)) as Hwf1.
  { unfold wfGrid. by rewrite Hfw, Hfh. }
  destruct (createFieldButtons_wf st' Hw') as [Hwf2 _].
  rewrite !initView_eq by first [done | by destruct Hwf1 | by destruct Hwf2].
  f_equal. apply list_eq. intros k. rewrite !list_lookup_fmap.
  destruct Hwf1 as [Hlen1 Hdata1], Hwf2 as [Hlen2 Hdata2].
  destruct (grid view !! k) as [bt|] eqn:Hk.
  - destruct (lookup_lt_is_Some_2 (grid (createFieldButtons (mkView NoClass []) st')) k)
      as [bt' Hk'].
    { rewrite Hlen2, <-Hlen1. by eapply lookup_lt_Some. }
    rewrite Hk'. simpl. unfold resetButton.
    destruct (Hdata1 k bt Hk) as [-> ->], (Hdata2 k bt' Hk') as [-> ->]. done.
  - rewrite (lookup_ge_None_2 (grid (createFieldButtons (mkView NoClass []) st')) k); [done|].
    rewrite Hlen2, <-Hlen1. by apply lookup_ge_None.
Qed.

(** Restarting is starting anew: on a board with a button for every cell,
    [restartGame] gives the very world that [main] would set up for the
    same width, height and number of mines.  Nothing of the old game is
    left, whatever state it was in. *)
Theorem restart_is_fresh_start random fuel w :
  wfWorld w →
  restartGame random fuel w =
  startGame random fuel (fieldsWidth (fields w.1)) (fieldsHeight (fields w.1))
    (minesCount w.1).
Proof. apply restartGame_startGame. Qed.

Lemma restart_is_fresh_start_witness :
  restartGame (cyclic 4) 3
    (mkState 2 1 true 0 [[-1; 1]; [1; 1]] true,
     mkView Won [mkButton 0 0 true false false (Some (-1)); mkButton 1 0 true false false (Some 1);
                 mkButton 0 1 true false false (Some 1); mkButton 1 1 true false false (Some 1)])
  = startGame (cyclic 4) 3 2 2 2.
Proof.
  apply (restart_is_fresh_start (cyclic 4) 3
    (mkState 2 1 true 0 [[-1; 1]; [1; 1]] true,
     mkView Won [mkButton 0 0 true false false (Some (-1)); mkButton 1 0 true false false (Some 1);
                 mkButton 0 1 true false false (Some 1); mkButton 1 1 true false false (Some 1)])).
  unfold wfWorld, wfGrid. cbn [fst snd fields grid].
  split_and!; [reflexivity|reflexivity|split; [reflexivity | by repeat constructor]
              |reflexivity|].
  intros k bt Hk.
  do 4 (destruct k as [|k]; [injection Hk as <-; split; reflexivity|]). discriminate Hk.
Defined.

(** ** [revealField] and [gameOver] *)

(** [revealField] on a button that is not disabled returns [true], disables
    the button and takes its flag away, and takes one from [fieldsLeft]
    unless the cell is a mine; no other button changes.  On a disabled button
    it returns [false] and changes nothing: a second call for the same
    button is without effect. *)
Theorem revealField_twice st children k bt v :
  children !! k = Some bt →
  getField (fields st) (data_x bt) (data_y bt) = Some v →
  let r := revealField st children k in
  r.1.1 = negb (disabled bt) ∧
  fieldsLeft r.1.2 =
    fieldsLeft st - (if disabled bt then 0 else if decide (v = -1) then 0 else 1) ∧
  (disabled bt = true → r = (false, st, children)) ∧
  (∃ bt', r.2 !! k = Some bt' ∧ disabled bt' = true ∧
          (disabled bt = false → flagged bt' = false)) ∧
  (∀ k', k' ≠ k → r.2 !! k' = children !! k') ∧
  revealField r.1.2 r.2 k = (false, r.1.2, r.2).
Proof.
  intros Hk Hv. cbn zeta.
  assert (k < length children)%nat as Hlt by (by eapply lookup_lt_Some).
  rewrite (revealField_eq st children k), Hk, Hv. cbn [fst snd].
  split_and!.
  - done.
  - done.
  - intros Hd. unfold revealButton. rewrite Hd. cbn [negb].
    rewrite Z.sub_0_r, setFieldsLeft_id, list_insert_id by done. done.
  - exists (revealButton v bt). rewrite list_lookup_insert_eq by done.
    split; [done|]. unfold revealButton.
    destruct (disabled bt) eqn:Hd; [done|]. by case_decide.
  - intros k' Hne. by rewrite list_lookup_insert_ne.
  - rewrite revealField_eq, list_lookup_insert_eq by done.
    assert (data_x (revealButton v bt) = data_x bt ∧
            data_y (revealButton v bt) = data_y bt ∧
            disabled (revealButton v bt) = true) as (-> & -> & Hd).
    { unfold revealButton. destruct (disabled bt) eqn:Hd; [done|]. by case_decide. }
    cbn [fields setFieldsLeft]. rewrite Hv, Hd. cbn [negb].
    rewrite list_insert_insert_eq. f_equal; [f_equal|].
    + by rewrite Z.sub_0_r, setFieldsLeft_id.
    + unfold revealButton at 1. by rewrite Hd.
Qed.

Lemma revealField_twice_witness :
  let r := revealField (mkState 1 0 false 4 [[0; 0; 1; -1; 1]] true)
             [mkButton 0 0 false false false None; mkButton 1 0 false false false None;
              mkButton 2 0 false true false None] 2 in
  r.1.1 = negb (disabled (mkButton 2 0 false true false None)) ∧
  fieldsLeft r.1.2 =
    fieldsLeft (mkState 1 0 false 4 [[0; 0; 1; -1; 1]] true) -
    (if disabled (mkButton 2 0 false true false None) then 0
     else if decide (1 = -1) then 0 else 1) ∧
  (disabled (mkButton 2 0 false true false None) = true →
   r = (false, mkState 1 0 false 4 [[0; 0; 1; -1; 1]] true,
        [mkButton 0 0 false false false None; mkButton 1 0 false false false None;
         mkButton 2 0 false true false None])) ∧
  (∃ bt', r.2 !! 2%nat = Some bt' ∧ disabled bt' = true ∧
          (disabled (mkButton 2 0 false true false None) = false → flagged bt' = false)) ∧
  (∀ k', k' ≠ 2%nat →
     r.2 !! k' = [mkButton 0 0 false false false None; mkButton 1 0 false false false None;
                  mkButton 2 0 false true false None] !! k') ∧
  revealField r.1.2 r.2 2 = (false, r.1.2, r.2).
Proof.
  apply (revealField_twice (mkState 1 0 false 4 [[0; 0; 1; -1; 1]] true)
           [mkButton 0 0 false false false None; mkButton 1 0 false false false None;
            mkButton 2 0 false true false None] 2 (mkButton 2 0 false true false None) 1);
    reflexivity.
Defined.

Lemma mineReveal_idemp fs bt : mineReveal fs (mineReveal fs bt) = mineReveal fs bt.
Proof.
  unfold mineReveal.
  destruct (decide (getField fs (data_x bt) (data_y bt) = Some (-1))) as [Hm|Hm].
  - destruct (revealOn_data fs bt) as [-> ->]. rewrite decide_True by done.
    apply revealOn_idemp.
  - by rewrite decide_False.
Qed.

(** [gameOver] sets [isGameOver] and nothing else in the state; in the view
    it reveals every button that lies over a mine (a hidden one is disabled,
    loses its flag and gets the value [-1]) and leaves every other button
    and the recorded outcome as they are.  Running it again changes
    nothing. *)
Theorem gameOver_reveals_only_mines view st :
  (∀ k bt, grid view !! k = Some bt →
           is_Some (getField (fields st) (data_x bt) (data_y bt))) →
  let w' := gameOver view st in
  w'.1 = setIsGameOver true st ∧ restart w'.2 = restart view ∧
  length (grid w'.2) = length (grid view) ∧
  (∀ k bt, grid view !! k = Some bt →
     ∃ bt', grid w'.2 !! k = Some bt' ∧
       if decide (getField (fields st) (data_x bt) (data_y bt) = Some (-1))
       then disabled bt' = true ∧
            (disabled bt = true → bt' = bt) ∧
            (disabled bt = false → flagged bt' = false ∧ data_value bt' = Some (-1))
       else bt' = bt) ∧
  gameOver w'.2 w'.1 = w'.
Proof.
  intros Hon. cbn zeta. rewrite gameOver_eq. cbn [fst snd restart grid].
  split_and!.
  - done.
  - done.
  - by rewrite length_fmap.
  - intros k bt Hk. rewrite list_lookup_fmap, Hk. cbn [fmap option_fmap option_map].
    eexists. split; [done|]. unfold mineReveal.
    case_decide as Hm; [|done]. unfold revealOn. rewrite Hm.
    unfold revealButton. destruct (disabled bt) eqn:Hd; [done|].
    rewrite decide_False by done. by cbn.
  - rewrite gameOver_eq. cbn [fields setIsGameOver grid restart]. f_equal. f_equal.
    rewrite <-list_fmap_compose. apply list_fmap_ext. intros _ bt _. simpl.
    apply mineReveal_idemp.
Qed.

Lemma gameOver_reveals_only_mines_witness :
  let w' := gameOver (mkView Lost [mkButton 0 0 true false false (Some 1);
                                   mkButton 1 0 false true false None])
              (mkState 1 0 false 1 [[1; -1]] true) in
  w'.1 = setIsGameOver true (mkState 1 0 false 1 [[1; -1]] true) ∧ restart w'.2 = Lost ∧
  length (grid w'.2) = 2%nat ∧
  (∀ k bt, [mkButton 0 0 true false false (Some 1); mkButton 1 0 false true false None] !! k
           = Some bt →
     ∃ bt', grid w'.2 !! k = Some bt' ∧
       if decide (getField [[1; -1]] (data_x bt) (data_y bt) = Some (-1))
       then disabled bt' = true ∧
            (disabled bt = true → bt' = bt) ∧
            (disabled bt = false → flagged bt' = false ∧ data_value bt' = Some (-1))
       else bt' = bt) ∧
  gameOver w'.2 w'.1 = w'.
Proof.
  apply (gameOver_reveals_only_mines
           (mkView Lost [mkButton 0 0 true false false (Some 1);
                         mkButton 1 0 false true false None])
           (mkState 1 0 false 1 [[1; -1]] true)).
  intros k bt Hk. cbn [grid] in Hk.
  do 2 (destruct k as [|k]; [injection Hk as <-; by eexists|]). discriminate Hk.
Defined.

(** ** The flood fill, seen from outside *)

(** The recursion of [visit] ends, on every board and from every start:
    it is never deeper than the number of cells plus one, because every call
    that goes on adds a new index to [visited].  More room for the
    recursion gives the same result, which is what [revealEmptyArea]
    leaves behind. *)
Theorem flood_fill_terminates children st x y :
  wfWorld (st, mkView NoClass children) →
  ∃ visited st' children',
    (∀ fuel, (visitFuel st ≤ fuel)%nat →
             visit fuel x y (∅, st, children) = Some (visited, st', children')) ∧
    revealEmptyArea children st x y = (st', children').
Proof.
  intros _.
  destruct (revealEmptyArea_visit children st x y) as (V' & st' & ch' & Hvisit & Heq & _).
  exists V', st', ch'. split; [|done].
  intros fuel Hle. by apply (visit_fuel_mono (visitFuel st)).
Qed.

Lemma flood_fill_terminates_witness :
  ∃ visited st' children',
    (∀ fuel, (visitFuel (mkState 1 1 false 3 [[0; 0; 1; -1]] false)%Z ≤ fuel)%nat →
       visit fuel 0 0
         (∅, mkState 1 1 false 3 [[0; 0; 1; -1]] false,
          [mkButton 0 0 false false false None; mkButton 1 0 false false false None;
           mkButton 2 0 false false false None; mkButton 3 0 false false false None]) =
       Some (visited, st', children')) ∧
    revealEmptyArea
      [mkButton 0 0 false false false None; mkButton 1 0 false false false None;
       mkButton 2 0 false false false None; mkButton 3 0 false false false None]
      (mkState 1 1 false 3 [[0; 0; 1; -1]] false) 0 0 = (st', children').
Proof.
  apply (flood_fill_terminates
           [mkButton 0 0 false false false None; mkButton 1 0 false false false None;
            mkButton 2 0 false false false None; mkButton 3 0 false false false None]
           (mkState 1 1 false 3 [[0; 0; 1; -1]] false) 0 0).
  unfold wfWorld, wfGrid. cbn [fst snd fields grid].
  split_and!; [reflexivity|reflexivity|split; [reflexivity | by repeat constructor]
              |reflexivity|].
  intros k bt Hk.
  do 4 (destruct k as [|k]; [injection Hk as <-; split; reflexivity|]). discriminate Hk.
Defined.

(** Where there is no 0 there is no cascade: on a cell of another value
    [revealEmptyArea] reveals that one cell, as [revealField] does, and
    stops; off the board it does nothing at all. *)
Theorem revealEmptyArea_no_cascade children st x y :
  wfWorld (st, mkView NoClass children) →
  getField (fields st) x y ≠ Some 0 →
  revealEmptyArea children st x y =
  if decide (0 ≤ x < fieldsWidth (fields st) ∧ 0 ≤ y < fieldsHeight (fields st))
  then ((revealField st children (Z.to_nat (y * fieldsWidth (fields st) + x))).1.2,
        (revealField st children (Z.to_nat (y * fieldsWidth (fields st) + x))).2)
  else (st, children).
Proof.
  intros _ Hv. unfold revealEmptyArea, visitFuel. cbn [fst snd visit].
  destruct (decide (0 ≤ x < fieldsWidth (fields st) ∧ 0 ≤ y < fieldsHeight (fields st)))
    as [Hin|Hout].
  - rewrite decide_False by lia.
    rewrite decide_False by set_solver.
    destruct (revealField st children _) as [[r st'] ch'] eqn:Hr. cbn [fst snd].
    assert (fields st' = fields st) as Hfs.
    { pose proof (revealField_fields st children
                    (Z.to_nat (y * fieldsWidth (fields st) + x))) as Hf.
      by rewrite Hr in Hf. }
    rewrite Hfs. by rewrite decide_True by done.
  - rewrite decide_True by lia. done.
Qed.

Lemma revealEmptyArea_no_cascade_witness :
  revealEmptyArea [mkButton 0 0 false false false None; mkButton 1 0 false false false None;
                   mkButton 2 0 false false false None; mkButton 3 0 false false false None]
    (mkState 1 1 false 3 [[0; 0; 1; -1]] false) 2 0 =
  if decide (0 ≤ 2 < 4 ∧ 0 ≤ 0 < 1)
  then ((revealField (mkState 1 1 false 3 [[0; 0; 1; -1]] false)
           [mkButton 0 0 false false false None; mkButton 1 0 false false false None;
            mkButton 2 0 false false false None; mkButton 3 0 false false false None]
           (Z.to_nat (0 * 4 + 2))).1.2,
        (revealField (mkState 1 1 false 3 [[0; 0; 1; -1]] false)
           [mkButton 0 0 false false false None; mkButton 1 0 false false false None;
            mkButton 2 0 false false false None; mkButton 3 0 false false false None]
           (Z.to_nat (0 * 4 + 2))).2)
  else (mkState 1 1 false 3 [[0; 0; 1; -1]] false,
        [mkButton 0 0 false false false None; mkButton 1 0 false false false None;
         mkButton 2 0 false false false None; mkButton 3 0 false false false None]).
Proof.
  apply (revealEmptyArea_no_cascade
           [mkButton 0 0 false false false None; mkButton 1 0 false false false None;
            mkButton 2 0 false false false None; mkButton 3 0 false false false None]
           (mkState 1 1 false 3 [[0; 0; 1; -1]] false) 2 0); [|discriminate].
  unfold wfWorld, wfGrid. cbn [fst snd fields grid].
  split_and!; [reflexivity|reflexivity|split; [reflexivity | by repeat constructor]
              |reflexivity|].
  intros k bt Hk.
  do 4 (destruct k as [|k]; [injection Hk as <-; split; reflexivity|]). discriminate Hk.
Defined.

Section twice.
Context (fs : list (list Z)).
Context (Hw : 0 < fieldsWidth fs) (Hh : 0 < fieldsHeight fs).
Context (Hrect : rect (fieldsWidth fs) (fieldsHeight fs) fs).

Lemma revealEmptyArea_again children st x y :
  fields st = fs → wfGrid fs children → inBounds fs (x, y) →
  revealEmptyArea (revealEmptyArea children st x y).2 (revealEmptyArea children st x y).1 x y =
  revealEmptyArea children st x y.
Proof using Hw Hh Hrect.
  intros Hfs Hwf Hin.
  destruct (revealEmptyArea_buttons fs Hw Hh Hrect children st x y Hfs Hwf Hin)
    as (V & st1 & -> & Hpot & HV).
  cbn [fst snd].
  assert (wfGrid fs (revealSet fs V children)) as Hwf'.
  { eapply wfGrid_step; [apply Forall2_revealSet | done]. }
  destruct (revealEmptyArea_buttons fs Hw Hh Hrect (revealSet fs V children)
              (setFieldsLeft (fieldsLeft st1) st) x y) as (V2 & st2 & -> & Hpot2 & HV2);
    [by rewrite <-Hfs|done|done|].
  assert (revealSet fs V2 (revealSet fs V children) = revealSet fs V children) as Hsame.
  { apply list_eq. intros k. rewrite !lookup_revealSet.
    destruct (children !! k) as [bt|] eqn:Hk; [|done]. cbn [fmap option_fmap option_map].
    f_equal. specialize (HV k bt Hk).
    specialize (HV2 k (if decide (Z.of_nat k ∈ V) then revealOn fs bt else bt)).
    rewrite lookup_revealSet, Hk in HV2. specialize (HV2 eq_refl).
    destruct (decide (Z.of_nat k ∈ V)) as [HkV|HkV].
    - case_decide; [apply revealOn_idemp | done].
    - rewrite decide_False; [done|]. rewrite HV2. by rewrite <-HV. }
  rewrite Hsame in Hpot2 |- *. cbn [fieldsLeft setFieldsLeft] in Hpot2.
  f_equal. assert (fieldsLeft st2 = fieldsLeft st1) as -> by lia. by destruct st.
Qed.
End twice.

(** The cascade is idempotent: on a board with a button for every cell, a
    second [revealEmptyArea] from the same cell changes neither a button nor
    [fieldsLeft]. *)
Theorem revealEmptyArea_idempotent children st x y :
  wfWorld (st, mkView NoClass children) → inBounds (fields st) (x, y) →
  revealEmptyArea (revealEmptyArea children st x y).2 (revealEmptyArea children st x y).1 x y =
  revealEmptyArea children st x y.
Proof.
  intros (Hw & Hh & Hrect & Hwf) Hin. by apply (revealEmptyArea_again (fields st)).
Qed.

Lemma revealEmptyArea_idempotent_witness :
  revealEmptyArea
    (revealEmptyArea [mkButton 0 0 false false false None; mkButton 1 0 false true false None;
                      mkButton 2 0 false false false None; mkButton 3 0 false false false None]
       (mkState 1 0 false 3 [[0; 0; 1; -1]] true) 0 0).2
    (revealEmptyArea [mkButton 0 0 false false false None; mkButton 1 0 false true false None;
                      mkButton 2 0 false false false None; mkButton 3 0 false false false None]
       (mkState 1 0 false 3 [[0; 0; 1; -1]] true) 0 0).1 0 0 =
  revealEmptyArea [mkButton 0 0 false false false None; mkButton 1 0 false true false None;
                   mkButton 2 0 false false false None; mkButton 3 0 false false false None]
    (mkState 1 0 false 3 [[0; 0; 1; -1]] true) 0 0.
Proof.
  apply (revealEmptyArea_idempotent
           [mkButton 0 0 false false false None; mkButton 1 0 false true false None;
            mkButton 2 0 false false false None; mkButton 3 0 false false false None]
           (mkState 1 0 false 3 [[0; 0; 1; -1]] true) 0 0).
  - unfold wfWorld, wfGrid. cbn [fst snd fields grid].
    split_and!; [reflexivity|reflexivity|split; [reflexivity | by repeat constructor]
                |reflexivity|].
    intros k bt Hk.
    do 4 (destruct k as [|k]; [injection Hk as <-; split; reflexivity|]). discriminate Hk.
  - split; vm_compute; split; congruence.
Defined.

(** ** What a click never does *)

(** No click changes the board, the number of mines or the number of
    buttons; every button keeps its coordinates, and a revealed button stays
    exactly as it is: nothing is ever hidden again. *)
Theorem events_keep_board event w :
  wfWorld w →
  fields (mousedown event w).1 = fields w.1 ∧
  minesCount (mousedown event w).1 = minesCount w.1 ∧
  length (grid (mousedown event w).2) = length (grid w.2) ∧
  ∀ k bt, grid w.2 !! k = Some bt →
    ∃ bt', grid (mousedown event w).2 !! k = Some bt' ∧
      data_x bt' = data_x bt ∧ data_y bt' = data_y bt ∧
      (disabled bt = true → bt' = bt).
Proof.
  intros _. destruct (mousedown_evolves event w) as (Hfs & Hcount & Hstep & _).
  split_and!; [done|done|by rewrite (Forall2_length _ _ _ Hstep)|].
  intros k bt Hk.
  destruct (Forall2_lookup_l _ _ _ _ _ Hstep Hk) as (bt' & Hk' & Hx & Hy & Hd & _).
  by exists bt'.
Qed.

Lemma events_keep_board_witness :
  ∃ w, startGame (λ _, 3 # 5) 1 5 1 1 = Some w ∧
    fields (mousedown (revealAt 0) w).1 = fields w.1 ∧
    minesCount (mousedown (revealAt 0) w).1 = minesCount w.1 ∧
    length (grid (mousedown (revealAt 0) w).2) = length (grid w.2) ∧
    ∀ k bt, grid w.2 !! k = Some bt →
      ∃ bt', grid (mousedown (revealAt 0) w).2 !! k = Some bt' ∧
        data_x bt' = data_x bt ∧ data_y bt' = data_y bt ∧
        (disabled bt = true → bt' = bt).
Proof.
  eexists. split; [vm_compute; reflexivity|].
  apply (events_keep_board (revealAt 0)).
  unfold wfWorld, wfGrid. cbn [fst snd fields grid].
  split_and!; [reflexivity|reflexivity|split; [reflexivity | by repeat constructor]
              |reflexivity|].
  intros k bt Hk.
  do 5 (destruct k as [|k]; [injection Hk as <-; split; reflexivity|]). discriminate Hk.
Defined.

(** ** Right clicks *)

(** Two right clicks on the same button of a running game undo each other:
    the flag and [minesLeft] are back where they were.  All that is left of
    them is that the timer runs. *)
Theorem flag_twice_restores st view k :
  isGameOver st = false → is_Some (grid view !! k) →
  mousedown (flagAt k) (mousedown (flagAt k) (st, view)) = (ensureTimerStarted st, view).
Proof.
  intros Hover [bt Hk].
  assert (isGameOver (ensureTimerStarted st) = false) as Hover'.
  { unfold ensureTimerStarted. by destruct (timerInterval st). }
  rewrite (mousedown_eq _ st view), Hover. cbn [target flagAt button]. rewrite Hk.
  rewrite decide_True by done.
  destruct (disabled bt) eqn:Hd.
  - rewrite mousedown_eq, Hover'. cbn [target flagAt button]. rewrite Hk, Hd.
    rewrite decide_True by done.
    by rewrite ensureTimerStarted_id by apply ensureTimerStarted_timer.
  - rewrite mousedown_eq. cbn [isGameOver setMinesLeft]. rewrite Hover'.
    cbn [target flagAt button grid].
    rewrite list_lookup_insert_eq by (by eapply lookup_lt_Some).
    rewrite decide_True by done. cbn [disabled setFlagged]. rewrite Hd.
    rewrite ensureTimerStarted_id by apply ensureTimerStarted_timer.
    cbn [restart flagged minesLeft setMinesLeft]. rewrite list_insert_insert_eq.
    f_equal.
    + unfold setMinesLeft. cbn.
      replace (minesLeft (ensureTimerStarted st) + (if negb (flagged bt) then -1 else 1) +
               (if negb (negb (flagged bt)) then -1 else 1))
        with (minesLeft (ensureTimerStarted st)) by (destruct (flagged bt); simpl; lia).
      by destruct (ensureTimerStarted st).
    + destruct view as [r g]. cbn in *. f_equal.
      rewrite ?negb_involutive.
      replace (setFlagged (flagged bt) (setFlagged (negb (flagged bt)) bt)) with bt
        by (by destruct bt).
      by apply list_insert_id.
Qed.

Lemma flag_twice_restores_witness :
  mousedown (flagAt 1)
    (mousedown (flagAt 1)
       (mkState 1 1 false 1 [[-1; 1]] false,
        mkView NoClass [mkButton 0 0 false false false None;
                        mkButton 1 0 false false false None])) =
  (ensureTimerStarted (mkState 1 1 false 1 [[-1; 1]] false),
   mkView NoClass [mkButton 0 0 false false false None; mkButton 1 0 false false false None]).
Proof.
  apply (flag_twice_restores (mkState 1 1 false 1 [[-1; 1]] false)
           (mkView NoClass [mkButton 0 0 false false false None;
                            mkButton 1 0 false false false None]) 1).
  - reflexivity.
  - by eexists.
Defined.

(** A right click on a revealed cell does nothing at all: no flag appears
    and [minesLeft] stays. *)
Theorem flag_on_revealed_is_noop w k bt :
  reachable w → grid w.2 !! k = Some bt → stateOf bt = Revealed →
  mousedown (flagAt k) w = w.
Proof.
  intros Hreach Hk Hrev. apply stateOf_Revealed in Hrev.
  destruct (reachable_invariant w Hreach) as (_ & _ & _ & _ & Htimer).
  destruct w as [st view]. cbn [fst snd] in *.
  rewrite mousedown_eq. destruct (isGameOver st); [done|].
  cbn [target flagAt button]. rewrite Hk, Hrev. rewrite decide_True by done.
  destruct (timerInterval st) eqn:Ht.
  - by rewrite ensureTimerStarted_id.
  - specialize (Htimer eq_refl k bt Hk). congruence.
Qed.

Lemma flag_on_revealed_is_noop_witness :
  ∃ w0, startGame (λ _, 3 # 5) 1 5 1 1 = Some w0 ∧
    mousedown (flagAt 4) (mousedown (revealAt 4) w0) = mousedown (revealAt 4) w0.
Proof.
  eexists. split; [vm_compute; reflexivity|].
  apply (flag_on_revealed_is_noop _ 4%nat (mkButton 4 0 true false false (Some 1))).
  - apply reach_mousedown.
    apply (reach_start (λ _, 3 # 5) 1 5 1 1); [lia|lia|lia| |vm_compute; reflexivity].
    intros _. split; [discriminate | reflexivity].
  - vm_compute. reflexivity.
  - reflexivity.
Defined.

(** ** The shape of a left click *)

Lemma revealEmptyArea_form children st x y :
  ∃ V fl, revealEmptyArea children st x y =
          (setFieldsLeft fl st, revealSet (fields st) V children).
Proof.
  destruct (revealEmptyArea_visit children st x y) as (V' & st' & ch' & Hvisit & -> & _).
  apply visit_frame in Hvisit as (_ & Hst & Hch). cbn [fst snd] in *.
  exists (V' ∖ ∅), (fieldsLeft st'). by rewrite <-Hst, <-Hch.
Qed.

(** The [switch] of [handleFieldReveal] on a hidden mine, and on any other
    button: there it reveals a set of buttons and lowers [fieldsLeft]. *)
Lemma revealSwitch_hit view st k bt :
  getField (fields st) (data_x bt) (data_y bt) = Some (-1) → disabled bt = false →
  revealSwitch view st k bt =
  (setIsGameOver true st,
   mkView Lost (mineReveal (fields st) <$>
                <[k := setExploded true (revealButton (-1) bt)]> (grid view))).
Proof.
  intros Hv Hd. unfold revealSwitch. rewrite Hv, Hd.
  rewrite decide_True by done. by rewrite gameOver_eq.
Qed.

Lemma revealSwitch_miss view st k bt :
  grid view !! k = Some bt →
  ¬ (getField (fields st) (data_x bt) (data_y bt) = Some (-1) ∧ disabled bt = false) →
  ∃ V fl, revealSwitch view st k bt =
          (setFieldsLeft fl st, mkView (restart view) (revealSet (fields st) V (grid view))).
Proof.
  intros Hk Hnot. unfold revealSwitch.
  assert (∃ V fl, (st, view) =
            (setFieldsLeft fl st, mkView (restart view) (revealSet (fields st) V (grid view))))
    as Hnone.
  { exists ∅, (fieldsLeft st). rewrite revealSet_empty, setFieldsLeft_id. by destruct view. }
  destruct (getField _ _ _) as [v|] eqn:Hv; [|done].
  destruct (decide (v = -1)) as [->|Hv1].
  - destruct (disabled bt) eqn:Hd; [done|]. exfalso. by apply Hnot.
  - destruct (decide (v = 0)) as [->|Hv0].
    + destruct (revealEmptyArea_form (grid view) st (data_x bt) (data_y bt))
        as (V & fl & ->). by exists V, fl.
    + exists {[Z.of_nat k]}, (fieldsLeft (revealField st (grid view) k).1.2).
      rewrite <-revealField_state.
      pose proof (revealField_revealSet st (grid view) (Z.of_nat k)) as Hset.
      rewrite Nat2Z.id in Hset. by rewrite Hset by lia.
Qed.

(** The set of buttons revealed holds no mine when the board carries the
    right counts. *)
Lemma revealSwitch_spares_mines view st k bt :
  wfWorld (st, view) → countsOK (fields st) → grid view !! k = Some bt →
  ¬ (getField (fields st) (data_x bt) (data_y bt) = Some (-1) ∧ disabled bt = false) →
  ∀ k' b, grid view !! k' = Some b → isMine (fields st) (data_x b, data_y b) →
    grid (revealSwitch view st k bt).2 !! k' = Some b.
Proof.
  intros (Hw & Hh & Hrect & Hg) Hok Hk Hnot k' b Hk' Hmine. cbn [fst snd] in *.
  unfold revealSwitch.
  destruct (getField _ _ _) as [v|] eqn:Hv; [|done].
  destruct (decide (v = -1)) as [->|Hv1].
  - destruct (disabled bt) eqn:Hd; [done|]. exfalso. by apply Hnot.
  - destruct (decide (v = 0)) as [->|Hv0]; cbn [snd grid].
    + destruct (wfGrid_lookup _ Hw _ _ _ Hg Hk) as [Hin _].
      destruct (revealEmptyArea_buttons (fields st) Hw Hh Hrect (grid view) st
                  (data_x bt) (data_y bt) eq_refl Hg Hin) as (V' & st' & -> & _ & HV).
      cbn [snd]. rewrite lookup_revealSet, Hk'. cbn [fmap option_fmap option_map].
      rewrite decide_False; [done|]. intros Hin'. apply (HV _ _ Hk') in Hin'.
      by apply (flood_no_mine (fields st) (data_x bt, data_y bt) _ Hok Hv) in Hin'.
    + rewrite revealField_lookup. case_decide as Heq; [|done]. subst k'.
      rewrite Hk in Hk'. injection Hk' as <-. unfold isMine in Hmine. cbn [fst snd] in Hmine.
      congruence.
Qed.

(** ** Keeping the books through a click *)

Lemma revealOn_exploded fs b : exploded (revealOn fs b) = exploded b.
Proof.
  unfold revealOn, revealButton. destruct (getField _ _ _); [|done].
  destruct (disabled b); [done|]. by case_decide.
Qed.

Lemma mineReveal_exploded fs b : exploded (mineReveal fs b) = exploded b.
Proof. unfold mineReveal. case_decide; [apply revealOn_exploded | done]. Qed.

Lemma mineReveal_data fs b :
  data_x (mineReveal fs b) = data_x b ∧ data_y (mineReveal fs b) = data_y b.
Proof. unfold mineReveal. case_decide; [apply revealOn_data | done]. Qed.

Lemma minesShown_mineReveal fs children : minesShown fs (mineReveal fs <$> children).
Proof.
  intros k b'. rewrite list_lookup_fmap.
  destruct (children !! k) as [b|]; [|done]. intros [= <-].
  destruct (mineReveal_data fs b) as [-> ->]. intros Hmine.
  unfold mineReveal. rewrite decide_True by done. apply revealOn_revealed.
  unfold isMine in Hmine. cbn [fst snd] in Hmine. by rewrite Hmine.
Qed.

Lemma revealStep_refl b : revealStep b b.
Proof. by left. Qed.

Lemma revealStep_trans b1 b2 b3 : revealStep b1 b2 → revealStep b2 b3 → revealStep b1 b3.
Proof.
  intros [->|[H1 H2]] [->|[H3 H4]]; [by left|by right|by right|congruence].
Qed.

Lemma revealStep_revealOn fs b : revealStep b (revealOn fs b).
Proof.
  unfold revealOn, revealButton. destruct (getField _ _ _); [|by left].
  destruct (disabled b) eqn:Hd; [by left|]. right. split; [done|]. by case_decide.
Qed.

Lemma revealStep_mineReveal fs b : revealStep b (mineReveal fs b).
Proof. unfold mineReveal. case_decide; [apply revealStep_revealOn | by left]. Qed.

Lemma Forall2_revealStep_trans l1 l2 l3 :
  Forall2 revealStep l1 l2 → Forall2 revealStep l2 l3 → Forall2 revealStep l1 l3.
Proof.
  intros H12. revert l3. induction H12 as [|b1 b2 l1 l2 Hb H12 IH]; intros l3 H23.
  - by apply Forall2_nil_inv_l in H23 as ->.
  - apply Forall2_cons_inv_l in H23 as (b3 & l3' & Hb' & H23 & ->).
    constructor; [by eapply revealStep_trans | by apply IH].
Qed.

Lemma Forall2_revealStep_fmap (f : Button → Button) l :
  (∀ b, revealStep b (f b)) → Forall2 revealStep l (f <$> l).
Proof. intros Hf. induction l; constructor; auto. Qed.

Lemma Forall2_revealStep_revealSet fs V l : Forall2 revealStep l (revealSet fs V l).
Proof.
  unfold revealSet. apply Forall2_same_length_lookup_2; [by rewrite length_imap|].
  intros k b b' Hb. rewrite list_lookup_imap, Hb. intros [= <-].
  case_decide; [apply revealStep_revealOn | apply revealStep_refl].
Qed.

Lemma Forall2_revealStep_insert l k b b' :
  l !! k = Some b → revealStep b b' → Forall2 revealStep l (<[k := b']> l).
Proof.
  intros Hk Hstep. apply Forall2_same_length_lookup_2; [by rewrite length_insert|].
  intros k' c c' Hc. destruct (decide (k' = k)) as [->|Hne].
  - rewrite list_lookup_insert_eq by (by eapply lookup_lt_Some). intros [= <-]. congruence.
  - rewrite list_lookup_insert_ne by done. intros Hc'. rewrite Hc in Hc'.
    injection Hc' as <-. apply revealStep_refl.
Qed.

(** A left click sets no flag. *)
Lemma flaggedCount_revealStep l l' :
  Forall2 revealStep l l' → flaggedCount l' ≤ flaggedCount l.
Proof.
  unfold flaggedCount. induction 1 as [|b b' l l' Hb _ IH]; [done|].
  rewrite !filter_cons.
  destruct (decide (stateOf b' = Flagged)) as [Hf'|Hf'].
  - destruct Hb as [->|[_ Hd]].
    + rewrite decide_True by done. simpl. lia.
    + unfold stateOf in Hf'. by rewrite Hd in Hf'.
  - case_decide; simpl; lia.
Qed.

Lemma flaggedCount_toggle l k b :
  l !! k = Some b → disabled b = false →
  flaggedCount (<[k := setFlagged (negb (flagged b)) b]> l) =
  flaggedCount l + (if flagged b then -1 else 1).
Proof.
  unfold flaggedCount. revert k. induction l as [|c l IH]; intros k Hk Hd; [done|].
  destruct k as [|k]; simpl in Hk.
  - injection Hk as ->. simpl (<[_:=_]> _). rewrite !filter_cons.
    destruct (flagged b) eqn:Hf; cbn [negb].
    + assert (stateOf b = Flagged) as H1 by (unfold stateOf; by rewrite Hd, Hf).
      assert (stateOf (setFlagged false b) ≠ Flagged) as H2
        by (unfold stateOf; cbn; by rewrite Hd).
      rewrite (decide_False (P := stateOf (setFlagged false b) = Flagged)) by done.
      rewrite (decide_True (P := stateOf b = Flagged)) by done. simpl. lia.
    + assert (stateOf b ≠ Flagged) as H1 by (unfold stateOf; by rewrite Hd, Hf).
      assert (stateOf (setFlagged true b) = Flagged) as H2
        by (unfold stateOf; cbn; by rewrite Hd).
      rewrite (decide_True (P := stateOf (setFlagged true b) = Flagged)) by done.
      rewrite (decide_False (P := stateOf b = Flagged)) by done. simpl. lia.
  - simpl (<[_:=_]> _). rewrite !filter_cons. specialize (IH k Hk Hd).
    case_decide; simpl in *; lia.
Qed.

Lemma ensureTimerStarted_eq st : ensureTimerStarted st = setTimerInterval true st.
Proof.
  unfold ensureTimerStarted. destruct (timerInterval st) eqn:Ht; [|done].
  destruct st. simpl in *. by subst.
Qed.

Lemma revealButton_data v b :
  data_x (revealButton v b) = data_x b ∧ data_y (revealButton v b) = data_y b.
Proof. unfold revealButton. destruct (disabled b); [done|]. by case_decide. Qed.

Lemma outcomeOK_won st children :
  isGameOver st = true → fieldsLeft st = 0 →
  outcomeOK (st, mkView Won (mineReveal (fields st) <$> children)).
Proof. intros Hover Hleft. split_and!; [done..|]. apply minesShown_mineReveal. Qed.

(** A click keeps the recorded outcome in step with the state and sets no
    flag that [minesLeft] does not know of. *)
Lemma mousedown_outcome event st view :
  wfWorld (st, view) → countsOK (fields st) → outcomeOK (st, view) →
  minesLeft (mousedown event (st, view)).1 + flaggedCount (grid (mousedown event (st, view)).2)
    ≤ minesLeft st + flaggedCount (grid view) ∧
  outcomeOK (mousedown event (st, view)).
Proof.
  intros Hwf Hok Hout. rewrite mousedown_eq.
  destruct (isGameOver st) eqn:Hover; [by split|].
  destruct (target event) as [k|]; [|by split].
  destruct (grid view !! k) as [bt|] eqn:Hk; [|by split].
  destruct view as [r children]. unfold outcomeOK in Hout. cbn [fst snd restart grid] in *.
  destruct r; [|destruct Hout as [? _]; congruence..].
  destruct Hout as (_ & Hhid & Hnoexp).
  rewrite ensureTimerStarted_eq.
  assert (outcomeOK (setTimerInterval true st, mkView NoClass children)) as Hsame.
  { by split_and!. }
  destruct (decide (button event = 2)) as [_|_].
  { destruct (disabled bt) eqn:Hd; [by split|].
    cbn [fst snd grid minesLeft setMinesLeft setTimerInterval].
    rewrite flaggedCount_toggle by done. split; [destruct (flagged bt); simpl; lia|].
    split_and!; [done| |]; cbn [fst snd fields grid setMinesLeft setTimerInterval].
    - intros k' b' Hk' Hm. destruct (decide (k' = k)) as [->|Hne].
      + rewrite list_lookup_insert_eq in Hk' by (by eapply lookup_lt_Some).
        by injection Hk' as <-.
      + rewrite list_lookup_insert_ne in Hk' by done. by eapply Hhid.
    - intros k' b' Hk'. destruct (decide (k' = k)) as [->|Hne].
      + rewrite list_lookup_insert_eq in Hk' by (by eapply lookup_lt_Some).
        injection Hk' as <-. cbn. by eapply Hnoexp.
      + rewrite list_lookup_insert_ne in Hk' by done. by eapply Hnoexp. }
  destruct (flagged bt) eqn:Hfl; [by split|].
  set (st1 := setTimerInterval true st).
  assert (wfWorld (st1, mkView NoClass children)) as Hwf1 by done.
  destruct (decide (getField (fields st) (data_x bt) (data_y bt) = Some (-1) ∧
                    disabled bt = false)) as [[Hv Hd]|Hmiss].
  - (* a hidden mine *)
    rewrite (revealSwitch_hit _ st1 k bt Hv Hd).
    set (X := setExploded true (revealButton (-1) bt)).
    assert (Forall2 revealStep children (mineReveal (fields st) <$> <[k := X]> children))
      as Hstep.
    { eapply Forall2_revealStep_trans.
      - apply (Forall2_revealStep_insert children k bt X Hk). right. split; [done|].
        unfold X, revealButton. rewrite Hd. by cbn.
      - apply Forall2_revealStep_fmap, revealStep_mineReveal. }
    unfold winCheck. cbn [fst snd fieldsLeft setIsGameOver st1 setTimerInterval grid fields].
    destruct (decide (fieldsLeft st = 0)) as [Hz|Hnz].
    + rewrite gameOver_eq. cbn [fst snd grid minesLeft setIsGameOver fields]. split.
      * apply Z.add_le_mono_l, flaggedCount_revealStep.
        eapply Forall2_revealStep_trans; [done|].
        apply Forall2_revealStep_fmap, revealStep_mineReveal.
      * by apply (outcomeOK_won (setIsGameOver true (setIsGameOver true st1))).
    + cbn [fst snd grid minesLeft]. split.
      * by apply Z.add_le_mono_l, flaggedCount_revealStep.
      * split_and!; [done|done|apply minesShown_mineReveal|].
        cbn [fst snd grid fields]. exists k. split.
        -- exists (mineReveal (fields st) X).
           rewrite list_lookup_fmap, list_lookup_insert_eq by (by eapply lookup_lt_Some).
           split; [done|]. rewrite mineReveal_exploded.
           destruct (mineReveal_data (fields st) X) as [-> ->]. split; [done|].
           unfold X. cbn [data_x data_y setExploded].
           by destruct (revealButton_data (-1) bt) as [-> ->].
        -- intros k' b'. rewrite list_lookup_fmap.
           destruct (decide (k' = k)) as [->|Hne]; [done|].
           rewrite list_lookup_insert_ne by done.
           destruct (children !! k') as [c|] eqn:Hc; [|done]. intros [= <-].
           rewrite mineReveal_exploded, (Hnoexp k' c Hc). done.
  - (* any other button *)
    pose proof (revealSwitch_spares_mines _ st1 k bt Hwf1 Hok Hk Hmiss) as Hspare.
    destruct (revealSwitch_miss (mkView NoClass children) st1 k bt Hk Hmiss)
      as (V & fl & Heq).
    rewrite Heq in Hspare |- *. cbn [fst snd grid restart fields st1 setTimerInterval] in *.
    unfold winCheck. cbn [fst snd fieldsLeft setFieldsLeft grid].
    pose proof (Forall2_revealStep_revealSet (fields st) V children) as Hstep.
    destruct (decide (fl = 0)) as [Hz|Hnz].
    + rewrite gameOver_eq. cbn [fst snd grid minesLeft setIsGameOver setFieldsLeft fields].
      split.
      * apply Z.add_le_mono_l, flaggedCount_revealStep.
        eapply Forall2_revealStep_trans; [done|].
        apply Forall2_revealStep_fmap, revealStep_mineReveal.
      * by apply (outcomeOK_won (setIsGameOver true (setFieldsLeft fl st1))).
    + cbn [fst snd grid minesLeft]. split.
      * by apply Z.add_le_mono_l, flaggedCount_revealStep.
      * split_and!; [done| |]; cbn [fst snd grid fields].
        -- intros k' b' Hk' Hm. pose proof Hk' as Hk2. rewrite lookup_revealSet in Hk2.
           destruct (children !! k') as [c|] eqn:Hc; [|done].
           assert (isMine (fields st) (data_x c, data_y c)) as Hmc.
           { injection Hk2 as <-. case_decide; [|done].
             by destruct (revealOn_data (fields st) c) as [<- <-]. }
           rewrite (Hspare k' c Hc Hmc) in Hk'. injection Hk' as <-. by eapply Hhid.
        -- intros k' b'. rewrite lookup_revealSet.
           destruct (children !! k') as [c|] eqn:Hc; [|done]. intros [= <-].
           case_decide; [rewrite revealOn_exploded|]; by eapply Hnoexp.
Qed.

(** Every button of a new game is as [initView] leaves it. *)
Lemma startGame_buttons random fuel width height count w :
  0 < width → 0 < height →
  startGame random fuel width height count = Some w →
  ∀ k b, grid w.2 !! k = Some b → b = resetButton b.
Proof.
  intros Hw Hh. unfold startGame.
  destruct (initGameState random fuel width height count) as [st|] eqn:Hinit; [|done].
  cbn [mbind option_bind]. intros [= <-].
  pose proof (initGameState_rect _ _ _ _ _ _ Hw Hh Hinit) as Hrect.
  pose proof (rect_width _ _ _ Hh Hrect) as Hfw.
  assert (0 < fieldsWidth (fields st)) as Hw' by lia.
  destruct (createFieldButtons_wf st Hw') as [Hwf _].
  rewrite initView_eq by (done || by destruct Hwf).
  cbn [snd grid]. intros k b. rewrite list_lookup_fmap.
  destruct (_ !! k); [|done]. by intros [= <-].
Qed.

Lemma revealedSafe_hidden fs children :
  (∀ k b, children !! k = Some b → disabled b = false) → revealedSafe fs children = 0.
Proof.
  induction children as [|b l IH]; intros Hd; [done|]. cbn [revealedSafe foldr].
  fold (revealedSafe fs l). rewrite IH by (intros k; apply (Hd (S k))).
  unfold safeRevealed. by rewrite (Hd 0%nat b eq_refl).
Qed.

Lemma flaggedCount_none children :
  (∀ k b, children !! k = Some b → flagged b = false) → flaggedCount children = 0.
Proof.
  intros Hf. unfold flaggedCount. rewrite length_filter_none; [done|].
  intros b [k Hk]%list_elem_of_lookup. unfold stateOf. rewrite (Hf k b Hk).
  by destruct (disabled b).
Qed.

Lemma bookkeeping_start random fuel width height count w :
  0 < width → 0 < height → 0 ≤ count → (∀ k, unitInterval (random k)) →
  startGame random fuel width height count = Some w → bookkeeping w.
Proof.
  intros Hw Hh Hc Hrnd Hstart.
  destruct (startGame_fresh _ _ _ _ _ _ Hw Hh Hc Hrnd Hstart)
    as (Hwf & (Hover & _ & Hfresh) & Hcount & Hrestart & Hleft & Hmleft & Hrect & Hok & Hmines).
  pose proof (startGame_buttons _ _ _ _ _ _ Hw Hh Hstart) as Hreset.
  pose proof (rect_width _ _ _ Hh Hrect) as Hfw.
  pose proof (rect_height _ _ _ Hrect) as Hfh.
  unfold bookkeeping. split_and!.
  - done.
  - congruence.
  - rewrite revealedSafe_hidden by (intros k b Hk; by destruct (Hfresh k b Hk)). lia.
  - intros k b Hk Hd. destruct (Hfresh k b Hk). congruence.
  - rewrite flaggedCount_none by (intros k b Hk; by destruct (Hfresh k b Hk)). lia.
  - unfold outcomeOK. rewrite Hrestart. split_and!; [done| |].
    + intros k b Hk _. by destruct (Hfresh k b Hk).
    + intros k b Hk. by rewrite (Hreset k b Hk).
Qed.

(** The bookkeeping is right in every world a player can get to. *)
Lemma reachable_bookkeeping w : reachable w → bookkeeping w.
Proof.
  induction 1 as [random fuel width height count w Hw Hh Hc Hrnd Hstart
                 |event w Hreach IH|random fuel w w' Hreach IH Hrnd Hrestart].
  - by apply (bookkeeping_start random fuel width height count); [..|lia| |].
  - destruct (reachable_invariant w Hreach) as (Hwf & _).
    destruct IH as (Hok & Hmines & Hpot & Hflag & Hleft & Hout).
    destruct (mousedown_evolves event w) as (Hfs & Hcount & Hstep & Hpot' & _).
    destruct w as [st view].
    destruct (mousedown_outcome event st view Hwf Hok Hout) as [Hleft' Hout'].
    cbn [fst snd] in *. unfold bookkeeping. rewrite Hfs, Hcount. split_and!.
    + done.
    + done.
    + lia.
    + intros k b' Hk' Hd'.
      destruct (Forall2_lookup_r _ _ _ _ _ Hstep Hk') as (b & Hk & _ & _ & Hsame & Hnew).
      destruct (disabled b) eqn:Hd.
      * rewrite (Hsame eq_refl) in *. by eapply Hflag.
      * by apply Hnew.
    + lia.
    + done.
  - destruct (reachable_invariant w Hreach) as (Hwf & Hcount & _).
    rewrite restartGame_startGame in Hrestart by done.
    destruct Hwf as (Hw & Hh & _).
    by apply (bookkeeping_start random fuel _ _ _ w' Hw Hh Hcount Hrnd).
Qed.

(** ** Counting buttons *)

Lemma length_filter_fmap {A B} (f : A → B) (P : B → Prop) `{∀ x, Decision (P x)}
    (l : list A) :
  length (filter P (f <$> l)) = length (filter (λ x, P (f x)) l).
Proof.
  induction l as [|a l IH]; [done|]. rewrite fmap_cons, !filter_cons.
  destruct (decide (P (f a))); simpl; by rewrite IH.
Qed.

Lemma bind_singleton_fmap {A B} (f : A → B) (l : list A) : (l ≫= λ x, [f x]) = f <$> l.
Proof. induction l as [|a l IH]; [done|]. csimpl. by rewrite IH. Qed.

Lemma allCells_rows w h :
  allCells w h = (seqZ 0 h ≫= λ y, (λ x, (x, y)) <$> seqZ 0 w).
Proof.
  unfold allCells. induction (seqZ 0 h) as [|y ys IH]; [done|]. csimpl.
  by rewrite IH, bind_singleton_fmap.
Qed.

(** The buttons of a grid lie over the cells of the board, in their order. *)
Lemma wfGrid_coords fs children :
  0 < fieldsWidth fs → wfGrid fs children →
  (λ b, (data_x b, data_y b)) <$> children = allCells (fieldsWidth fs) (fieldsHeight fs).
Proof.
  intros Hw [Hlen Hdata]. rewrite allCells_rows. unfold fieldsHeight in *.
  pose proof (length_rows (λ x y, (x, y)) (fieldsWidth fs) (length fs) Hw) as Hrows.
  apply list_eq. intros k. rewrite list_lookup_fmap.
  destruct (children !! k) as [b|] eqn:Hk.
  - pose proof (lookup_lt_Some _ _ _ Hk) as Hlt.
    rewrite lookup_rows by lia. simpl. by destruct (Hdata k b Hk) as [-> ->].
  - apply lookup_ge_None in Hk. simpl. symmetry. apply lookup_ge_None. lia.
Qed.

Lemma wfGrid_mines fs children :
  0 < fieldsWidth fs → wfGrid fs children →
  Z.of_nat (length (filter (λ b, isMine fs (data_x b, data_y b)) children)) = countMines fs.
Proof.
  intros Hw Hwf. unfold countMines. rewrite <-(wfGrid_coords fs children Hw Hwf).
  by rewrite length_filter_fmap.
Qed.

(** Every button is revealed over a safe cell, hidden over a safe cell, or
    lies over a mine. *)
Lemma button_partition fs children :
  revealedSafe fs children + hiddenSafe fs children +
  Z.of_nat (length (filter (λ b, isMine fs (data_x b, data_y b)) children)) =
  Z.of_nat (length children).
Proof.
  unfold hiddenSafe. induction children as [|b l IH]; [done|].
  cbn [revealedSafe foldr]. fold (revealedSafe fs l). rewrite !filter_cons.
  unfold safeRevealed.
  destruct (decide (isMine fs (data_x b, data_y b))) as [Hm|Hm].
  - rewrite (decide_False (P := disabled b = false ∧ _)) by naive_solver.
    unfold isMine in Hm. cbn [fst snd] in Hm.
    rewrite (decide_True (P := getField _ _ _ = _)) by done.
    destruct (disabled b); simpl length; lia.
  - unfold isMine in Hm. cbn [fst snd] in Hm.
    rewrite (decide_False (P := getField _ _ _ = _)) by done.
    destruct (disabled b) eqn:Hd.
    + rewrite (decide_False (P := true = false ∧ _)) by naive_solver. simpl length. lia.
    + rewrite (decide_True (P := false = false ∧ _)) by done. simpl length. lia.
Qed.

Lemma hiddenSafe_nonneg fs children : 0 ≤ hiddenSafe fs children.
Proof. unfold hiddenSafe. lia. Qed.

Lemma hiddenSafe_zero fs children :
  hiddenSafe fs children = 0 →
  ∀ k b, children !! k = Some b → ¬ isMine fs (data_x b, data_y b) → disabled b = true.
Proof.
  unfold hiddenSafe. intros Hz k b Hk Hm.
  destruct (disabled b) eqn:Hd; [done|]. exfalso.
  assert (b ∈ filter (λ b, disabled b = false ∧ ¬ isMine fs (data_x b, data_y b)) children)
    as Hin.
  { apply list_elem_of_filter. split; [done|]. by eapply list_elem_of_lookup_2. }
  destruct (filter _ children); [by apply elem_of_nil in Hin | simpl in Hz; lia].
Qed.

Lemma reachable_fieldsLeft w :
  reachable w → fieldsLeft w.1 = hiddenSafe (fields w.1) (grid w.2).
Proof.
  intros Hreach.
  destruct (reachable_invariant w Hreach) as ((Hw & Hh & Hrect & Hwf) & _).
  destruct (reachable_bookkeeping w Hreach) as (_ & Hmines & Hpot & _).
  pose proof (button_partition (fields w.1) (grid w.2)) as Hpart.
  rewrite (wfGrid_mines _ _ Hw Hwf) in Hpart. destruct Hwf as [Hlen _]. lia.
Qed.

(** ** What holds in every game *)

(** [fieldsLeft] is what its name says: in every world a player can get to
    it is the number of cells that are not mines and not yet revealed. *)
Theorem fieldsLeft_counts_hidden_safe w :
  reachable w →
  fieldsLeft w.1 =
  Z.of_nat (length (filter (λ b, disabled b = false ∧
                                 ¬ isMine (fields w.1) (data_x b, data_y b)) (grid w.2))).
Proof. apply reachable_fieldsLeft. Qed.

Lemma fieldsLeft_counts_hidden_safe_witness :
  ∃ w0, startGame (λ _, 3 # 5) 1 5 1 1 = Some w0 ∧
    let w := mousedown (revealAt 4) w0 in
    fieldsLeft w.1 =
    Z.of_nat (length (filter (λ b, disabled b = false ∧
                                   ¬ isMine (fields w.1) (data_x b, data_y b)) (grid w.2))).
Proof.
  eexists. split; [vm_compute; reflexivity|].
  apply (fieldsLeft_counts_hidden_safe (mousedown (revealAt 4) _)).
  apply reach_mousedown.
  apply (reach_start (λ _, 3 # 5) 1 5 1 1); [lia|lia|lia| |vm_compute; reflexivity].
  intros _. split; [discriminate | reflexivity].
Defined.

(** The game is over exactly when an outcome is recorded on the restart
    element.  Then every mine is revealed; as long as the game runs, no
    mine is revealed and no button has exploded. *)
Theorem outcome_matches_state w :
  reachable w →
  (isGameOver w.1 = true ↔ restart w.2 ≠ NoClass) ∧
  (isGameOver w.1 = true →
   ∀ k b, grid w.2 !! k = Some b → isMine (fields w.1) (data_x b, data_y b) →
          disabled b = true) ∧
  (isGameOver w.1 = false →
   ∀ k b, grid w.2 !! k = Some b →
          exploded b = false ∧
          (isMine (fields w.1) (data_x b, data_y b) → disabled b = false)).
Proof.
  intros Hreach. destruct (reachable_bookkeeping w Hreach) as (_ & _ & _ & _ & _ & Hout).
  unfold outcomeOK in Hout.
  destruct (restart w.2); [destruct Hout as (Hover & Hhid & Hnoexp)
                          |destruct Hout as (Hover & _ & Hshown & _)
                          |destruct Hout as (Hover & _ & Hshown)].
  - split_and!; [split; congruence|congruence|].
    intros _ k b Hk. split; [by eapply Hnoexp | by eapply Hhid].
  - split_and!; [done|by intros _|congruence].
  - split_and!; [done|by intros _|congruence].
Qed.

Lemma outcome_matches_state_witness :
  ∃ w0, startGame (λ _, 3 # 5) 1 5 1 1 = Some w0 ∧
    let w := mousedown (revealAt 3) w0 in
    (isGameOver w.1 = true ↔ restart w.2 ≠ NoClass) ∧
    (isGameOver w.1 = true →
     ∀ k b, grid w.2 !! k = Some b → isMine (fields w.1) (data_x b, data_y b) →
            disabled b = true) ∧
    (isGameOver w.1 = false →
     ∀ k b, grid w.2 !! k = Some b →
            exploded b = false ∧
            (isMine (fields w.1) (data_x b, data_y b) → disabled b = false)).
Proof.
  eexists. split; [vm_compute; reflexivity|].
  apply (outcome_matches_state (mousedown (revealAt 3) _)).
  apply reach_mousedown.
  apply (reach_start (λ _, 3 # 5) 1 5 1 1); [lia|lia|lia| |vm_compute; reflexivity].
  intros _. split; [discriminate | reflexivity].
Defined.

(** A won game shows the whole board: when the outcome is [won], the game is
    over, [fieldsLeft] is 0 and every button is revealed, mines included. *)
Theorem won_reveals_all w :
  reachable w → restart w.2 = Won →
  isGameOver w.1 = true ∧ fieldsLeft w.1 = 0 ∧
  ∀ k b, grid w.2 !! k = Some b → disabled b = true.
Proof.
  intros Hreach Hwon.
  destruct (reachable_bookkeeping w Hreach) as (_ & _ & _ & _ & _ & Hout).
  unfold outcomeOK in Hout. rewrite Hwon in Hout. destruct Hout as (Hover & Hz & Hshown).
  split_and!; [done..|]. intros k b Hk.
  destruct (decide (isMine (fields w.1) (data_x b, data_y b))) as [Hm|Hm].
  - by eapply Hshown.
  - eapply hiddenSafe_zero; [|done..]. by rewrite <-reachable_fieldsLeft.
Qed.

Lemma won_reveals_all_witness :
  ∃ w0, startGame (λ _, 3 # 4) 1 4 1 1 = Some w0 ∧
    let w := mousedown (revealAt 0) w0 in
    isGameOver w.1 = true ∧ fieldsLeft w.1 = 0 ∧
    ∀ k b, grid w.2 !! k = Some b → disabled b = true.
Proof.
  eexists. split; [vm_compute; reflexivity|].
  apply (won_reveals_all (mousedown (revealAt 0) _)).
  - apply reach_mousedown.
    apply (reach_start (λ _, 3 # 4) 1 4 1 1); [lia|lia|lia| |vm_compute; reflexivity].
    intros _. split; [discriminate | reflexivity].
  - vm_compute. reflexivity.
Defined.

(** A lost game: when the outcome is [lost], the game is over, exactly one
    button carries the class [exploded], it lies over a mine, and at least
    one cell that is not a mine is still hidden ([fieldsLeft] is not 0). *)
Theorem lost_has_one_exploded_mine w :
  reachable w → restart w.2 = Lost →
  isGameOver w.1 = true ∧ fieldsLeft w.1 ≠ 0 ∧
  ∃ k b, grid w.2 !! k = Some b ∧ exploded b = true ∧
         isMine (fields w.1) (data_x b, data_y b) ∧
         ∀ k' b', grid w.2 !! k' = Some b' → exploded b' = true → k' = k.
Proof.
  intros Hreach Hlost.
  destruct (reachable_bookkeeping w Hreach) as (_ & _ & _ & _ & _ & Hout).
  unfold outcomeOK in Hout. rewrite Hlost in Hout.
  destruct Hout as (Hover & Hnz & _ & k & (b & Hk & He & Hm) & Huniq).
  split_and!; [done..|]. by exists k, b.
Qed.

Lemma lost_has_one_exploded_mine_witness :
  ∃ w0, startGame (λ _, 3 # 5) 1 5 1 1 = Some w0 ∧
    let w := mousedown (revealAt 3) w0 in
    isGameOver w.1 = true ∧ fieldsLeft w.1 ≠ 0 ∧
    ∃ k b, grid w.2 !! k = Some b ∧ exploded b = true ∧
           isMine (fields w.1) (data_x b, data_y b) ∧
           ∀ k' b', grid w.2 !! k' = Some b' → exploded b' = true → k' = k.
Proof.
  eexists. split; [vm_compute; reflexivity|].
  apply (lost_has_one_exploded_mine (mousedown (revealAt 3) _)).
  - apply reach_mousedown.
    apply (reach_start (λ _, 3 # 5) 1 5 1 1); [lia|lia|lia| |vm_compute; reflexivity].
    intros _. split; [discriminate | reflexivity].
  - vm_compute. reflexivity.
Defined.

(** Flags and the counter: no revealed button carries a flag, and
    [minesLeft] never exceeds the number of mines less the number of flags
    on the board.  (It can stay below: a flag that a reveal takes away is
    not given back to the counter.) *)
Theorem flags_and_counter w :
  reachable w →
  (∀ k b, grid w.2 !! k = Some b → disabled b = true → flagged b = false) ∧
  minesLeft w.1 ≤ minesCount w.1 - flaggedCount (grid w.2).
Proof.
  intros Hreach. destruct (reachable_bookkeeping w Hreach) as (_ & _ & _ & Hflag & Hleft & _).
  split; [done | lia].
Qed.

Lemma flags_and_counter_witness :
  ∃ w0, startGame (λ _, 3 # 5) 1 5 1 1 = Some w0 ∧
    let w := mousedown (revealAt 0) (mousedown (flagAt 1) w0) in
    (∀ k b, grid w.2 !! k = Some b → disabled b = true → flagged b = false) ∧
    minesLeft w.1 ≤ minesCount w.1 - flaggedCount (grid w.2).
Proof.
  eexists. split; [vm_compute; reflexivity|].
  apply (flags_and_counter (mousedown (revealAt 0) (mousedown (flagAt 1) _))).
  do 2 apply reach_mousedown.
  apply (reach_start (λ _, 3 # 5) 1 5 1 1); [lia|lia|lia| |vm_compute; reflexivity].
  intros _. split; [discriminate | reflexivity].
Defined.

Lemma reachable_safe_left w :
  reachable w →
  minesCount w.1 < fieldsWidth (fields w.1) * fieldsHeight (fields w.1) →
  isGameOver w.1 = false → 0 < fieldsLeft w.1.
Proof.
  intros Hreach Hcount Hover.
  destruct (reachable_invariant w Hreach) as (_ & _ & Hleft & _).
  destruct (reachable_bookkeeping w Hreach) as (_ & _ & Hpot & _).
  pose proof (reachable_fieldsLeft w Hreach) as Hhid.
  pose proof (hiddenSafe_nonneg (fields w.1) (grid w.2)) as Hge.
  destruct (decide (fieldsLeft w.1 = 0)) as [Hz|Hnz]; [|lia]. exfalso.
  rewrite revealedSafe_hidden in Hpot; [lia|].
  intros k b Hk. destruct (disabled b) eqn:Hd; [|done]. exfalso.
  apply (Hleft Hover); [|done]. by exists k, b.
Qed.

(** With fewer mines than cells, a running game always has a cell left that
    is not a mine ([fieldsLeft] is positive), so that a reveal at a hidden,
    unflagged mine records a lost game and leaves [fieldsLeft] as it is. *)
Theorem mine_click_loses w k bt :
  reachable w →
  minesCount w.1 < fieldsWidth (fields w.1) * fieldsHeight (fields w.1) →
  isGameOver w.1 = false →
  grid w.2 !! k = Some bt → stateOf bt = Hidden →
  isMine (fields w.1) (data_x bt, data_y bt) →
  0 < fieldsLeft w.1 ∧
  restart (mousedown (revealAt k) w).2 = Lost ∧
  isGameOver (mousedown (revealAt k) w).1 = true ∧
  fieldsLeft (mousedown (revealAt k) w).1 = fieldsLeft w.1.
Proof.
  intros Hreach Hcount Hover Hk Hst Hm.
  pose proof (reachable_safe_left w Hreach Hcount Hover) as Hpos.
  split; [done|]. destruct w as [st view]. cbn [fst snd] in *.
  assert (disabled bt = false ∧ flagged bt = false) as [Hd Hfl].
  { unfold stateOf in Hst. by destruct (disabled bt), (flagged bt). }
  rewrite mousedown_eq, Hover. cbn [target revealAt button]. rewrite Hk, Hfl.
  rewrite decide_False by done. rewrite ensureTimerStarted_eq.
  rewrite (revealSwitch_hit view (setTimerInterval true st) k bt Hm Hd).
  unfold winCheck. cbn [fst snd fieldsLeft setIsGameOver setTimerInterval].
  by rewrite decide_False by lia.
Qed.

Lemma mine_click_loses_witness :
  ∃ w0, startGame (λ _, 3 # 5) 1 5 1 1 = Some w0 ∧
    let w := mousedown (revealAt 0) w0 in
    0 < fieldsLeft w.1 ∧
    restart (mousedown (revealAt 3) w).2 = Lost ∧
    isGameOver (mousedown (revealAt 3) w).1 = true ∧
    fieldsLeft (mousedown (revealAt 3) w).1 = fieldsLeft w.1.
Proof.
  eexists. split; [vm_compute; reflexivity|].
  apply (mine_click_loses (mousedown (revealAt 0) _) 3%nat
           (mkButton 3 0 false false false None)).
  - apply reach_mousedown.
    apply (reach_start (λ _, 3 # 5) 1 5 1 1); [lia|lia|lia| |vm_compute; reflexivity].
    intros _. split; [discriminate | reflexivity].
  - vm_compute. reflexivity.
  - vm_compute. reflexivity.
  - vm_compute. reflexivity.
  - reflexivity.
  - vm_compute. reflexivity.
Defined.

Lemma untouched_start random fuel width height count w :
  0 < width → 0 < height → 0 ≤ count → (∀ k, unitInterval (random k)) →
  startGame random fuel width height count = Some w →
  isGameOver w.1 = false ∧ restart w.2 = NoClass ∧ minesLeft w.1 = minesCount w.1 ∧
  fieldsLeft w.1 =
    fieldsWidth (fields w.1) * fieldsHeight (fields w.1) - minesCount w.1 ∧
  ∀ k b, grid w.2 !! k = Some b →
    b = mkButton (data_x b) (data_y b) false false false None.
Proof.
  intros Hw Hh Hc Hrnd Hstart.
  destruct (startGame_fresh _ _ _ _ _ _ Hw Hh Hc Hrnd Hstart)
    as (_ & (Hover & _) & Hcount & Hrestart & Hleft & Hmleft & Hrect & _).
  rewrite (rect_width _ _ _ Hh Hrect), (rect_height _ _ _ Hrect).
  split_and!; [done|done|congruence|congruence|].
  apply (startGame_buttons _ _ _ _ _ _ Hw Hh Hstart).
Qed.

(** The timer is started by the first click that reaches a button of a
    running game.  As long as it has not been started, the game is as new:
    not over, no outcome recorded, the counters at their first values and
    every button hidden, without flag, class or value. *)
Theorem timer_not_started_means_untouched w :
  reachable w → timerInterval w.1 = false →
  isGameOver w.1 = false ∧ restart w.2 = NoClass ∧ minesLeft w.1 = minesCount w.1 ∧
  fieldsLeft w.1 =
    fieldsWidth (fields w.1) * fieldsHeight (fields w.1) - minesCount w.1 ∧
  ∀ k b, grid w.2 !! k = Some b →
    b = mkButton (data_x b) (data_y b) false false false None.
Proof.
  induction 1 as [random fuel width height count w Hw Hh Hc Hrnd Hstart
                 |event w Hreach IH|random fuel w w' Hreach IH Hrnd Hrestart]; intros Ht.
  - by apply (untouched_start random fuel width height count); [..|lia| |].
  - rewrite (mousedown_timer event w Ht) in Ht |- *. by apply IH.
  - destruct (reachable_invariant w Hreach) as (Hwf & Hcount & _).
    rewrite restartGame_startGame in Hrestart by done.
    destruct Hwf as (Hw & Hh & _).
    by apply (untouched_start random fuel _ _ _ w' Hw Hh Hcount Hrnd).
Qed.

Lemma timer_not_started_means_untouched_witness :
  ∃ w0, startGame (λ _, 3 # 5) 1 5 1 1 = Some w0 ∧
    let w := mousedown (mkEvent 0 None) w0 in
    isGameOver w.1 = false ∧ restart w.2 = NoClass ∧ minesLeft w.1 = minesCount w.1 ∧
    fieldsLeft w.1 =
      fieldsWidth (fields w.1) * fieldsHeight (fields w.1) - minesCount w.1 ∧
    ∀ k b, grid w.2 !! k = Some b →
      b = mkButton (data_x b) (data_y b) false false false None.
Proof.
  eexists. split; [vm_compute; reflexivity|].
  apply (timer_not_started_means_untouched (mousedown (mkEvent 0 None) _)).
  - apply reach_mousedown.
    apply (reach_start (λ _, 3 # 5) 1 5 1 1); [lia|lia|lia| |vm_compute; reflexivity].
    intros _. split; [discriminate | reflexivity].
  - reflexivity.
Defined.

(** A reveal at a hidden, unflagged cell with a number reveals that one
    button, which shows the number, and takes one from [fieldsLeft].  No other
    button changes, unless this was the last cell that is not a mine: then
    the game is won and every button over a mine is revealed (a hidden one
    is disabled, loses its flag and gets the value [-1]), and these only. *)
Theorem reveal_number_cell w k bt v :
  wfWorld w →
  isGameOver w.1 = false → grid w.2 !! k = Some bt → stateOf bt = Hidden →
  getField (fields w.1) (data_x bt) (data_y bt) = Some v → v ≠ -1 → v ≠ 0 →
  fieldsLeft (mousedown (revealAt k) w).1 = fieldsLeft w.1 - 1 ∧
  minesLeft (mousedown (revealAt k) w).1 = minesLeft w.1 ∧
  isGameOver (mousedown (revealAt k) w).1 = bool_decide (fieldsLeft w.1 = 1) ∧
  restart (mousedown (revealAt k) w).2 =
    (if decide (fieldsLeft w.1 = 1) then Won else restart w.2) ∧
  grid (mousedown (revealAt k) w).2 !! k =
    Some (mkButton (data_x bt) (data_y bt) true false (exploded bt) (Some v)) ∧
  ∀ k' b, k' ≠ k → grid w.2 !! k' = Some b →
    ∃ b', grid (mousedown (revealAt k) w).2 !! k' = Some b' ∧
      if decide (fieldsLeft w.1 = 1 ∧ isMine (fields w.1) (data_x b, data_y b))
      then disabled b' = true ∧ (disabled b = true → b' = b) ∧
           (disabled b = false → flagged b' = false ∧ data_value b' = Some (-1))
      else b' = b.
Proof.
  destruct w as [st view]. cbn [fst snd]. intros _ Hover Hk Hst Hv Hv1 Hv0.
  assert (disabled bt = false ∧ flagged bt = false) as [Hd Hfl].
  { unfold stateOf in Hst. by destruct (disabled bt), (flagged bt). }
  assert (k < length (grid view))%nat as Hlt by (by eapply lookup_lt_Some).
  rewrite mousedown_eq, Hover. cbn [target revealAt button]. rewrite Hk, Hfl.
  rewrite decide_False by done. rewrite ensureTimerStarted_eq.
  unfold revealSwitch. cbn [fields setTimerInterval]. rewrite Hv.
  rewrite decide_False by done. rewrite decide_False by done.
  rewrite revealField_eq, Hk. cbn [fields setTimerInterval fst snd]. rewrite Hv, Hd.
  rewrite decide_False by done.
  assert (revealButton v bt =
          mkButton (data_x bt) (data_y bt) true false (exploded bt) (Some v)) as Hb.
  { unfold revealButton. rewrite Hd. by rewrite decide_False by done. }
  rewrite Hb. unfold winCheck. cbn [fst snd fieldsLeft setFieldsLeft setTimerInterval grid].
  destruct (decide (fieldsLeft st - 1 = 0)) as [Hz|Hnz].
  - rewrite gameOver_eq. cbn [fst snd fieldsLeft minesLeft isGameOver restart grid fields
                              setIsGameOver setFieldsLeft setTimerInterval].
    rewrite bool_decide_eq_true_2 by lia. rewrite decide_True by lia.
    split_and!; [done..| |].
    + rewrite list_lookup_fmap, list_lookup_insert_eq by done. cbn.
      unfold mineReveal. cbn [data_x data_y]. rewrite Hv. by rewrite decide_False by congruence.
    + intros k' b Hne Hk'. rewrite list_lookup_fmap, list_lookup_insert_ne, Hk' by done.
      eexists. split; [done|]. unfold mineReveal.
      destruct (decide (isMine (fields st) (data_x b, data_y b))) as [Hm|Hm];
        unfold isMine in Hm; cbn [fst snd] in Hm.
      * rewrite decide_True by (split; [lia | done]).
        rewrite (decide_True (P := getField _ _ _ = _)) by done.
        unfold revealOn. rewrite Hm. unfold revealButton.
        destruct (disabled b) eqn:Hdb; [done|]. rewrite decide_False by done. by cbn.
      * rewrite decide_False by naive_solver.
        by rewrite (decide_False (P := getField _ _ _ = _)) by done.
  - cbn [fst snd fieldsLeft minesLeft isGameOver restart grid
         setFieldsLeft setTimerInterval].
    rewrite bool_decide_eq_false_2 by lia. rewrite decide_False by lia.
    split_and!; [done..| |].
    + by rewrite list_lookup_insert_eq.
    + intros k' b Hne Hk'. rewrite list_lookup_insert_ne by done.
      eexists. split; [done|]. rewrite decide_False; [done|]. intros [? _]. lia.
Qed.

Lemma reveal_number_cell_witness :
  ∃ w, startGame (λ _, 3 # 5) 1 5 1 1 = Some w ∧
  fieldsLeft (mousedown (revealAt 2) w).1 = fieldsLeft w.1 - 1 ∧
  minesLeft (mousedown (revealAt 2) w).1 = minesLeft w.1 ∧
  isGameOver (mousedown (revealAt 2) w).1 = bool_decide (fieldsLeft w.1 = 1) ∧
  restart (mousedown (revealAt 2) w).2 =
    (if decide (fieldsLeft w.1 = 1) then Won else restart w.2) ∧
  grid (mousedown (revealAt 2) w).2 !! 2%nat =
    Some (mkButton 2 0 true false false (Some 1)) ∧
  ∀ k' b, k' ≠ 2%nat → grid w.2 !! k' = Some b →
    ∃ b', grid (mousedown (revealAt 2) w).2 !! k' = Some b' ∧
      if decide (fieldsLeft w.1 = 1 ∧ isMine (fields w.1) (data_x b, data_y b))
      then disabled b' = true ∧ (disabled b = true → b' = b) ∧
           (disabled b = false → flagged b' = false ∧ data_value b' = Some (-1))
      else b' = b.
Proof.
  eexists. split; [vm_compute; reflexivity|].
  apply (reveal_number_cell _ 2%nat (mkButton 2 0 false false false None) 1);
    [|reflexivity..|discriminate|discriminate].
  unfold wfWorld, wfGrid. cbn [fst snd fields grid].
  split_and!; [reflexivity|reflexivity|split; [reflexivity | by repeat constructor]
              |reflexivity|].
  intros k bt Hk.
  do 5 (destruct k as [|k]; [injection Hk as <-; split; reflexivity|]). discriminate Hk.
Defined.

(** ** [main] *)

Lemma main_startGame random fuel view :
  grid view = [] → main random fuel view = startGame random fuel 10 12 12.
Proof.
  intros Hgrid. unfold main, startGame.
  destruct (initGameState random fuel 10 12 12) as [st|]; [|done].
  cbn [mbind option_bind]. do 2 f_equal. unfold initView.
  by rewrite (createFieldButtons_app view), Hgrid.
Qed.

(** On a page whose grid is empty, [main] sets up a game of 120 hidden
    buttons over a board of 10 by 12 cells with 12 mines, the button of the
    cell [(x, y)] at position [y * 10 + x]; 108 cells are left to reveal, the
    game is not over and the timer is not running.  With a fair source of
    random numbers it does so after finitely many draws. *)
Theorem main_sets_up_game random view :
  grid view = [] → (∀ k, unitInterval (random k)) → fair random 120 →
  ∃ fuel w,
    (∀ fuel', (fuel ≤ fuel')%nat → main random fuel' view = Some w) ∧
    reachable w ∧
    rect 10 12 (fields w.1) ∧ countMines (fields w.1) = 12 ∧
    minesCount w.1 = 12 ∧ minesLeft w.1 = 12 ∧ fieldsLeft w.1 = 108 ∧
    isGameOver w.1 = false ∧ timerInterval w.1 = false ∧ restart w.2 = NoClass ∧
    length (grid w.2) = 120%nat ∧
    ∀ x y, 0 ≤ x < 10 → 0 ≤ y < 12 →
      grid w.2 !! Z.to_nat (y * 10 + x) = Some (mkButton x y false false false None).
Proof.
  intros Hgrid Hrnd Hfair.
  assert (0 < 10) as H10 by lia. assert (0 < 12) as H12 by lia.
  destruct (initGameState_terminates 10 12 H10 H12 random 12)
    as (fuel & st & Hinit); [lia|done|done|].
  set (w := (st, initView (createFieldButtons (mkView NoClass []) st) st)).
  assert (∀ fuel', (fuel ≤ fuel')%nat → startGame random fuel' 10 12 12 = Some w) as Hstart.
  { intros fuel' Hle. unfold startGame.
    by rewrite (initGameState_fuel_mono random fuel fuel' 10 12 12 st Hle Hinit). }
  exists fuel, w. split.
  { intros fuel' Hle. rewrite main_startGame by done. by apply Hstart. }
  specialize (Hstart fuel (le_n _)).
  destruct (startGame_fresh random fuel 10 12 12 w) as
    ((Hw & Hh & _ & Hwf) & (Hover & Htimer & _) & Hcount & Hrestart & Hleft & Hmleft &
     Hrect & _ & Hmines); [lia|lia|lia|done|done|].
  pose proof (startGame_buttons random fuel 10 12 12 w H10 H12 Hstart) as Hreset.
  pose proof (rect_width _ _ _ H12 Hrect) as Hfw.
  pose proof (rect_height _ _ _ Hrect) as Hfh.
  split_and!; try done.
  - by apply (reach_start random fuel 10 12 12).
  - destruct Hwf as [-> _]. rewrite Hfw, Hfh. done.
  - intros x y Hx Hy.
    destruct (wfGrid_cell (fields w.1) Hw (grid w.2) (x, y) Hwf) as (b & Hb & Hbx & Hby).
    { unfold inBounds. cbn [fst snd]. lia. }
    unfold cellIndex in Hb. cbn [fst snd] in *. rewrite Hfw in Hb. rewrite Hb.
    rewrite (Hreset _ b Hb). unfold resetButton. by rewrite Hbx, Hby.
Qed.

Lemma main_sets_up_game_witness :
  ∃ fuel w,
    (∀ fuel', (fuel ≤ fuel')%nat → main (cyclic 120) fuel' (mkView Won []) = Some w) ∧
    reachable w ∧
    rect 10 12 (fields w.1) ∧ countMines (fields w.1) = 12 ∧
    minesCount w.1 = 12 ∧ minesLeft w.1 = 12 ∧ fieldsLeft w.1 = 108 ∧
    isGameOver w.1 = false ∧ timerInterval w.1 = false ∧ restart w.2 = NoClass ∧
    length (grid w.2) = 120%nat ∧
    ∀ x y, 0 ≤ x < 10 → 0 ≤ y < 12 →
      grid w.2 !! Z.to_nat (y * 10 + x) = Some (mkButton x y false false false None).
Proof.
  apply (main_sets_up_game (cyclic 120) (mkView Won [])).
  - reflexivity.
  - intros k. apply cyclic_unitInterval. lia.
  - apply cyclic_fair. lia.
Defined.

(** ** The worlds of the program *)

(** The program plays on a board of 10 by 12 cells with 12 mines. *)
Lemma reachableMain_board w :
  reachableMain w →
  reachable w ∧ minesCount w.1 = 12 ∧
  fieldsWidth (fields w.1) = 10 ∧ fieldsHeight (fields w.1) = 12.
Proof.
  assert (0 < 10) as H10 by lia. assert (0 < 12) as H12 by lia.
  assert (∀ random fuel w0, (∀ k, unitInterval (random k)) →
            startGame random fuel 10 12 12 = Some w0 →
            reachable w0 ∧ minesCount w0.1 = 12 ∧
            fieldsWidth (fields w0.1) = 10 ∧ fieldsHeight (fields w0.1) = 12) as Hstart.
  { intros random fuel w0 Hrnd Hstart.
    destruct (startGame_fresh random fuel 10 12 12 w0 H10 H12 ltac:(done) Hrnd Hstart)
      as (_ & _ & Hcount & _ & _ & _ & Hrect & _).
    split_and!; [|done|by apply (rect_width _ _ _ H12 Hrect)|by apply (rect_height _ _ _ Hrect)].
    by apply (reach_start random fuel 10 12 12). }
  induction 1 as [random fuel view w Hgrid Hrnd Hmain
                 |event w _ (Hreach & Hcount & Hw & Hh)
                 |random fuel w w' _ (Hreach & Hcount & Hw & Hh) Hrnd Hrestart].
  - rewrite main_startGame in Hmain by done. by apply (Hstart random fuel).
  - destruct (mousedown_evolves event w) as (Hfs & Hc & _).
    rewrite Hfs, Hc. split_and!; [by apply reach_mousedown|done..].
  - destruct (reachable_invariant w Hreach) as (Hwf & _).
    rewrite restartGame_startGame, Hw, Hh, Hcount in Hrestart by done.
    by apply (Hstart random fuel).
Qed.

(** The world after a reveal at a hidden mine while cells that are not
    mines are left. *)
Lemma mine_hit_world st view k bt :
  isGameOver st = false → grid view !! k = Some bt →
  flagged bt = false → disabled bt = false →
  getField (fields st) (data_x bt) (data_y bt) = Some (-1) →
  fieldsLeft st ≠ 0 →
  mousedown (revealAt k) (st, view) =
  (setIsGameOver true (setTimerInterval true st),
   mkView Lost (mineReveal (fields st) <$>
                <[k := setExploded true (revealButton (-1) bt)]> (grid view))).
Proof.
  intros Hover Hk Hfl Hd Hv Hleft.
  rewrite mousedown_eq, Hover. cbn [target revealAt button]. rewrite Hk, Hfl.
  rewrite decide_False by done. rewrite ensureTimerStarted_eq.
  rewrite (revealSwitch_hit view (setTimerInterval true st) k bt Hv Hd).
  unfold winCheck. cbn [fst snd fieldsLeft setIsGameOver setTimerInterval].
  by rewrite decide_False by done.
Qed.

(** ** Which buttons a left click reveals *)




(** * The claims *)

(** ** Board generator *)

(** C1. Every grid that board generation returns for a positive width, a
    positive height and a mine count from 0 to the number of cells holds
    exactly that many cells of value [-1], and every other cell holds the
    number of mines among its neighbours on the board, a number from 0 to
    8. *)
Theorem generated_grid_counts random fuel width height count st :
  0 < width → 0 < height → 0 ≤ count ≤ width * height →
  (∀ k, unitInterval (random k)) →
  initGameState random fuel width height count = Some st →
  countMines (fields st) = count ∧
  ∀ x y v, getField (fields st) x y = Some v → v ≠ -1 →
           v = mineNeighbours (fields st) x y ∧ 0 ≤ v ≤ 8.
Proof.
  intros Hw Hh Hc Hrnd Hinit.
  destruct (initGameState_board width height Hw Hh random fuel count st (proj1 Hc) Hrnd Hinit)
    as (_ & Hok & Hcount & _).
  split; [done|]. intros x y v Hv Hne. split; [by apply Hok|].
  rewrite (Hok x y v Hv Hne). apply mineNeighbours_range.
Qed.

Lemma generated_grid_counts_witness :
  ∃ st, initGameState (λ _, 4 # 9) 1 3 3 1 = Some st ∧
        countMines (fields st) = 1 ∧
        ∀ x y v, getField (fields st) x y = Some v → v ≠ -1 →
                 v = mineNeighbours (fields st) x y ∧ 0 ≤ v ≤ 8.
Proof.
  eexists. split; [vm_compute; reflexivity|].
  apply (generated_grid_counts (λ _, 4 # 9) 1 3 3 1); [lia|lia|lia| |vm_compute; reflexivity].
  intros _. split; [discriminate | reflexivity].
Defined.

(** C8. The mines of a chosen set of indices can be placed in any order:
    the loop of [insertMines] yields the same board for every order. *)
Theorem placement_order_irrelevant width height indices1 indices2 fs :
  0 < width → 0 < height → rect width height fs →
  Forall (λ i, 0 ≤ i < width * height) indices1 →
  indices1 ≡ₚ indices2 →
  ∃ fs', placeMines indices1 fs = Some fs' ∧ placeMines indices2 fs = Some fs'.
Proof.
  intros Hw Hh Hr Hin Hperm.
  destruct (placeMines_rect width height Hw Hh indices1 fs Hr Hin) as (fs' & Hp & _).
  exists fs'. split; [done|].
  by rewrite <-(placeMines_Permutation width height Hw Hh indices1 indices2 Hperm fs Hr Hin).
Qed.

Lemma placement_order_irrelevant_witness :
  ∃ fs', placeMines [0; 4; 5] [[0; 0; 0]; [0; 0; 0]; [0; 0; 0]] = Some fs' ∧
         placeMines [5; 0; 4] [[0; 0; 0]; [0; 0; 0]; [0; 0; 0]] = Some fs'.
Proof.
  apply (placement_order_irrelevant 3 3); [lia|lia| | |].
  - split; [reflexivity|]. repeat constructor.
  - repeat constructor; lia.
  - symmetry. apply (Permutation_cons_append [0; 4] 5).
Defined.

(** C9. For a positive width and height and a mine count below the number
    of cells, board generation ends for every fair source of random
    numbers (one that yields every index at some draw), whatever the fuel
    beyond some bound, and the grid it returns has the mine count and the
    neighbour counts of C1. *)
Theorem generation_terminates random width height count :
  0 < width → 0 < height → 0 ≤ count < width * height →
  (∀ k, unitInterval (random k)) → fair random (width * height) →
  ∃ fuel st,
    (∀ fuel', (fuel ≤ fuel')%nat →
              initGameState random fuel' width height count = Some st) ∧
    countMines (fields st) = count ∧ countsOK (fields st).
Proof.
  intros Hw Hh Hc Hrnd Hfair.
  destruct (initGameState_terminates width height Hw Hh random count) as (fuel & st & Hinit);
    [lia|done|done|].
  exists fuel, st. split.
  - intros fuel' Hle. by apply (initGameState_fuel_mono random fuel fuel').
  - destruct (initGameState_board width height Hw Hh random fuel count st) as (_ & ? & ? & _);
      [lia|done|done|done].
Qed.

Lemma generation_terminates_witness :
  ∃ fuel st,
    (∀ fuel', (fuel ≤ fuel')%nat → initGameState (cyclic 6) fuel' 3 2 5 = Some st) ∧
    countMines (fields st) = 5 ∧ countsOK (fields st).
Proof.
  apply (generation_terminates (cyclic 6) 3 2 5); [lia|lia|lia| |].
  - intros k. apply cyclic_unitInterval. lia.
  - apply (cyclic_fair 6). lia.
Defined.

(** ** Game state machine *)

(** C7. Once the game is over, no click changes anything: the listener
    returns the world as it is. *)
Theorem game_over_is_final event w :
  isGameOver w.1 = true → mousedown event w = w.
Proof. destruct w as [st view]. simpl. intros Hover. unfold mousedown. by rewrite Hover. Qed.

Lemma game_over_is_final_witness :
  mousedown (flagAt 0)
    (mkState 1 1 true 1 [[-1; 1]] true,
     mkView Lost [mkButton 0 0 true false true (Some (-1)); mkButton 1 0 false false false None])
  = (mkState 1 1 true 1 [[-1; 1]] true,
     mkView Lost [mkButton 0 0 true false true (Some (-1)); mkButton 1 0 false false false None]).
Proof. apply (game_over_is_final (flagAt 0)). reflexivity. Defined.

(** C3. In every world a player can reach, an event takes from
    [fieldsLeft] exactly the number of cells that are not mines and that it
    turns from not revealed to revealed (so nothing for a revealed mine),
    and a reveal at a cell that is revealed already changes nothing at
    all. *)
Theorem fieldsLeft_counts_reveals event w :
  reachable w →
  fieldsLeft (mousedown event w).1 =
    fieldsLeft w.1 - newlyRevealedSafe (fields w.1) (grid w.2) (grid (mousedown event w).2) ∧
  (∀ k bt, target event = Some k → button event ≠ 2 →
           grid w.2 !! k = Some bt → stateOf bt = Revealed →
           mousedown event w = w).
Proof.
  intros Hreach. split.
  - destruct (mousedown_evolves event w) as (_ & _ & Hstep & Hpot & _).
    rewrite (newlyRevealedSafe_step _ _ _ Hstep). lia.
  - intros k bt Ht Hb Hk Hrev. apply stateOf_Revealed in Hrev.
    by apply (mousedown_revealed event w k bt (reachable_invariant w Hreach)).
Qed.

Lemma fieldsLeft_counts_reveals_witness :
  ∃ w0, startGame (λ _, 3 # 5) 1 5 1 1 = Some w0 ∧
    let w := mousedown (revealAt 0) w0 in
    fieldsLeft (mousedown (revealAt 1) w).1 =
      fieldsLeft w.1 -
      newlyRevealedSafe (fields w.1) (grid w.2) (grid (mousedown (revealAt 1) w).2) ∧
    (∀ k bt, target (revealAt 1) = Some k → button (revealAt 1) ≠ 2 →
             grid w.2 !! k = Some bt → stateOf bt = Revealed →
             mousedown (revealAt 1) w = w).
Proof.
  eexists. split; [vm_compute; reflexivity|].
  apply (fieldsLeft_counts_reveals (revealAt 1)).
  apply reach_mousedown.
  apply (reach_start (λ _, 3 # 5) 1 5 1 1); [lia|lia|lia| |vm_compute; reflexivity].
  intros _. split; [discriminate | reflexivity].
Defined.




(** ** Reveal engine *)

(** C2, as stated, fails twice.  When the cascade reveals the last cell that
    is not a mine, the game is won and every mine is revealed, also outside
    the region and its border: on the board [0 0 1 -1] the player reveals
    the first cell.  And a reveal at a flagged cell of value 0 reveals
    nothing: on the board [0 0 1 -1 1] the player flags the first cell and
    then reveals it. *)
Lemma cascade_set_not_exact :
  (∃ w, startGame (λ _, 3 # 4) 1 4 1 1 = Some w ∧
     fields w.1 = [[0; 0; 1; -1]] ∧ isGameOver w.1 = false ∧
     getField (fields w.1) 0 0 = Some 0 ∧
     ¬ cascadeSet (fields w.1) (0, 0) (3, 0) ∧
     stateOf <$> grid w.2 !! 3%nat = Some Hidden ∧
     stateOf <$> grid (mousedown (revealAt 0) w).2 !! 3%nat = Some Revealed) ∧
  (∃ w0, startGame (λ _, 3 # 5) 1 5 1 1 = Some w0 ∧
     let w := mousedown (flagAt 0) w0 in
     isGameOver w.1 = false ∧ getField (fields w.1) 0 0 = Some 0 ∧
     cascadeSet (fields w.1) (0, 0) (0, 0) ∧
     stateOf <$> grid w.2 !! 0%nat = Some Flagged ∧
     stateOf <$> grid (mousedown (revealAt 0) w).2 !! 0%nat = Some Flagged).
Proof.
  split.
  - eexists. split; [vm_compute; reflexivity|]. cbn [fst snd fields].
    split_and!; try (vm_compute; reflexivity).
    assert (∀ c, region [[0; 0; 1; -1]] (0, 0) c → c = (0, 0) ∨ c = (1, 0)) as Hregion.
    { intros c [_ Hrtc]. revert c Hrtc. apply rtc_ind_r; [by left|].
      intros b c _ [Hadj Hc] [-> | ->];
        destruct Hadj as [->|[->|[->| ->]]]; vm_compute in Hc; try discriminate; auto. }
    intros [Hreg|(r & v & Hreg & Hadj & _)].
    + by destruct (Hregion _ Hreg).
    + destruct (Hregion _ Hreg) as [-> | ->];
        destruct Hadj as [Hadj|[Hadj|[Hadj|Hadj]]]; discriminate Hadj.
  - eexists. split; [vm_compute; reflexivity|]. cbn zeta.
    split_and!; try (vm_compute; reflexivity).
    left. split; [vm_compute; reflexivity | done].
Qed.

(** C2, amended.  In a game in progress, a reveal at a flagged cell of
    value 0 reveals nothing: the view and [fieldsLeft] stay and the game goes
    on.  A reveal at an unflagged cell of value 0 reveals every cell of the
    maximal 4-connected region of cells of value 0 around it and every cell
    of another value next to that region.  A cell outside that set keeps its
    button as it is, with one exception: when the reveal leaves no cell that
    is not a mine unrevealed ([fieldsLeft] is 0 afterwards), the game is won
    and over, and every mine outside the set is revealed as well. *)
Theorem cascade_reveals_region w k bt :
  wfWorld w → isGameOver w.1 = false →
  grid w.2 !! k = Some bt →
  getField (fields w.1) (data_x bt) (data_y bt) = Some 0 →
  let w' := mousedown (revealAt k) w in
  (flagged bt = true →
   w'.2 = w.2 ∧ fieldsLeft w'.1 = fieldsLeft w.1 ∧ isGameOver w'.1 = false) ∧
  (flagged bt = false →
   restart w'.2 = (if decide (fieldsLeft w'.1 = 0) then Won else restart w.2) ∧
   isGameOver w'.1 = bool_decide (fieldsLeft w'.1 = 0) ∧
   ∀ k' b, grid w.2 !! k' = Some b →
     ∃ b', grid w'.2 !! k' = Some b' ∧
       (cascadeSet (fields w.1) (data_x bt, data_y bt) (data_x b, data_y b) →
        stateOf b' = Revealed) ∧
       (¬ cascadeSet (fields w.1) (data_x bt, data_y bt) (data_x b, data_y b) →
        if decide (fieldsLeft w'.1 = 0 ∧ isMine (fields w.1) (data_x b, data_y b))
        then stateOf b' = Revealed else b' = b)).
Proof.
  destruct w as [st view]. intros Hwf Hover Hk Hv. cbn [fst snd] in *. cbn zeta. split.
  { intros Hfl. rewrite mousedown_eq, Hover. cbn [target revealAt button]. rewrite Hk, Hfl.
    rewrite decide_False by done. rewrite ensureTimerStarted_eq. by cbn. }
  intros Hfl.
  destruct (mousedown_reveal_zero st view k bt Hwf Hover Hk Hfl Hv) as (V' & fl & HV & ->).
  destruct Hwf as (Hw & Hh & Hrect & Hg). cbn [fst snd] in *.
  rewrite winCheck_restart, winCheck_fieldsLeft_eq.
  cbn [fst snd grid fieldsLeft setFieldsLeft restart].
  split_and!.
  - done.
  - unfold winCheck. cbn [fst snd fieldsLeft setFieldsLeft].
    rewrite ensureTimerStarted_eq. case_decide as Hz.
    + rewrite gameOver_eq. cbn. by rewrite bool_decide_eq_true_2.
    + cbn. by rewrite bool_decide_eq_false_2.
  - intros k' b Hb.
    rewrite winCheck_grid. cbn [fst snd grid fieldsLeft setFieldsLeft].
    rewrite lookup_revealSet, Hb. cbn [fmap option_fmap option_map].
    change (fields (setFieldsLeft fl (ensureTimerStarted st)))
      with (fields (ensureTimerStarted st)).
    rewrite ensureTimerStarted_fields.
    destruct (wfGrid_lookup _ Hw _ _ _ Hg Hb) as [Hin _].
    pose proof (flood_cascadeSet (fields st) Hrect (data_x bt, data_y bt)
                  (data_x b, data_y b) Hv) as Hiff.
    eexists. split; [done|]. split.
    + intros Hset. apply Hiff, (HV _ _ Hb) in Hset.
      rewrite (decide_True (P := Z.of_nat k' ∈ V')) by done.
      apply stateOf_Revealed.
      assert (disabled (revealOn (fields st) b) = true) as Hd.
      { apply revealOn_revealed. by apply (inBounds_getField (fields st) Hrect (_, _)). }
      case_decide; [by rewrite mineReveal_disabled | done].
    + intros Hnset.
      rewrite (decide_False (P := Z.of_nat k' ∈ V'))
        by (intros Hin'; apply Hnset, Hiff, (HV _ _ Hb), Hin').
      destruct (decide (fl = 0)) as [Hz|Hnz].
      * unfold mineReveal.
        destruct (decide (isMine (fields st) (data_x b, data_y b))) as [Hm|Hm].
        -- rewrite decide_True by done. unfold isMine in Hm. cbn [fst snd] in Hm.
           rewrite (decide_True (P := getField _ _ _ = _)) by done.
           apply stateOf_Revealed, revealOn_revealed. eauto.
        -- rewrite decide_False by naive_solver.
           unfold isMine in Hm. cbn [fst snd] in Hm.
           by rewrite (decide_False (P := getField _ _ _ = _)) by done.
      * rewrite decide_False by naive_solver. done.
Qed.

Lemma cascade_reveals_region_witness :
  ∃ w, startGame (λ _, 3 # 5) 1 5 1 1 = Some w ∧
    let w' := mousedown (revealAt 1) w in
    (flagged (mkButton 1 0 false false false None) = true →
     w'.2 = w.2 ∧ fieldsLeft w'.1 = fieldsLeft w.1 ∧ isGameOver w'.1 = false) ∧
    (flagged (mkButton 1 0 false false false None) = false →
     restart w'.2 = (if decide (fieldsLeft w'.1 = 0) then Won else restart w.2) ∧
     isGameOver w'.1 = bool_decide (fieldsLeft w'.1 = 0) ∧
     ∀ k' b, grid w.2 !! k' = Some b →
       ∃ b', grid w'.2 !! k' = Some b' ∧
         (cascadeSet (fields w.1) (1, 0) (data_x b, data_y b) → stateOf b' = Revealed) ∧
         (¬ cascadeSet (fields w.1) (1, 0) (data_x b, data_y b) →
          if decide (fieldsLeft w'.1 = 0 ∧ isMine (fields w.1) (data_x b, data_y b))
          then stateOf b' = Revealed else b' = b)).
Proof.
  eexists. split; [vm_compute; reflexivity|].
  apply (cascade_reveals_region _ 1%nat (mkButton 1 0 false false false None)).
  - unfold wfWorld, wfGrid. cbn [fst snd fields grid].
    split_and!; [reflexivity|reflexivity|split; [reflexivity | by repeat constructor]
                |reflexivity|].
    intros k bt Hk.
    do 5 (destruct k as [|k]; [injection Hk as <-; split; reflexivity|]). discriminate Hk.
  - reflexivity.
  - reflexivity.
  - reflexivity.
Defined.

(** C10. On a generated grid, a cascade started at a cell of value 0 visits
    no mine and reveals no mine, and the reveal that starts it does not
    record a lost game. *)
Theorem cascade_reaches_no_mine random fuel width height count st0 w k bt :
  0 < width → 0 < height → 0 ≤ count ≤ width * height →
  (∀ k, unitInterval (random k)) →
  initGameState random fuel width height count = Some st0 →
  fields w.1 = fields st0 → wfGrid (fields w.1) (grid w.2) →
  grid w.2 !! k = Some bt →
  getField (fields w.1) (data_x bt) (data_y bt) = Some 0 →
  (∀ fuel' V' st' children',
     visit fuel' (data_x bt) (data_y bt) (∅, w.1, grid w.2) = Some (V', st', children') →
     ∀ c, inBounds (fields w.1) c → cellIndex (fields w.1) c ∈ V' →
          ¬ isMine (fields w.1) c) ∧
  (∀ k' b, grid w.2 !! k' = Some b → isMine (fields w.1) (data_x b, data_y b) →
     (revealEmptyArea (grid w.2) w.1 (data_x bt) (data_y bt)).2 !! k' = Some b) ∧
  (restart (mousedown (revealAt k) w).2 = Lost → restart w.2 = Lost).
Proof.
  intros Hw Hh Hc Hrnd Hinit Hfs Hg Hk Hv.
  destruct (initGameState_board width height Hw Hh random fuel count st0 (proj1 Hc) Hrnd Hinit)
    as (Hrect & Hok & _).
  rewrite <-Hfs in Hrect, Hok. destruct w as [st view]. cbn [fst snd] in *.
  pose proof (rect_width _ _ _ Hh Hrect) as Hfw.
  pose proof (rect_height _ _ _ Hrect) as Hfh.
  assert (0 < fieldsWidth (fields st)) as Hw' by lia.
  assert (0 < fieldsHeight (fields st)) as Hh' by lia.
  rewrite <-Hfw, <-Hfh in Hrect.
  destruct (wfGrid_lookup _ Hw' _ _ _ Hg Hk) as [Hin _].
  split_and!.
  - intros fuel' V' st' ch' Hvisit c Hc' HV.
    destruct (visit_sound _ _ _ _ _ Hvisit (cellIndex (fields st) c)) as (c' & Heq & Hflood);
      [done|set_solver|]. cbn [fst snd] in *.
    apply cellIndex_inj in Heq as <-; [|done|by eapply flood_inBounds].
    by apply (flood_no_mine (fields st) (data_x bt, data_y bt)).
  - intros k' b Hb Hmine.
    destruct (revealEmptyArea_buttons (fields st) Hw' Hh' Hrect (grid view) st
                (data_x bt) (data_y bt) eq_refl Hg Hin) as (V' & st' & -> & _ & HV).
    cbn [snd]. rewrite lookup_revealSet, Hb. cbn [fmap option_fmap option_map].
    rewrite decide_False; [done|]. intros Hin'. apply (HV _ _ Hb) in Hin'.
    by apply (flood_no_mine (fields st) (data_x bt, data_y bt) _ Hok Hv) in Hin'.
  - rewrite mousedown_eq. destruct (isGameOver st); [done|].
    cbn [target revealAt button]. rewrite Hk. rewrite decide_False by done.
    destruct (flagged bt); [done|].
    rewrite winCheck_restart. case_decide; [done|].
    unfold revealSwitch. rewrite ensureTimerStarted_fields, Hv.
    rewrite decide_False by done. by rewrite decide_True by done.
Qed.

Lemma cascade_reaches_no_mine_witness :
  ∃ w, startGame (λ _, 3 # 5) 1 5 1 1 = Some w ∧
    (∀ fuel' V' st' children',
       visit fuel' 0 0 (∅, w.1, grid w.2) = Some (V', st', children') →
       ∀ c, inBounds (fields w.1) c → cellIndex (fields w.1) c ∈ V' →
            ¬ isMine (fields w.1) c) ∧
    (∀ k' b, grid w.2 !! k' = Some b → isMine (fields w.1) (data_x b, data_y b) →
       (revealEmptyArea (grid w.2) w.1 0 0).2 !! k' = Some b) ∧
    (restart (mousedown (revealAt 0) w).2 = Lost → restart w.2 = Lost).
Proof.
  eexists. split; [vm_compute; reflexivity|].
  apply (cascade_reaches_no_mine (λ _, 3 # 5) 1 5 1 1
           (mkState 1 1 false 4 [[0; 0; 1; -1; 1]] false) _ 0%nat
           (mkButton 0 0 false false false None)).
  - lia.
  - lia.
  - lia.
  - intros _. split; [discriminate | reflexivity].
  - vm_compute. reflexivity.
  - reflexivity.
  - unfold wfGrid. cbn [fst snd fields grid]. split; [reflexivity|].
    intros k bt Hk.
    do 5 (destruct k as [|k]; [injection Hk as <-; split; reflexivity|]). discriminate Hk.
  - reflexivity.
  - reflexivity.
Defined.

(** C4.  In every world of the program (what [main] sets up, and from
    there any events and restarts) a reveal at a hidden, unflagged mine of a
    game in progress records the outcome [lost] and ends the game;
    afterwards the button of every mine of the board is revealed;
    [fieldsLeft] is what it was; and the outcome is not [won], nor does any
    later event make it so, since no event changes anything any more. *)
Theorem mine_reveal_loses_in_program w k bt :
  reachableMain w → isGameOver w.1 = false →
  grid w.2 !! k = Some bt → stateOf bt = Hidden →
  isMine (fields w.1) (data_x bt, data_y bt) →
  let w' := mousedown (revealAt k) w in
  restart w'.2 = Lost ∧ isGameOver w'.1 = true ∧
  fieldsLeft w'.1 = fieldsLeft w.1 ∧
  (∀ k' b', grid w'.2 !! k' = Some b' →
     isMine (fields w.1) (data_x b', data_y b') → stateOf b' = Revealed) ∧
  (∀ x y, isMine (fields w.1) (x, y) →
     ∃ b', grid w'.2 !! Z.to_nat (y * 10 + x) = Some b' ∧
           data_x b' = x ∧ data_y b' = y ∧ stateOf b' = Revealed) ∧
  (∀ event, mousedown event w' = w' ∧ restart (mousedown event w').2 ≠ Won).
Proof.
  intros Hmain Hover Hk Hst Hm. cbn zeta.
  destruct (reachableMain_board w Hmain) as (Hreach & Hcount & Hw & Hh).
  assert (0 < fieldsLeft w.1) as Hpos.
  { apply reachable_safe_left; [done| |done]. rewrite Hcount, Hw, Hh. lia. }
  destruct (reachable_invariant _ (reach_mousedown (revealAt k) w Hreach))
    as ((Hw' & _ & _ & Hg') & _).
  destruct (mousedown_evolves (revealAt k) w) as (Hfs & _).
  rewrite Hfs in Hw', Hg'.
  destruct (reachable_invariant w Hreach) as ((_ & _ & Hrect & _) & _).
  destruct w as [st view]. cbn [fst snd] in *.
  assert (disabled bt = false ∧ flagged bt = false) as [Hd Hfl].
  { unfold stateOf in Hst. by destruct (disabled bt), (flagged bt). }
  revert Hg'. rewrite (mine_hit_world st view k bt Hover Hk Hfl Hd Hm) by lia. intros Hg'.
  cbn [fst snd restart grid fields fieldsLeft isGameOver setIsGameOver setTimerInterval] in *.
  assert (∀ k' b',
    (mineReveal (fields st) <$> <[k:=setExploded true (revealButton (-1) bt)]> (grid view))
      !! k' = Some b' →
    isMine (fields st) (data_x b', data_y b') → stateOf b' = Revealed) as Hshown.
  { intros k' b' Hk' Hm'. apply stateOf_Revealed.
    by eapply (minesShown_mineReveal (fields st)). }
  split_and!; [done..| |].
  - intros x y Hmine.
    assert (inBounds (fields st) (x, y)) as Hin
      by (by apply (getField_inBounds (fields st) Hrect (x, y) (-1))).
    destruct (wfGrid_cell (fields st) Hw' _ (x, y) Hg' Hin) as (b' & Hb' & Hx & Hy).
    unfold cellIndex in Hb'. cbn [fst snd] in *. rewrite Hw in Hb'.
    exists b'. split_and!; [done..|]. apply (Hshown _ b' Hb'). by rewrite Hx, Hy.
  - intros event. by rewrite mousedown_eq.
Qed.

Lemma mine_reveal_loses_in_program_witness :
  ∃ w, main (cyclic 120) 12 (mkView NoClass []) = Some w ∧
    let w' := mousedown (revealAt 0) w in
    restart w'.2 = Lost ∧ isGameOver w'.1 = true ∧
    fieldsLeft w'.1 = fieldsLeft w.1 ∧
    (∀ k' b', grid w'.2 !! k' = Some b' →
       isMine (fields w.1) (data_x b', data_y b') → stateOf b' = Revealed) ∧
    (∀ x y, isMine (fields w.1) (x, y) →
       ∃ b', grid w'.2 !! Z.to_nat (y * 10 + x) = Some b' ∧
             data_x b' = x ∧ data_y b' = y ∧ stateOf b' = Revealed) ∧
    (∀ event, mousedown event w' = w' ∧ restart (mousedown event w').2 ≠ Won).
Proof.
  eexists. split; [vm_compute; reflexivity|].
  apply (mine_reveal_loses_in_program _ 0%nat (mkButton 0 0 false false false None)).
  - apply (main_start (cyclic 120) 12 (mkView NoClass [])); [reflexivity| |vm_compute; reflexivity].
    intros k. apply cyclic_unitInterval. lia.
  - reflexivity.
  - reflexivity.
  - reflexivity.
  - vm_compute. reflexivity.
Defined.

(** C6: the code departs from the claim when a cascade reveals a flagged
    cell.  On the board [0 0 1 -1 1] the player flags the second cell and
    reveals the first: the flag is gone, and [minesLeft] stays at 0 although
    the one mine is unflagged. *)
Theorem cascade_clears_flag_keeps_minesLeft :
  ∃ w0, startGame (λ _, 3 # 5) 1 5 1 1 = Some w0 ∧
    let w := mousedown (revealAt 0) (mousedown (flagAt 1) w0) in
    isGameOver w.1 = false ∧ minesCount w.1 = 1 ∧ flaggedCount (grid w.2) = 0 ∧
    minesLeft w.1 = 0.
Proof.
  eexists. split; [vm_compute; reflexivity|].
  cbn zeta. split_and!; vm_compute; reflexivity.
Qed.
